(** * Aozora Bunko tools: archive download, extraction and UTF-8 normalisation

    A shallow embedding of [download_aozora_zip.py] and
    [aozora_unzip_utf8.py], and the properties of their specification.

    Conventions.
    - A Python [str] is a list of Unicode code points, a [bytes] value a
      list of octets; both are lists over [Z].
    - The file system is a finite map from canonical absolute locations
      (lists of path components below the root) to nodes.  It has no
      symbolic links, and the [//] anchor of POSIX paths is identified
      with [/].
    - The codecs of the Shift_JIS family are tables of the Python
      runtime; they are a parameter of the development.  The UTF-8 codec
      is modelled in full.
    - The network is a parameter: what a request returns.  So are the
      reading of an HTML page (its anchors, or the exception of the
      parser), the joining of addresses (or its exception), the decimal
      digits of Unicode, and the reading of an archive (its members). *)

From Stdlib Require Import ZArith List String Ascii Bool Lia.
From stdpp Require Import base option list gmap sorting.

Local Open Scope Z_scope.

(** ** Strings and bytes *)

Abbreviation str := (list Z) (only parsing).
Abbreviation bytes := (list Z) (only parsing).

(** An ASCII literal as a Python [str]. *)
Definition py (s : string) : str :=
  map (fun a => Z.of_nat (nat_of_ascii a)) (list_ascii_of_string s).

Definition str_eqb (a b : str) : bool := bool_decide (a = b).

(** [s.startswith(p)] *)
Fixpoint startswith (s p : str) {struct p} : bool :=
  match p, s with
  | [], _ => true
  | c :: p', d :: s' => (c =? d) && startswith s' p'
  | _ :: _, [] => false
  end.

(** [s.endswith(p)] *)
Definition endswith (s p : str) : bool := startswith (rev s) (rev p).

(** [sep.join(parts)] *)
Fixpoint join (sep : str) (parts : list str) : str :=
  match parts with
  | [] => []
  | [p] => p
  | p :: ps => p ++ sep ++ join sep ps
  end.

(** [str.isspace] on one code point: the white space of the Unicode
    character database as CPython tabulates it. *)
Definition isspace (c : Z) : bool :=
  ((0x09 <=? c) && (c <=? 0x0D)) || ((0x1C <=? c) && (c <=? 0x20))
  || (c =? 0x85) || (c =? 0xA0) || (c =? 0x1680)
  || ((0x2000 <=? c) && (c <=? 0x200A))
  || (c =? 0x2028) || (c =? 0x2029) || (c =? 0x202F) || (c =? 0x205F)
  || (c =? 0x3000).

(** [s.lstrip], [s.rstrip] and [s.strip] for a class of characters. *)
Fixpoint lstrip (p : Z -> bool) (s : str) : str :=
  match s with
  | c :: s' => if p c then lstrip p s' else s
  | [] => []
  end.

Definition rstrip (p : Z -> bool) (s : str) : str := rev (lstrip p (rev s)).

Definition strip (p : Z -> bool) (s : str) : str := rstrip p (lstrip p s).

(** [s.lower()] restricted to the ASCII letters.  The extensions the
    program compares with are ASCII, and no character outside ASCII has a
    lower-case form among their letters. *)
Definition lower_char (c : Z) : Z :=
  if (0x41 <=? c) && (c <=? 0x5A) then c + 32 else c.

Definition lower (s : str) : str := map lower_char s.

(** [str(n)] for a natural number, most significant digit first. *)
Fixpoint digits_fuel (fuel : nat) (n : Z) (acc : str) : str :=
  match fuel with
  | O => acc
  | S f =>
      let acc' := (0x30 + n mod 10) :: acc in
      if n <? 10 then acc' else digits_fuel f (n / 10) acc'
  end.

Definition str_of_nat (n : nat) : str :=
  digits_fuel (S n) (Z.of_nat n) [].

(** The format [f"{n:0{width}d}"] for a natural number. *)
Definition format_0d (width : nat) (n : nat) : str :=
  let d := str_of_nat n in
  repeat 0x30 (width - length d) ++ d.

(** The number a string of decimal digits denotes. *)
Definition decimal_value (s : str) : Z :=
  fold_left (fun v c => 10 * v + (c - 0x30)) s 0.

(** A decimal numeral as [str] prints it: digits only, and no zero in
    front. *)
Definition canonical_decimal (s : str) : Prop :=
  Forall (fun c => 0x30 <= c <= 0x39) s /\
  (s = [0x30] \/ exists c s', s = c :: s' /\ c <> 0x30).

(** ** The UTF-8 codec ([bytes.decode("utf-8")], [encoding="utf-8"]) *)

Module Utf8.

Definition is_surrogate (c : Z) : bool := (0xD800 <=? c) && (c <=? 0xDFFF).

(** Unicode scalar values: what a strict encoder accepts. *)
Definition scalar (c : Z) : Prop :=
  0 <= c < 0xD800 \/ 0xE000 <= c <= 0x10FFFF.

Definition encode_char (c : Z) : option bytes :=
  if c <? 0 then None
  else if c <? 0x80 then Some [c]
  else if c <? 0x800 then Some [0xC0 + c / 64; 0x80 + c mod 64]
  else if c <? 0x10000 then
    if is_surrogate c then None
    else Some [0xE0 + c / 4096; 0x80 + (c / 64) mod 64; 0x80 + c mod 64]
  else if c <=? 0x10FFFF then
    Some [0xF0 + c / 262144; 0x80 + (c / 4096) mod 64;
          0x80 + (c / 64) mod 64; 0x80 + c mod 64]
  else None.

(** [text.encode("utf-8")]: [None] is [UnicodeEncodeError]. *)
Fixpoint encode (t : str) : option bytes :=
  match t with
  | [] => Some []
  | c :: t' =>
      match encode_char c, encode t' with
      | Some b, Some bs => Some (b ++ bs)
      | _, _ => None
      end
  end.

Definition is_cont (b : Z) : bool := (0x80 <=? b) && (b <=? 0xBF).

(** [data.decode("utf-8")]: [None] is [UnicodeDecodeError].  Overlong
    forms, surrogates and values above U+10FFFF are refused. *)
Fixpoint decode (bs : bytes) : option str :=
  match bs with
  | [] => Some []
  | b0 :: r0 =>
      if (0 <=? b0) && (b0 <? 0x80) then cons b0 <$> decode r0
      else if (0xC2 <=? b0) && (b0 <=? 0xDF) then
        match r0 with
        | b1 :: r1 =>
            if is_cont b1
            then cons ((b0 - 0xC0) * 64 + (b1 - 0x80)) <$> decode r1
            else None
        | _ => None
        end
      else if (0xE0 <=? b0) && (b0 <=? 0xEF) then
        match r0 with
        | b1 :: b2 :: r2 =>
            let c := (b0 - 0xE0) * 4096 + (b1 - 0x80) * 64 + (b2 - 0x80) in
            if is_cont b1 && is_cont b2 && (0x800 <=? c)
               && negb (is_surrogate c)
            then cons c <$> decode r2
            else None
        | _ => None
        end
      else if (0xF0 <=? b0) && (b0 <=? 0xF4) then
        match r0 with
        | b1 :: b2 :: b3 :: r3 =>
            let c := (b0 - 0xF0) * 262144 + (b1 - 0x80) * 4096
                     + (b2 - 0x80) * 64 + (b3 - 0x80) in
            if is_cont b1 && is_cont b2 && is_cont b3
               && (0x10000 <=? c) && (c <=? 0x10FFFF)
            then cons c <$> decode r3
            else None
        | _ => None
        end
      else None
  end.

Definition BOM : bytes := [0xEF; 0xBB; 0xBF].

End Utf8.

(** ** Exceptions and results *)

Inductive errno := ENOENT | ENOTDIR | EEXIST | EISDIR.

(** The exceptions the two programs can meet.  [OSError ENOENT] is
    [FileNotFoundError], [OSError EEXIST] is [FileExistsError], and so
    on; all of them are caught by [except Exception]. *)
Inductive exn :=
  | OSError (e : errno)
  | ValueError (msg : string)
  | UnicodeEncodeError
  | BadZipFile
  | RequestException.

Inductive result (A : Type) :=
  | Ok (a : A)
  | Raise (e : exn).
Arguments Ok {A} a.
Arguments Raise {A} e.

(** ** Pure paths ([pathlib.PurePosixPath]) *)

Module PurePath.

Definition SLASH : Z := 0x2F.
Definition DOT : Z := 0x2E.
Definition DOTDOT : str := [DOT; DOT].

(** A parsed path: its anchor and its components. *)
Record path := Path { absolute : bool; parts : list str }.

(** [s.split("/")] *)
Fixpoint split_slash (s : str) : list str :=
  match s with
  | [] => [[]]
  | c :: s' =>
      if c =? SLASH then [] :: split_slash s'
      else match split_slash s' with
           | w :: ws => (c :: w) :: ws
           | [] => [[c]]
           end
  end.

Definition keep_part (w : str) : bool :=
  negb (str_eqb w []) && negb (str_eqb w [DOT]).

(** [PurePosixPath(s)]: empty components and [.] are dropped, [..] is
    kept. *)
Definition parse (s : str) : path :=
  Path (startswith s [SLASH]) (filter (fun w => keep_part w = true) (split_slash s)).

(** [p / s]: an absolute right operand replaces the left one. *)
Definition joinpath (p : path) (s : str) : path :=
  let q := parse s in
  if absolute q then q else Path (absolute p) (parts p ++ parts q).

(** [p.parent] *)
Definition parent (p : path) : path :=
  Path (absolute p) (removelast (parts p)).

(** [p.name] *)
Definition name (p : path) : str := List.last (parts p) [].

(** [s.rfind(c)], [-1] when [c] does not occur. *)
Fixpoint rfind_from (c : Z) (s : str) (i : Z) (found : Z) : Z :=
  match s with
  | [] => found
  | d :: s' => rfind_from c s' (i + 1) (if d =? c then i else found)
  end.

Definition rfind (c : Z) (s : str) : Z := rfind_from c s 0 (-1).

(** The suffix of a file name: from its last dot, unless that dot is
    the first or the last character. *)
Definition suffix_of_name (n : str) : str :=
  let i := rfind DOT n in
  if (0 <? i) && (i <? Z.of_nat (length n) - 1) then drop (Z.to_nat i) n else [].

(** [p.suffix] *)
Definition suffix (p : path) : str := suffix_of_name (name p).

(** [p.stem] *)
Definition stem_of_name (n : str) : str :=
  let i := rfind DOT n in
  if (0 <? i) && (i <? Z.of_nat (length n) - 1) then take (Z.to_nat i) n else n.

Definition stem (p : path) : str := stem_of_name (name p).

(** [p.with_suffix(sfx)] *)
Definition with_suffix (p : path) (sfx : str) : result path :=
  if existsb (Z.eqb SLASH) sfx then Raise (ValueError "Invalid suffix")
  else if (negb (str_eqb sfx []) && negb (startswith sfx [DOT])) || str_eqb sfx [DOT]
  then Raise (ValueError "Invalid suffix")
  else
    let n := name p in
    if str_eqb n [] then Raise (ValueError "has an empty name")
    else
      let old := suffix p in
      let n' := if str_eqb old [] then n ++ sfx
                else take (length n - length old) n ++ sfx in
      Ok (Path (absolute p) (removelast (parts p) ++ [n'])).

(** [p.relative_to(base)]: a comparison of the anchors and of the
    components, not of the files; [ValueError] unless those of [base]
    begin those of [p]. *)
Definition relative_to (p base : path) : result path :=
  if bool_decide (absolute p = absolute base)
     && bool_decide (take (length (parts base)) (parts p) = parts base)
  then Ok (Path false (drop (length (parts base)) (parts p)))
  else Raise (ValueError "is not in the subpath").

(** Components as [parse] produces them. *)
Definition wf_part (w : str) : Prop := SLASH ∉ w.
Definition wf_parts (ws : list str) : Prop := Forall wf_part ws.

End PurePath.

(** ** The file system *)

Module FS.
Import PurePath.

Inductive node :=
  | Dir
  | File (data : bytes).

(** A canonical absolute location: the components below the root. *)
Abbreviation loc := (list str) (only parsing).

Abbreviation fs := (gmap (list str) node) (only parsing).

(** The root is a directory of every file system. *)
Definition node_at (s : fs) (l : loc) : option node :=
  match l with
  | [] => Some Dir
  | _ => s !! l
  end.

Definition step (cur : loc) (c : str) : loc :=
  if str_eqb c DOTDOT then removelast cur else cur ++ [c].

(** Path lookup as the kernel does it: every component is looked up in
    a directory that exists; the last one may be missing. *)
Fixpoint walk (s : fs) (cur : loc) (comps : list str) : result loc :=
  match comps with
  | [] => Ok cur
  | c :: rest =>
      match node_at s cur with
      | Some Dir => walk s (step cur c) rest
      | Some (File _) => Raise (OSError ENOTDIR)
      | None => Raise (OSError ENOENT)
      end
  end.

Definition start (cwd : loc) (p : path) : loc :=
  if absolute p then [] else cwd.

Definition locate (s : fs) (cwd : loc) (p : path) : result loc :=
  match node_at s (start cwd p) with
  | Some Dir => walk s (start cwd p) (parts p)
  | Some (File _) => Raise (OSError ENOTDIR)
  | None => Raise (OSError ENOENT)
  end.

(** [os.path.realpath(p)], not strict, without symbolic links: the
    lexical normal form below the working directory. *)
Definition normalize (cur : loc) (comps : list str) : loc :=
  fold_left step comps cur.

Definition resolve (cwd : loc) (p : path) : loc :=
  normalize (start cwd p) (parts p).

(** [str] of a resolved path. *)
Definition str_of_loc (l : loc) : str := SLASH :: join [SLASH] l.

(** [os.stat(p)] *)
Definition stat (s : fs) (cwd : loc) (p : path) : result node :=
  match locate s cwd p with
  | Ok l => match node_at s l with
            | Some n => Ok n
            | None => Raise (OSError ENOENT)
            end
  | Raise e => Raise e
  end.

(** [p.exists()], [p.is_dir()], [p.is_file()] *)
Definition exists_ (s : fs) (cwd : loc) (p : path) : bool :=
  match stat s cwd p with Ok _ => true | Raise _ => false end.

Definition is_dir (s : fs) (cwd : loc) (p : path) : bool :=
  match stat s cwd p with Ok Dir => true | _ => false end.

Definition is_file (s : fs) (cwd : loc) (p : path) : bool :=
  match stat s cwd p with Ok (File _) => true | _ => false end.

(** [os.mkdir(p)] *)
Definition os_mkdir (s : fs) (cwd : loc) (p : path) : result fs :=
  match locate s cwd p with
  | Ok l => match node_at s l with
            | Some _ => Raise (OSError EEXIST)
            | None => Ok (<[l := Dir]> s)
            end
  | Raise e => Raise e
  end.

(** [p.mkdir(parents=False, exist_ok=True)] *)
Definition mkdir_exist_ok (s : fs) (cwd : loc) (p : path) : result unit * fs :=
  match os_mkdir s cwd p with
  | Ok s' => (Ok tt, s')
  | Raise (OSError ENOENT) => (Raise (OSError ENOENT), s)
  | Raise e => if is_dir s cwd p then (Ok tt, s) else (Raise e, s)
  end.

(** [p.mkdir(parents=True, exist_ok=True)], by recursion on the
    components of [p] in reverse: on [FileNotFoundError] the parent is
    made first and the directory itself after it. *)
Fixpoint mkdir_parents_rev (s : fs) (cwd : loc) (ab : bool) (rparts : list str)
  : result unit * fs :=
  let p := Path ab (rev rparts) in
  match os_mkdir s cwd p with
  | Ok s' => (Ok tt, s')
  | Raise (OSError ENOENT) =>
      match rparts with
      | [] => (Raise (OSError ENOENT), s)
      | _ :: rp =>
          match mkdir_parents_rev s cwd ab rp with
          | (Ok _, s1) => mkdir_exist_ok s1 cwd p
          | (Raise e, s1) => (Raise e, s1)
          end
      end
  | Raise e => if is_dir s cwd p then (Ok tt, s) else (Raise e, s)
  end.

Definition mkdir_parents (s : fs) (cwd : loc) (p : path) : result unit * fs :=
  mkdir_parents_rev s cwd (absolute p) (rev (parts p)).

(** [open(p, "wb")] and [open(p, "w")]: the file is created or
    truncated; the location written to is returned. *)
Definition open_w (s : fs) (cwd : loc) (p : path) : result loc * fs :=
  match locate s cwd p with
  | Ok l => match node_at s l with
            | Some Dir => (Raise (OSError EISDIR), s)
            | _ => (Ok l, <[l := File []]> s)
            end
  | Raise e => (Raise e, s)
  end.

(** [f.write(chunk)] on a file opened at [l]. *)
Definition append (s : fs) (l : loc) (chunk : bytes) : fs :=
  match s !! l with
  | Some (File d) => <[l := File (d ++ chunk)]> s
  | _ => s
  end.

(** [p.read_bytes()] *)
Definition read_bytes (s : fs) (cwd : loc) (p : path) : result bytes :=
  match stat s cwd p with
  | Ok (File d) => Ok d
  | Ok Dir => Raise (OSError EISDIR)
  | Raise e => Raise e
  end.

(** [os.replace(src, dst)] for a regular file [src]: one atomic step. *)
Definition replace_file (s : fs) (cwd : loc) (src dst : path) : result unit * fs :=
  match locate s cwd src, locate s cwd dst with
  | Ok ls, Ok ld =>
      match node_at s ls, node_at s ld with
      | Some (File d), Some Dir => (Raise (OSError EISDIR), s)
      | Some (File d), _ => (Ok tt, <[ld := File d]> (delete ls s))
      | Some Dir, Some (File _) => (Raise (OSError ENOTDIR), s)
      | Some Dir, Some Dir => (Raise (OSError EEXIST), s)
      | Some Dir, None => (Raise (OSError ENOENT), s)
      | None, _ => (Raise (OSError ENOENT), s)
      end
  | Raise e, _ => (Raise e, s)
  | _, Raise e => (Raise e, s)
  end.

(** [st_size] of a node; the size a directory reports depends on the
    file system and is a parameter. *)
Definition st_size (dir_size : Z) (n : node) : Z :=
  match n with
  | Dir => dir_size
  | File d => Z.of_nat (length d)
  end.

(** The regular file at a location, if there is one. *)
Definition file_at (s : fs) (l : loc) : option bytes :=
  match s !! l with
  | Some (File d) => Some d
  | _ => None
  end.

(** [l] lies in the directory [base] or is [base] itself. *)
Definition within (base l : loc) : Prop := base `prefix_of` l.

(** Every directory of [s] is a directory of [s']. *)
Definition dirs_kept (s s' : gmap (list str) node) : Prop :=
  forall l, node_at s l = Some Dir -> node_at s' l = Some Dir.

(** [s'] is [s] with directories added where there was nothing. *)
Definition dirs_added (s s' : gmap (list str) node) : Prop :=
  forall l, s' !! l = s !! l \/ (node_at s l = None /\ s' !! l = Some Dir).

(** No regular file outside the directory [base] is created, removed
    or changed from [s] to [s']. *)
Definition files_outside_kept (base : list str) (s s' : gmap (list str) node) : Prop :=
  forall q, ~ within base q -> file_at s' q = file_at s q.

End FS.

(** ** [aozora_unzip_utf8.py] *)

Module Unzip.
Import PurePath FS.

Inductive encoding := cp932 | shift_jis | shift_jisx0213 | shift_jis_2004.

#[global] Instance encoding_eq_dec : EqDecision encoding.
Proof. solve_decision. Defined.

Definition TEXT_EXTS : list str :=
  Eval cbv in [py ".txt"; py ".htm"; py ".html"].

Definition ENCODING_CANDIDATES : list encoding :=
  [cp932; shift_jis; shift_jisx0213; shift_jis_2004].

Definition UNDERSCORE : Z := 0x5F.

(** The character class of the pattern: backslash, slash, colon,
    asterisk, question mark, double quote, angle brackets, bar. *)
Definition is_reserved (c : Z) : bool :=
  (c =? 0x5C) || (c =? 0x2F) || (c =? 0x3A) || (c =? 0x2A) || (c =? 0x3F)
  || (c =? 0x22) || (c =? 0x3C) || (c =? 0x3E) || (c =? 0x7C).

(** [re.sub] of one or more characters of the class by an underscore,
    scanning from the left: [in_run] holds while the scan is inside a
    match, whose first character has already produced the underscore. *)
Fixpoint sub_reserved (in_run : bool) (name : str) : str :=
  match name with
  | [] => []
  | c :: rest =>
      if is_reserved c then
        if in_run then sub_reserved true rest
        else UNDERSCORE :: sub_reserved true rest
      else c :: sub_reserved false rest
  end.

Definition is_dot (c : Z) : bool := c =? DOT.

Definition FALLBACK_NAME : str := Eval cbv in py "zip".

Definition safe_folder_name (name : str) : str :=
  let name := sub_reserved false name in
  let name := strip is_dot (strip isspace name) in
  match name with
  | [] => FALLBACK_NAME
  | _ => name
  end.

(** The sanitized stem as the specification words it: every character
    of the class becomes an underscore, then white space and dots are
    stripped together from both ends, and an empty result gives the
    placeholder. *)
Definition safe_folder_name_as_stated (name : str) : str :=
  let name := map (fun c => if is_reserved c then UNDERSCORE else c) name in
  let name := strip (fun c => isspace c || is_dot c) name in
  match name with
  | [] => FALLBACK_NAME
  | _ => name
  end.

(** [t] is [s] with every maximal run of characters of the class
    replaced by one underscore. *)
Inductive collapsed : str -> str -> Prop :=
  | collapsed_nil : collapsed [] []
  | collapsed_keep c s t :
      is_reserved c = false -> collapsed s t -> collapsed (c :: s) (c :: t)
  | collapsed_run run s t :
      run <> [] -> Forall (fun c => is_reserved c = true) run ->
      (forall c, head s = Some c -> is_reserved c = false) ->
      collapsed s t -> collapsed (run ++ s) (UNDERSCORE :: t).

(** [s] neither starts nor ends with a character of the class [p]. *)
Definition trimmed (p : Z -> bool) (s : str) : Prop :=
  (forall c, head s = Some c -> p c = false) /\
  (forall c, last s = Some c -> p c = false).

Definition is_probably_binary (data : bytes) : bool :=
  existsb (Z.eqb 0) data.

(** [base.resolve()], [target.resolve()] and the comparison of their
    strings. *)
Definition ensure_within_dir (cwd : loc) (base target : path) : result path :=
  let base_resolved := resolve cwd base in
  let target_resolved := resolve cwd target in
  if negb (startswith (str_of_loc target_resolved)
             (str_of_loc base_resolved ++ [SLASH]))
     && negb (bool_decide (target_resolved = base_resolved))
  then Raise (ValueError "Unsafe path detected (Zip Slip)")
  else Ok target.

(** A member of an open archive: its name, whether [zipf.open] accepts
    it, the bytes that can be read from it, and whether reading them
    ends in an error (a bad checksum, say). *)
Record member := Member {
  filename : str;
  opens : bool;
  payload : bytes;
  read_fails : bool
}.

(** [ZipInfo.is_dir] *)
Definition member_is_dir (m : member) : bool := endswith (filename m) [SLASH].

(** What the program prints.  The path of the last two lines is the
    extracted path relative to the destination directory. *)
Inductive event :=
  | Banner (zip_name : str) (dest_dir : path)
  | ExtractError (filename : str) (e : exn)
  | ConvertError (p : path) (e : exn)
  | Converted (p : path) (used : encoding).

(** The file has one of the extensions of [TEXT_EXTS]. *)
Definition recognized (p : path) : Prop := lower (suffix p) ∈ TEXT_EXTS.

(** Every line ending of [bs] is a bare line feed: [bs] holds no
    carriage return. *)
Definition lf_line_endings (bs : bytes) : Prop := 0x0D ∉ bs.

Section WithCodecs.

(** [data.decode(enc)] for the four candidates: [None] is
    [UnicodeDecodeError]. *)
Variable codec : encoding -> bytes -> option str.

(** The working directory of the process. *)
Variable cwd : loc.

Fixpoint try_candidates (cands : list encoding) (data : bytes)
  : option str * option encoding :=
  match cands with
  | [] => (None, None)
  | enc :: rest =>
      match codec enc data with
      | Some text => (Some text, Some enc)
      | None => try_candidates rest data
      end
  end.

Definition decode_shift_jis_family (data : bytes)
  : option str * option encoding :=
  if is_probably_binary data then (None, None)
  else try_candidates ENCODING_CANDIDATES data.

Definition extract_member (m : member) (dest_dir : path) (s : fs)
  : result path * fs :=
  if member_is_dir m then
    let out_path := joinpath dest_dir (filename m) in
    match ensure_within_dir cwd dest_dir out_path with
    | Raise e => (Raise e, s)
    | Ok out_path =>
        match mkdir_parents s cwd out_path with
        | (Raise e, s1) => (Raise e, s1)
        | (Ok _, s1) => (Ok out_path, s1)
        end
    end
  else
    let out_path := joinpath dest_dir (filename m) in
    match ensure_within_dir cwd dest_dir out_path with
    | Raise e => (Raise e, s)
    | Ok out_path =>
        match mkdir_parents s cwd (parent out_path) with
        | (Raise e, s1) => (Raise e, s1)
        | (Ok _, s1) =>
            if negb (opens m) then (Raise BadZipFile, s1)
            else
              match open_w s1 cwd out_path with
              | (Raise e, s2) => (Raise e, s2)
              | (Ok l, s2) =>
                  let s3 := append s2 l (payload m) in
                  if read_fails m then (Raise BadZipFile, s3)
                  else (Ok out_path, s3)
              end
        end
    end.

(** [path.write_text(text, encoding="utf-8", newline="\n")]: the file
    is opened (and truncated) before the text is encoded; with
    [newline="\n"] the text is written as it is. *)
Definition write_text (p : path) (text : str) (s : fs) : result unit * fs :=
  match open_w s cwd p with
  | (Raise e, s1) => (Raise e, s1)
  | (Ok l, s1) =>
      match Utf8.encode text with
      | None => (Raise UnicodeEncodeError, s1)
      | Some bs => (Ok tt, append s1 l bs)
      end
  end.

Definition convert_text_file_in_place (p : path) (s : fs)
  : result (option encoding) * fs :=
  let ext := lower (suffix p) in
  if negb (bool_decide (ext ∈ TEXT_EXTS)) then (Ok None, s)
  else
    match read_bytes s cwd p with
    | Raise e => (Raise e, s)
    | Ok data =>
        match Utf8.decode data with
        | Some _ => (Ok None, s)
        | None =>
            match decode_shift_jis_family data with
            | (Some text, Some enc) =>
                match write_text p text s with
                | (Raise e, s1) => (Raise e, s1)
                | (Ok _, s1) => (Ok (Some enc), s1)
                end
            | _ => (Ok None, s)
            end
        end
    end.

(** The loop of [process_zip] over the members: what it prints,
    whether it comes to its end or is left by an exception, and the
    file system then.  The errors of the extraction and of the
    conversion are caught; the relative path of the two lines about a
    conversion is computed outside of that, so its [ValueError] leaves
    the loop. *)
Fixpoint process_members (members : list member) (dest_dir : path) (s : fs)
  : (list event * result unit) * fs :=
  match members with
  | [] => (([], Ok tt), s)
  | m :: rest =>
      match extract_member m dest_dir s with
      | (Raise e, s1) =>
          let '((log, r), s') := process_members rest dest_dir s1 in
          ((ExtractError (filename m) e :: log, r), s')
      | (Ok extracted_path, s1) =>
          if is_file s1 cwd extracted_path then
            match convert_text_file_in_place extracted_path s1 with
            | (Raise e, s2) =>
                match relative_to extracted_path dest_dir with
                | Raise e' => (([], Raise e'), s2)
                | Ok rel =>
                    let '((log, r), s') := process_members rest dest_dir s2 in
                    ((ConvertError rel e :: log, r), s')
                end
            | (Ok (Some used), s2) =>
                match relative_to extracted_path dest_dir with
                | Raise e' => (([], Raise e'), s2)
                | Ok rel =>
                    let '((log, r), s') := process_members rest dest_dir s2 in
                    ((Converted rel used :: log, r), s')
                end
            | (Ok None, s2) => process_members rest dest_dir s2
            end
          else process_members rest dest_dir s1
      end
  end.

(** [archive] is what [zipfile.ZipFile(zip_path)] and [infolist]
    give.  The result is what was printed, and whether the function
    returned or raised. *)
Definition process_zip (zip_path : path) (archive : result (list member))
    (out_root : path) (s : fs) : (list event * result unit) * fs :=
  let zip_stem := safe_folder_name (stem zip_path) in
  let dest_dir := joinpath out_root zip_stem in
  match mkdir_parents s cwd dest_dir with
  | (Raise e, s1) => (([], Raise e), s1)
  | (Ok _, s1) =>
      let banner := Banner (name zip_path) dest_dir in
      match archive with
      | Raise e => (([banner], Raise e), s1)
      | Ok members =>
          let '((log, r), s2) := process_members members dest_dir s1 in
          ((banner :: log, r), s2)
      end
  end.

(** [enc] is the first candidate that decodes [data], to [text]. *)
Definition first_candidate (data : bytes) (enc : encoding) (text : str) : Prop :=
  exists pre post,
    ENCODING_CANDIDATES = pre ++ enc :: post /\
    Forall (fun e => codec e data = None) pre /\
    codec enc data = Some text.

(** The four ways [convert_text_file_in_place] can end. *)
Inductive outcome (p : path) (s : gmap (list str) node)
  : result (option encoding) -> gmap (list str) node -> Prop :=
  | Untouched :
      ~ recognized p \/
      (exists data, read_bytes s cwd p = Ok data /\
         (is_Some (Utf8.decode data) \/ decode_shift_jis_family data = (None, None))) ->
      outcome p s (Ok None) s
  | Unreadable e :
      recognized p -> read_bytes s cwd p = Raise e ->
      outcome p s (Raise e) s
  | Rewritten data text enc bs :
      recognized p -> read_bytes s cwd p = Ok data ->
      Utf8.decode data = None ->
      decode_shift_jis_family data = (Some text, Some enc) ->
      Utf8.encode text = Some bs ->
      outcome p s (Ok (Some enc)) (<[resolve cwd p := File bs]> s)
  | Truncated data text enc :
      recognized p -> read_bytes s cwd p = Ok data ->
      Utf8.decode data = None ->
      decode_shift_jis_family data = (Some text, Some enc) ->
      Utf8.encode text = None ->
      outcome p s (Raise UnicodeEncodeError) (<[resolve cwd p := File []]> s).

End WithCodecs.

(** A sample codec for examples: the single-byte part that the four
    candidates share on the bytes used here (ASCII, and the half-width
    katakana of JIS X 0201 at [0xA1]-[0xDF]); a lead byte of a
    double-byte character is refused, the tables not being part of
    this development. *)
Definition jisx0201_char (b : Z) : option Z :=
  if (0 <=? b) && (b <? 0x80) then Some b
  else if (0xA1 <=? b) && (b <=? 0xDF) then Some (0xFF61 + (b - 0xA1))
  else None.

Definition jisx0201 (_ : encoding) (data : bytes) : option str :=
  mapM jisx0201_char data.

(** A sample file and a sample archive. *)
Definition sample_txt : path := Eval cbv in parse (py "a.txt").

Definition sample_fs (data : bytes) : gmap (list str) node :=
  {[ [py "a.txt"] := File data ]}.

Definition home : list str := Eval cbv in [py "home"].

Definition home_fs : gmap (list str) node := {[ home := Dir ]}.

Definition sample_archive : list member :=
  Eval cbv in
    [Member (py "../../evil.txt") true [0x41] false;
     Member (py "sub/ok.txt") true [0xB1; 0x0D; 0x0A] false].

End Unzip.

(** ** [download_aozora_zip.py] *)

Module Download.
Import PurePath FS.

Definition OUTPUT_DIR : str := Eval cbv in py "aozora_zips_Rosanjin".
Definition ZIP_EXT : str := Eval cbv in py ".zip".
Definition PART_EXT : str := Eval cbv in py ".part".

(** The deduplication loop of [main]: [seen_zip] is the set of URLs
    met so far, the result is [unique_zips]. *)
Fixpoint dedup_from (seen_zip : gset (list Z)) (all_zips : list (str * str))
  : list (str * str) :=
  match all_zips with
  | [] => []
  | (title, z) :: rest =>
      if bool_decide (z ∈ seen_zip) then dedup_from seen_zip rest
      else (title, z) :: dedup_from ({[z]} ∪ seen_zip) rest
  end.

Definition unique_zips (all_zips : list (str * str)) : list (str * str) :=
  dedup_from ∅ all_zips.

(** [max(6, len(str(len(unique_zips))))] *)
Definition width (total : nat) : nat := Nat.max 6 (length (str_of_nat total)).

(** [f"{file_id:0{width}d}.zip"] *)
Definition out_name (file_id : nat) (width : nat) : str :=
  format_0d width file_id ++ ZIP_EXT.

(** [enumerate(unique_zips, start=1)] with the name of each file. *)
Fixpoint name_from (file_id : nat) (w : nat) (zips : list (str * str))
  : list (str * str) :=
  match zips with
  | [] => []
  | (_, zip_url) :: rest => (out_name file_id w, zip_url) :: name_from (S file_id) w rest
  end.

(** The files [main] downloads, in order: name and URL. *)
Definition download_plan (all_zips : list (str * str)) : list (str * str) :=
  let u := unique_zips all_zips in
  name_from 1 (width (length u)) u.

(** A streamed HTTP response: its status, the chunks [iter_content]
    yields, and whether the stream breaks off after them. *)
Record response := Response {
  status_ok : bool;
  chunks : list bytes;
  stream_fails : bool
}.

(** The process and its surroundings: the files, and the requests sent
    so far. *)
Record world := World {
  files : gmap (list str) node;
  requests : list str
}.

Inductive event :=
  | Skip (name : str)
  | Downloaded (name : str)
  | ErrorDownloading (url : str) (e : exn).

(** The world a run ends in: the last one it went through. *)
Definition final (w0 : world) (trace : list world) : world :=
  List.last trace w0.

(** The loop over the chunks: the worlds after each [f.write]. *)
Fixpoint write_chunks (l : loc) (cs : list bytes) (w : world) : list world :=
  match cs with
  | [] => []
  | chunk :: rest =>
      match chunk with
      | [] => write_chunks l rest w
      | _ =>
          let w' := World (append (files w) l chunk) (requests w) in
          w' :: write_chunks l rest w'
      end
  end.

Section WithNetwork.

(** [session.get(url, stream=True)], given the requests sent before. *)
Variable net : list str -> str -> result response.

Variable cwd : loc.

(** The size [stat] reports for a directory. *)
Variable dir_size : Z.

(** [download_file]: what it prints or raises, and the worlds the
    process goes through, one per effect ([mkdir] with its parents
    counts as one). *)
Definition download_file (url : str) (out_path : path) (w : world)
  : result event * list world :=
  match mkdir_parents (files w) cwd (parent out_path) with
  | (Raise e, s1) => (Raise e, [World s1 (requests w)])
  | (Ok _, s1) =>
      let w1 := World s1 (requests w) in
      if exists_ s1 cwd out_path
         && match stat s1 cwd out_path with
            | Ok n => 0 <? st_size dir_size n
            | Raise _ => false
            end
      then (Ok (Skip (name out_path)), [w1])
      else
        let w2 := World s1 (requests w ++ [url]) in
        match net (requests w) url with
        | Raise e => (Raise e, [w1; w2])
        | Ok r =>
            if negb (status_ok r) then (Raise RequestException, [w1; w2])
            else
              match with_suffix out_path (suffix out_path ++ PART_EXT) with
              | Raise e => (Raise e, [w1; w2])
              | Ok tmp_path =>
                  match open_w s1 cwd tmp_path with
                  | (Raise e, _) => (Raise e, [w1; w2])
                  | (Ok l, s3) =>
                      let w3 := World s3 (requests w2) in
                      let tr := write_chunks l (chunks r) w3 in
                      let w4 := final w3 tr in
                      if stream_fails r
                      then (Raise RequestException, [w1; w2; w3] ++ tr)
                      else
                        match replace_file (files w4) cwd tmp_path out_path with
                        | (Raise e, _) => (Raise e, [w1; w2; w3] ++ tr)
                        | (Ok _, s5) =>
                            (Ok (Downloaded (name out_path)),
                             [w1; w2; w3] ++ tr ++ [World s5 (requests w4)])
                        end
                  end
              end
        end
  end.

(** The download loop of [main] over the named files. *)
Fixpoint download_each (out_dir : path) (plan : list (str * str)) (w : world)
  : list event * world :=
  match plan with
  | [] => ([], w)
  | (out_name, zip_url) :: rest =>
      let out_path := joinpath out_dir out_name in
      let '(r, tr) := download_file zip_url out_path w in
      let '(log, w') := download_each out_dir rest (final w tr) in
      (match r with
       | Ok ev => ev
       | Raise e => ErrorDownloading zip_url e
       end :: log, w')
  end.

(** [main] from the collected links on. *)
Definition main_downloads (all_zips : list (str * str)) (w : world)
  : list event * world :=
  download_each (parse OUTPUT_DIR) (download_plan all_zips) w.

End WithNetwork.

(** A sample network and sample worlds. *)
Definition sample_net (_ : list str) (_ : str) : result response :=
  Ok (Response true [[0x50; 0x4B]; []; [0x03; 0x04]] false).

Definition sample_out : path :=
  Eval cbv in joinpath (parse OUTPUT_DIR) (py "000001.zip").

Definition empty_world : world := World {[ [py "home"] := Dir ]} [].

Definition full_world : world :=
  World {[ [py "home"] := Dir;
           [py "home"; OUTPUT_DIR] := Dir;
           [py "home"; OUTPUT_DIR; py "000001.zip"] := File [0x50; 0x4B] ]} [].

End Download.

(** ** Further vocabulary for the file system *)

Module FSMore.
Import PurePath FS.

(** From [s] to [s'] nothing is removed and nothing changes its kind: a
    directory stays a directory and a regular file stays a regular file,
    whatever its bytes. *)
Definition kinds_kept (s s' : gmap (list str) node) : Prop :=
  forall l,
    match s !! l with
    | Some Dir => s' !! l = Some Dir
    | Some (File _) => exists d, s' !! l = Some (File d)
    | None => True
    end.

(** The regular files of [s] and [s'] are the same but perhaps at the
    locations [keep]. *)
Definition files_kept_but (keep : list (list str)) (s s' : gmap (list str) node) : Prop :=
  forall q, q ∉ keep -> file_at s' q = file_at s q.

End FSMore.

(** ** Further vocabulary for the extractor *)

Module UnzipMore.
Import PurePath FS Unzip.

(** The destinations of the members of an archive. *)
Definition destinations (cwd : list str) (dest_dir : path) (members : list member)
  : list (list str) :=
  (fun m => resolve cwd (joinpath dest_dir (filename m))) <$> members.

End UnzipMore.

(** ** Further vocabulary for downloads *)

Module DownloadEndings.
Import PurePath FS Download.

Section WithNetwork.
Variable net : list str -> str -> result response.
Variable cwd : list str.

(** How a download can end: [NoRequest] before the request (the parent
    directory cannot be made, or the file is there), [NothingWritten]
    after the request and before the temporary file (no response, a bad
    status, no name to add the suffix to, or a directory at the
    temporary path), [PartLeft] with the temporary file written and
    left, [Renamed] with the body at the destination. *)
Inductive ending (url : str) (out_path : path) (w : world)
  : result event -> world -> Prop :=
  | NoRequest s1 r :
      dirs_added (files w) s1 ->
      (r = Ok (Skip (name out_path)) \/ exists e, r = Raise e) ->
      ending url out_path w r (World s1 (requests w))
  | NothingWritten s1 e :
      dirs_added (files w) s1 ->
      ((exists e', net (requests w) url = Raise e') \/
       (exists resp, net (requests w) url = Ok resp /\ status_ok resp = false) \/
       (exists e', with_suffix out_path (suffix out_path ++ PART_EXT) = Raise e') \/
       (exists tmp_path,
          with_suffix out_path (suffix out_path ++ PART_EXT) = Ok tmp_path /\
          node_at s1 (resolve cwd tmp_path) = Some Dir)) ->
      ending url out_path w (Raise e) (World s1 (requests w ++ [url]))
  | PartLeft s1 tmp_path resp e :
      dirs_added (files w) s1 ->
      with_suffix out_path (suffix out_path ++ PART_EXT) = Ok tmp_path ->
      net (requests w) url = Ok resp -> status_ok resp = true ->
      node_at s1 (resolve cwd tmp_path) <> Some Dir ->
      ending url out_path w (Raise e)
        (World (<[resolve cwd tmp_path := File (concat (chunks resp))]> s1)
           (requests w ++ [url]))
  | Renamed s1 tmp_path resp :
      dirs_added (files w) s1 ->
      with_suffix out_path (suffix out_path ++ PART_EXT) = Ok tmp_path ->
      net (requests w) url = Ok resp -> status_ok resp = true ->
      stream_fails resp = false ->
      ending url out_path w (Ok (Downloaded (name out_path)))
        (World (<[resolve cwd out_path := File (concat (chunks resp))]>
                  (delete (resolve cwd tmp_path) s1))
           (requests w ++ [url])).

End WithNetwork.

End DownloadEndings.

(** ** Further vocabulary for names *)

Module NamesMore.

(** An ASCII digit. *)
Definition is_digit (c : Z) : Prop := 0x30 <= c <= 0x39.

End NamesMore.

(** ** Further samples *)

Module Samples.
Import PurePath FS Download.

(** A network whose responses break off after the first chunk. *)
Definition broken_net (_ : list str) (_ : str) : result response :=
  Ok (Response true [[0x50; 0x4B]] true).

(** The output directory is there and empty. *)
Definition ready_world : world :=
  World {[ [py "home"] := Dir;
           [py "home"; OUTPUT_DIR] := Dir ]} [].

(** An empty file is in the place of the first download. *)
Definition stale_world : world :=
  World {[ [py "home"] := Dir;
           [py "home"; OUTPUT_DIR] := Dir;
           [py "home"; OUTPUT_DIR; py "000001.zip"] := File [] ]} [].

(** The temporary path of the first download. *)
Definition sample_part : path :=
  Eval cbv in joinpath (parse OUTPUT_DIR) (py "000001.zip.part").

End Samples.

(** ** [aozora_unzip_utf8.py]: the archives of the input directory *)

Module UnzipMain.
Import PurePath FS Unzip.

Definition IN_DIR : path := Eval cbv in parse (py "./aozora_zips_Rosanjin").
Definition OUT_DIR : path := Eval cbv in parse (py "./aozora_utf8_Rosanjin").

(** The tail of the pattern [*.zip]. *)
Definition ZIP_TAIL : str := Eval cbv in py ".zip".

(** The order of sequences: the first place where two sequences differ
    decides, and a proper prefix comes first. *)
Fixpoint lex_ltb {A} (ltb eqb : A -> A -> bool) (a b : list A) : bool :=
  match a, b with
  | _, [] => false
  | [], _ :: _ => true
  | x :: a', y :: b' => ltb x y || (eqb x y && lex_ltb ltb eqb a' b')
  end.

(** [a < b] on [str]: by code point. *)
Definition str_ltb (a b : str) : bool := lex_ltb Z.ltb Z.eqb a b.

(** [p < q] on paths of one anchor: by their components. *)
Definition path_ltb (p q : path) : bool := lex_ltb str_ltb str_eqb (parts p) (parts q).

(** [sorted(paths)]: a stable sort that compares with [<] only. *)
Fixpoint insert_path (p : path) (l : list path) : list path :=
  match l with
  | [] => [p]
  | q :: l' => if path_ltb q p then q :: insert_path p l' else p :: q :: l'
  end.

Definition sorted (l : list path) : list path := foldr insert_path [] l.

(** What is left of [k] below [l], when [k] lies below [l]. *)
Fixpoint below (l k : list str) : option (list str) :=
  match l, k with
  | [], _ => Some k
  | x :: l', y :: k' => if str_eqb x y then below l' k' else None
  | _ :: _, [] => None
  end.

Definition entry_name (l k : list str) : option str :=
  match below l k with
  | Some [n] => Some n
  | _ => None
  end.

(** [os.scandir(l)]: the names of the entries of the directory at [l],
    in the order the file system gives them. *)
Definition listdir (s : gmap (list str) node) (l : list str) : list str :=
  omap (entry_name l) (map_to_list s).*1.

(** [d.glob("*.zip")]: the entries of [d] whose names end in [.zip],
    directories too, hidden ones too; nothing when [d] is not a
    directory.  Names are matched as they are, upper case is not
    folded. *)
Definition glob_zip (s : gmap (list str) node) (cwd : list str) (d : path) : list path :=
  if is_dir s cwd d then
    match locate s cwd d with
    | Ok l =>
        (fun n => Path (absolute d) (parts d ++ [n]))
          <$> filter (fun n => endswith n ZIP_TAIL = true) (listdir s l)
    | Raise _ => []
    end
  else [].

(** What [main] prints.  [Processed] stands for the lines of one
    archive: those of [process_zip], then the line for the exception
    that left it, if one did ([BAD ZIP] for [BadZipFile], [ERROR] for
    any other). *)
Inductive report :=
  | InputNotFound (in_dir : list str)
  | NoZipFiles (in_dir : list str)
  | Header (in_dir out_dir : list str) (zips : nat)
  | Processed (zip_name : str) (printed : list event) (caught : option exn)
  | Finished.

Section WithArchives.

Variable codec : encoding -> bytes -> option str.
Variable cwd : list str.

(** The reading of an archive: the members its bytes hold, or the
    exception for bytes that are no archive. *)
Variable unzip : bytes -> result (list member).

(** [zipfile.ZipFile(zip_path, "r")] with [infolist]. *)
Definition ZipFile (s : gmap (list str) node) (zip_path : path) : result (list member) :=
  match read_bytes s cwd zip_path with
  | Ok data => unzip data
  | Raise e => Raise e
  end.

(** One turn of the loop of [main].  The archive is opened in the file
    system as [process_zip] has it after making the destination. *)
Definition process_one (zip_path : path) (s : gmap (list str) node)
  : report * gmap (list str) node :=
  let dest_dir := joinpath OUT_DIR (safe_folder_name (stem zip_path)) in
  let opened := ZipFile (mkdir_parents s cwd dest_dir).2 zip_path in
  let '((printed, r), s') := process_zip codec cwd zip_path opened OUT_DIR s in
  (Processed (name zip_path) printed
     match r with Ok _ => None | Raise e => Some e end, s').

Fixpoint process_all (zip_files : list path) (s : gmap (list str) node)
  : list report * gmap (list str) node :=
  match zip_files with
  | [] => ([], s)
  | zp :: rest =>
      let '(rep, s1) := process_one zp s in
      let '(reps, s') := process_all rest s1 in
      (rep :: reps, s')
  end.

(** [main]: what it prints, the exit code it returns or the exception
    it raises, and the file system it leaves. *)
Definition main (s : gmap (list str) node)
  : (list report * result Z) * gmap (list str) node :=
  if negb (exists_ s cwd IN_DIR)
  then (([InputNotFound (resolve cwd IN_DIR)], Ok 2), s)
  else
    match mkdir_parents s cwd OUT_DIR with
    | (Raise e, s1) => (([], Raise e), s1)
    | (Ok _, s1) =>
        let zip_files := sorted (glob_zip s1 cwd IN_DIR) in
        match zip_files with
        | [] => (([NoZipFiles (resolve cwd IN_DIR)], Ok 1), s1)
        | _ =>
            let '(reps, s2) := process_all zip_files s1 in
            (([Header (resolve cwd IN_DIR) (resolve cwd OUT_DIR) (length zip_files)]
                ++ reps ++ [Finished], Ok 0), s2)
        end
    end.

End WithArchives.

(** A sample input directory and a sample reading of archives. *)
Definition sample_input : gmap (list str) node :=
  {[ [py "home"] := Dir;
     [py "home"; py "aozora_zips_Rosanjin"] := Dir;
     [py "home"; py "aozora_zips_Rosanjin"; py "000002.zip"] := File [0x02];
     [py "home"; py "aozora_zips_Rosanjin"; py "000001.zip"] := File [0x01];
     [py "home"; py "aozora_zips_Rosanjin"; py "notes.ZIP"] := File [0x03];
     [py "home"; py "aozora_zips_Rosanjin"; py "000010.zip"] := Dir ]}.

Definition sample_unzip (data : bytes) : result (list member) :=
  match data with
  | [0x01] => Ok [Member (py "a.txt") true [0xB1] false]
  | _ => Raise BadZipFile
  end.

End UnzipMain.

(** ** [download_aozora_zip.py]: the collection of the links *)

Module Links.
Import PurePath FS Download.

Definition AUTHOR_PAGE_URL : str :=
  Eval cbv in py "https://www.aozora.gr.jp/index_pages/person1403.html".
Definition BASE_URL : str := Eval cbv in py "https://www.aozora.gr.jp/".

Definition CARD_HOST : str := Eval cbv in py "://www.aozora.gr.jp/cards/".
Definition CARD_FILE : str := Eval cbv in py "/card".
Definition CARD_EXT : str := Eval cbv in py ".html".
Definition HTTP : str := Eval cbv in py "http".

(** A literal of a pattern at the head of [s]: what follows it. *)
Definition literal (p s : str) : option str :=
  if startswith s p then Some (drop (length p) s) else None.

(** [$] without flags: the end of the string, or a line feed that ends
    it. *)
Definition at_end (s : str) : bool := str_eqb s [] || str_eqb s [0x0A].

Section WithDigits.

(** The class [\d] of a [str] pattern: the decimal digits of Unicode, a
    table of the Python runtime. *)
Variable is_decimal : Z -> bool.

(** [\d+] followed by the rest of the pattern, [k]: the longest run of
    digits is tried first, then the shorter ones. *)
Fixpoint digits_then (k : str -> bool) (s : str) : bool :=
  match s with
  | c :: s' => is_decimal c && (digits_then k s' || k s')
  | [] => false
  end.

(** The pattern from [://] on. *)
Definition after_scheme (s : str) : bool :=
  match literal CARD_HOST s with
  | None => false
  | Some s1 =>
      digits_then
        (fun s2 =>
           match literal CARD_FILE s2 with
           | None => false
           | Some s3 =>
               digits_then
                 (fun s4 =>
                    match literal CARD_EXT s4 with
                    | None => false
                    | Some s5 => at_end s5
                    end) s3
           end) s1
  end.

(** [card_re.match(href)], the pattern being
    [^https?://www\.aozora\.gr\.jp/cards/\d+/card\d+\.html$]. *)
Definition card_re_match (href : str) : bool :=
  match literal HTTP href with
  | None => false
  | Some s1 =>
      match literal [0x73] s1 with
      | Some s2 => after_scheme s2 || after_scheme s1
      | None => after_scheme s1
      end
  end.

(** The reading of a page that the parser accepts: for every [a]
    element that has an [href], in document order, the value of the
    attribute and the text of the element, stripped
    ([find_all("a", href=True)], [a["href"]],
    [a.get_text(strip=True)]). *)
Variable anchors : str -> list (str * str).

(** [urllib.parse.urljoin], where it returns. *)
Variable urljoin : str -> str -> str.

Definition absolute_url (base href : str) : str := urljoin base href.

(** The loop of [iter_card_links]: [seen] holds the links yielded so
    far. *)
Fixpoint card_links_from (seen : gset (list Z)) (tags : list (str * str))
  : list (str * str) :=
  match tags with
  | [] => []
  | (raw, text) :: rest =>
      let href := absolute_url BASE_URL raw in
      if card_re_match href && negb (bool_decide (href ∈ seen))
      then (text, href) :: card_links_from ({[href]} ∪ seen) rest
      else card_links_from seen rest
  end.

(** [list(iter_card_links(author_html))] when nothing raises: title
    and URL of the cards. *)
Definition iter_card_links (author_html : str) : list (str * str) :=
  card_links_from ∅ (anchors author_html).

(** The first loop of [extract_zip_links]: the test is on the
    attribute as written, the link kept is the absolute one. *)
Fixpoint zip_links (card_url : str) (tags : list (str * str)) : list str :=
  match tags with
  | [] => []
  | (href, _) :: rest =>
      if endswith (lower href) ZIP_EXT
      then absolute_url card_url href :: zip_links card_url rest
      else zip_links card_url rest
  end.

(** Its second loop. *)
Fixpoint dedup_urls (seen : gset (list Z)) (urls : list str) : list str :=
  match urls with
  | [] => []
  | u :: rest =>
      if bool_decide (u ∈ seen) then dedup_urls seen rest
      else u :: dedup_urls ({[u]} ∪ seen) rest
  end.

(** [extract_zip_links(card_html, card_url)] when nothing raises. *)
Definition extract_zip_links (card_html card_url : str) : list str :=
  dedup_urls ∅ (zip_links card_url (anchors card_html)).

(** The exception of the parser for a page it rejects
    ([BeautifulSoup(html, "html.parser")]). *)
Variable parse_error : str -> option exn.

(** The exception of [urljoin] where it raises: [ValueError] for a
    link it cannot split. *)
Variable join_error : str -> str -> option exn.

(** The first exception of [urljoin] over the links joined, in
    order. *)
Fixpoint first_join_error (base : str) (hrefs : list str) : option exn :=
  match hrefs with
  | [] => None
  | href :: rest =>
      match join_error base href with
      | Some e => Some e
      | None => first_join_error base rest
      end
  end.

(** [list(iter_card_links(author_html))] as [main] calls it, outside
    of any [try]: every anchor of the page is joined. *)
Definition try_iter_card_links (author_html : str) : result (list (str * str)) :=
  match parse_error author_html with
  | Some e => Raise e
  | None =>
      match first_join_error BASE_URL (anchors author_html).*1 with
      | Some e => Raise e
      | None => Ok (iter_card_links author_html)
      end
  end.

(** [extract_zip_links(card_html, card_url)] as [main] calls it,
    outside of any [try]: the anchors that pass the test are joined. *)
Definition try_extract_zip_links (card_html card_url : str) : result (list str) :=
  match parse_error card_html with
  | Some e => Raise e
  | None =>
      match first_join_error card_url
              (filter (fun href => endswith (lower href) ZIP_EXT = true)
                 (anchors card_html).*1) with
      | Some e => Raise e
      | None => Ok (extract_zip_links card_html card_url)
      end
  end.

(** [fetch_html(session, url)], given the requests sent before: the
    text of the page, or the exception of the request or of its
    status. *)
Variable fetch_html : list str -> str -> result str.

(** What [main] prints. *)
Inductive line :=
  | AuthorPage
  | FoundCards (cards : nat)
  | CardError (card_url : str) (e : exn)
  | CardDone (idx total : nat) (title : str) (zip_count : nat)
  | TotalUnique (zips : nat)
  | Outcome (ev : event)
  | Done.

(** The loop of [main] over the cards: the links collected or the
    exception that leaves the loop, the lines printed and the requests
    sent.  A request that fails is caught; the reading of a page that
    was fetched is not. *)
Fixpoint collect (idx total : nat) (card_links : list (str * str)) (reqs : list str)
  : (result (list (str * str)) * list line) * list str :=
  match card_links with
  | [] => ((Ok [], []), reqs)
  | (title, card_url) :: rest =>
      let reqs1 := reqs ++ [card_url] in
      match fetch_html reqs card_url with
      | Raise e =>
          let '((r, log), reqs') := collect (S idx) total rest reqs1 in
          ((r, CardError card_url e :: log), reqs')
      | Ok card_html =>
          match try_extract_zip_links card_html card_url with
          | Raise e => ((Raise e, []), reqs1)
          | Ok zip_urls =>
              let '((r, log), reqs') := collect (S idx) total rest reqs1 in
              ((match r with
                | Ok all_zips => Ok (((fun z => (title, z)) <$> zip_urls) ++ all_zips)
                | Raise e => Raise e
                end,
                CardDone idx total title (length zip_urls) :: log), reqs')
          end
      end
  end.

(** Of the cards [cards], met after the requests [reqs], every page
    that is fetched can be read for its links. *)
Definition links_read (reqs : list str) (cards : list (str * str)) : Prop :=
  forall before title card_url after card_html,
    cards = before ++ (title, card_url) :: after ->
    fetch_html (reqs ++ before.*2) card_url = Ok card_html ->
    exists zip_urls, try_extract_zip_links card_html card_url = Ok zip_urls.

Variable net : list str -> str -> result response.
Variable cwd : list str.
Variable dir_size : Z.

(** [main]: what it prints, what it returns or raises, and the world it
    leaves. *)
Definition main (w : world) : (list line * result Z) * world :=
  match mkdir_parents (files w) cwd (parse OUTPUT_DIR) with
  | (Raise e, s1) => (([], Raise e), World s1 (requests w))
  | (Ok _, s1) =>
      let reqs1 := requests w ++ [AUTHOR_PAGE_URL] in
      match fetch_html (requests w) AUTHOR_PAGE_URL with
      | Raise e => (([AuthorPage], Raise e), World s1 reqs1)
      | Ok author_html =>
          match try_iter_card_links author_html with
          | Raise e => (([AuthorPage], Raise e), World s1 reqs1)
          | Ok card_links =>
              let found := [AuthorPage; FoundCards (length card_links)] in
              match collect 1 (length card_links) card_links reqs1 with
              | ((Raise e, cards_log), reqs2) =>
                  ((found ++ cards_log, Raise e), World s1 reqs2)
              | ((Ok all_zips, cards_log), reqs2) =>
                  let '(log, w') :=
                    main_downloads net cwd dir_size all_zips (World s1 reqs2) in
                  ((found ++ cards_log
                      ++ [TotalUnique (length (unique_zips all_zips))]
                      ++ (Outcome <$> log) ++ [Done], Ok 0), w')
              end
          end
      end
  end.

End WithDigits.

(** Samples: the ASCII digits; an author page, a card page and a card
    page with a link that cannot be joined, given by their anchors; a
    join that keeps an absolute link and puts the base before any
    other, and that refuses a link with an open bracket for a host; and
    networks that serve these pages. *)
Definition ascii_digit (c : Z) : bool := (0x30 <=? c) && (c <=? 0x39).

Definition sample_card_url : str :=
  Eval cbv in py "https://www.aozora.gr.jp/cards/001403/card49960.html".

Definition sample_anchors (html : str) : list (str * str) :=
  if str_eqb html (py "author") then
    [(py "cards/001403/card49960.html", py "Tea");
     (py "index.html", py "Top");
     (sample_card_url, py "Tea again")]
  else if str_eqb html (py "card") then
    [(py "files/49960_ruby.zip", py "ruby");
     (py "files/49960.ZIP", py "plain");
     (py "files/49960_ruby.zip", py "ruby again");
     (py "files/49960.html", py "read")]
  else if str_eqb html (py "broken") then
    [(py "//[.zip", py "no host")]
  else [].

Definition sample_urljoin (base href : str) : str :=
  if startswith href HTTP then href else base ++ href.

Definition sample_fetch (_ : list str) (url : str) : result str :=
  if str_eqb url AUTHOR_PAGE_URL then Ok (py "author") else Ok (py "card").

Definition failing_fetch (_ : list str) (_ : str) : result str :=
  Raise RequestException.

Definition no_parse_error (_ : str) : option exn := None.

Definition sample_join_error (_ : str) (href : str) : option exn :=
  if startswith href (py "//[") then Some (ValueError "Invalid IPv6 URL") else None.

(** A network whose card pages hold the link that cannot be joined. *)
Definition broken_fetch (_ : list str) (url : str) : result str :=
  if str_eqb url AUTHOR_PAGE_URL then Ok (py "author") else Ok (py "broken").

End Links.

(* ================================================================== *)
(** * Properties *)

Module Utf8Facts.
Import Utf8.

Local Ltac Zify.zify_post_hook ::= Z.to_euclidean_division_equations.

Lemma encode_char_Some c b :
  encode_char c = Some b -> scalar c.
Proof.
  unfold encode_char, is_surrogate, scalar.
  repeat (case_match; try discriminate); intros _; lia.
Qed.

Lemma encode_char_scalar c :
  scalar c -> is_Some (encode_char c).
Proof.
  unfold encode_char, is_surrogate, scalar. intros H.
  repeat (case_match; try (eexists; reflexivity)); lia.
Qed.

(** Settles the guards of a conditional by linear arithmetic. *)
Ltac settle_guards :=
  repeat match goal with
    | |- context [if ?b then _ else _] =>
        first [ replace b with true by lia | replace b with false by lia ]
    end.

Lemma decode_encode_char c b rest :
  encode_char c = Some b ->
  decode (b ++ rest) = cons c <$> decode rest.
Proof.
  unfold encode_char, is_surrogate.
  repeat (case_match; try discriminate); intros [= <-];
    cbn [app decode]; unfold is_cont, is_surrogate; cbv zeta;
    settle_guards; do 2 f_equal; lia.
Qed.

Lemma decode_encode t : forall bs,
  encode t = Some bs -> decode bs = Some t.
Proof.
  induction t as [|c t IH]; intros bs; cbn [encode].
  - intros [= <-]. reflexivity.
  - destruct (encode_char c) as [b|] eqn:Hc; [|discriminate].
    destruct (encode t) as [bs'|]; [|discriminate].
    intros [= <-]. rewrite (decode_encode_char _ _ _ Hc), (IH bs' eq_refl).
    reflexivity.
Qed.

Lemma encode_is_Some t : is_Some (encode t) <-> Forall scalar t.
Proof.
  induction t as [|c t IH]; cbn [encode].
  - split; [constructor | eauto].
  - split.
    + destruct (encode_char c) as [b|] eqn:Hc; [|intros [? [=]]].
      destruct (encode t) as [bs'|]; [|intros [? [=]]].
      intros _. constructor; [eapply encode_char_Some; eauto | apply IH; eauto].
    + intros H. inversion H as [|? ? Hc Ht]; subst.
      destruct (encode_char_scalar c Hc) as [b ->].
      apply IH in Ht as [bs' ->]. eauto.
Qed.

(** The encoder puts nothing in front of the text: the output starts
    with the three bytes of a byte-order mark only when the text itself
    starts with U+FEFF. *)
Lemma encode_no_bom t bs :
  encode t = Some (BOM ++ bs) -> exists t', t = 0xFEFF :: t'.
Proof.
  destruct t as [|c t]; cbn [encode]; [discriminate|].
  destruct (encode_char c) as [b|] eqn:Hc; [|discriminate].
  destruct (encode t) as [bs'|]; [|discriminate].
  intros [= H]. exists t. f_equal.
  revert Hc H. unfold encode_char, is_surrogate, BOM.
  repeat (case_match; try discriminate); intros [= <-]; cbn [app];
    intros [= ? ?]; lia.
Qed.

Local Ltac Zify.zify_post_hook ::= idtac.

End Utf8Facts.

(** ** The file system: lookups are stable under writes *)

Module FSFacts.
Import PurePath FS.

Lemma walk_normalize (s : gmap (list str) node) cur comps l :
  walk s cur comps = Ok l -> l = normalize cur comps.
Proof.
  revert cur. induction comps as [|c comps IH]; intros cur; cbn.
  - by intros [= <-].
  - destruct (node_at s cur) as [[|d]|]; try discriminate. apply IH.
Qed.

Lemma locate_resolve (s : gmap (list str) node) cwd p l :
  locate s cwd p = Ok l -> l = resolve cwd p.
Proof.
  unfold locate, resolve.
  destruct (node_at s (start cwd p)) as [[|d]|]; try discriminate.
  apply walk_normalize.
Qed.

Lemma walk_dirs_kept s s' cur comps l :
  dirs_kept s s' -> walk s cur comps = Ok l -> walk s' cur comps = Ok l.
Proof.
  intros Hk. revert cur. induction comps as [|c comps IH]; intros cur; cbn.
  - done.
  - destruct (node_at s cur) as [[|d]|] eqn:Hn; try discriminate.
    rewrite (Hk _ Hn). apply IH.
Qed.

Lemma locate_dirs_kept s s' cwd p l :
  dirs_kept s s' -> locate s cwd p = Ok l -> locate s' cwd p = Ok l.
Proof.
  intros Hk. unfold locate.
  destruct (node_at s (start cwd p)) as [[|d]|] eqn:Hn; try discriminate.
  rewrite (Hk _ Hn). by apply walk_dirs_kept.
Qed.

Lemma node_at_insert_eq (s : gmap (list str) node) l n :
  l ≠ [] -> node_at (<[l := n]> s) l = Some n.
Proof. destruct l; [done|]. intros _. cbn. apply lookup_insert_eq. Qed.

Lemma node_at_insert_ne (s : gmap (list str) node) l l' n :
  l ≠ l' -> node_at (<[l := n]> s) l' = node_at s l'.
Proof. destruct l'; [done|]. intros H. cbn. by apply lookup_insert_ne. Qed.

Lemma dirs_kept_insert s l n :
  node_at s l ≠ Some Dir -> dirs_kept s (<[l := n]> s).
Proof.
  intros Hl l' Hd. destruct (decide (l = l')) as [->|Hne]; [done|].
  by rewrite node_at_insert_ne.
Qed.

Lemma node_at_file_nonroot (s : gmap (list str) node) l d :
  node_at s l = Some (File d) -> l ≠ [] /\ s !! l = Some (File d).
Proof. destruct l; [done|]. cbn. by intros ->. Qed.

(** What [open] followed by one [write] leaves. *)
Lemma open_w_append s cwd p l s1 bs :
  open_w s cwd p = (Ok l, s1) ->
  l = resolve cwd p /\ node_at s l ≠ Some Dir /\
  append s1 l bs = <[l := File bs]> s.
Proof.
  unfold open_w. destruct (locate s cwd p) as [l0|] eqn:Hloc; [|done].
  assert (Hn : forall n, node_at s l0 = n -> n ≠ Some Dir ->
            (Ok l0, <[l0 := File []]> s) = (Ok l, s1) ->
            l = resolve cwd p /\ node_at s l ≠ Some Dir /\
            append s1 l bs = <[l := File bs]> s).
  { intros n Hn Hnd [= <- <-]. split; [by eapply locate_resolve|].
    split; [congruence|]. unfold append.
    rewrite lookup_insert_eq. cbn. apply insert_insert_eq. }
  destruct (node_at s l0) as [[|d]|] eqn:Hnode; [done| |]; eapply Hn; eauto; done.
Qed.

Lemma read_bytes_inv s cwd p data :
  read_bytes s cwd p = Ok data ->
  locate s cwd p = Ok (resolve cwd p) /\
  node_at s (resolve cwd p) = Some (File data).
Proof.
  unfold read_bytes, stat.
  destruct (locate s cwd p) as [l|] eqn:Hloc; [|done].
  pose proof (locate_resolve _ _ _ _ Hloc) as ->.
  destruct (node_at s (resolve cwd p)) as [[|d]|]; try done.
  by intros [= ->].
Qed.

Lemma read_bytes_intro s cwd p data :
  locate s cwd p = Ok (resolve cwd p) ->
  node_at s (resolve cwd p) = Some (File data) ->
  read_bytes s cwd p = Ok data.
Proof. intros Hl Hn. unfold read_bytes, stat. by rewrite Hl, Hn. Qed.

(** Writing a file that can be read gives a file that reads back. *)
Lemma open_w_after_read s cwd p data :
  read_bytes s cwd p = Ok data ->
  open_w s cwd p = (Ok (resolve cwd p), <[resolve cwd p := File []]> s).
Proof.
  intros [Hl Hn]%read_bytes_inv. unfold open_w. by rewrite Hl, Hn.
Qed.

Lemma read_after_write s cwd p data bs :
  read_bytes s cwd p = Ok data ->
  read_bytes (<[resolve cwd p := File bs]> s) cwd p = Ok bs.
Proof.
  intros [Hl Hn]%read_bytes_inv.
  destruct (node_at_file_nonroot _ _ _ Hn) as [Hne _].
  apply read_bytes_intro.
  - eapply locate_dirs_kept; [|done]. apply dirs_kept_insert. congruence.
  - by apply node_at_insert_eq.
Qed.

End FSFacts.

(** ** Paths: components, strings and containment *)

Module PathFacts.
Import PurePath FS FSFacts.

Lemma startswith_prefix s p : startswith s p = true <-> p `prefix_of` s.
Proof.
  revert s. induction p as [|c p IH]; intros s; cbn.
  - split; [intros _; apply prefix_nil | done].
  - destruct s as [|d s].
    + split; [done|]. intros [k Hk]. discriminate.
    + rewrite andb_true_iff, IH, Z.eqb_eq. split.
      * intros [-> Hp]. by apply prefix_cons.
      * intros [k [= -> ->]]. split; [done|]. by exists k.
Qed.

Lemma split_at_slash x : forall y u v,
  SLASH ∉ x -> SLASH ∉ y ->
  x ++ SLASH :: u = y ++ SLASH :: v -> x = y /\ u = v.
Proof.
  induction x as [|a x IH]; intros [|b y] u v Hx Hy; cbn.
  - by intros [= ->].
  - intros [= <- _]. exfalso. apply Hy, elem_of_cons. by left.
  - intros [= -> _]. exfalso. apply Hx, elem_of_cons. by left.
  - intros [= -> H]. apply IH in H as [-> ->]; [done| |].
    + intros ?. apply Hx, elem_of_cons. by right.
    + intros ?. apply Hy, elem_of_cons. by right.
Qed.

Lemma join_cons_cons sep (p q : list Z) ps :
  join sep (p :: q :: ps) = p ++ sep ++ join sep (q :: ps).
Proof. done. Qed.

(** A string prefix that ends at a separator is a prefix of
    components. *)
Lemma join_prefix_parts b : forall t,
  b <> [] -> wf_parts b -> wf_parts t ->
  (join [SLASH] b ++ [SLASH]) `prefix_of` join [SLASH] t ->
  b `prefix_of` t.
Proof.
  induction b as [|x b IH]; intros t Hne Hb Ht [k Hk]; [done|].
  inversion Hb as [|? ? Hx Hb']; subst.
  destruct t as [|y t]; [by destruct x, b|].
  inversion Ht as [|? ? Hy Ht']; subst.
  assert (Hsingle : forall z, y = x ++ SLASH :: z -> False).
  { intros z ->. apply Hy. rewrite !elem_of_app, elem_of_cons. auto. }
  destruct b as [|x' b], t as [|y' t];
    rewrite ?join_cons_cons in Hk;
    change (join [SLASH] [x]) with x in Hk;
    change (join [SLASH] [y]) with y in Hk;
    rewrite <- ?app_assoc in Hk; cbn [app] in Hk.
  - exfalso. by apply (Hsingle k).
  - apply split_at_slash in Hk as [-> _]; [|done..].
    apply prefix_cons, prefix_nil.
  - exfalso. by eapply Hsingle.
  - apply split_at_slash in Hk as [-> Hk]; [|done..].
    apply prefix_cons. apply IH; [done|done|done|].
    exists k. rewrite Hk. by rewrite <- !app_assoc.
Qed.

Lemma wf_parts_removelast ws : wf_parts ws -> wf_parts (removelast ws).
Proof.
  unfold wf_parts. induction 1 as [|w ws Hw Hws IH]; cbn; [constructor|].
  destruct ws; [constructor|]. by constructor.
Qed.

Lemma wf_parts_step cur c : wf_parts cur -> wf_part c -> wf_parts (step cur c).
Proof.
  intros Hc Hw. unfold step. destruct (str_eqb c DOTDOT).
  - by apply wf_parts_removelast.
  - apply Forall_app. split; [done|]. by constructor.
Qed.

Lemma wf_parts_normalize comps : forall cur,
  wf_parts cur -> wf_parts comps -> wf_parts (normalize cur comps).
Proof.
  unfold normalize.
  induction comps as [|c comps IH]; intros cur Hcur Hc; cbn; [done|].
  inversion Hc; subst. apply IH; [|done]. by apply wf_parts_step.
Qed.

Lemma wf_parts_resolve cwd p :
  wf_parts cwd -> wf_parts (parts p) -> wf_parts (resolve cwd p).
Proof.
  intros Hc Hp. apply wf_parts_normalize; [|done].
  unfold start. destruct (absolute p); [constructor | done].
Qed.

Lemma wf_parts_split s : wf_parts (split_slash s).
Proof.
  induction s as [|c s IH]; cbn.
  - constructor; [|constructor]. apply not_elem_of_nil.
  - destruct (c =? SLASH) eqn:Hc.
    + constructor; [apply not_elem_of_nil | done].
    + destruct (split_slash s) as [|w ws].
      * constructor; [|constructor]. unfold wf_part.
        rewrite elem_of_cons. intros [Heq|?%elem_of_nil]; [|done].
        rewrite <- Heq in Hc. by rewrite Z.eqb_refl in Hc.
      * inversion IH; subst. constructor; [|done]. unfold wf_part in *.
        rewrite elem_of_cons. intros [Heq|?]; [|done].
        rewrite <- Heq in Hc. by rewrite Z.eqb_refl in Hc.
Qed.

Lemma wf_parts_parse s : wf_parts (parts (parse s)).
Proof.
  cbn. unfold wf_parts. apply Forall_forall. intros w [_ Hw]%list_elem_of_filter.
  revert w Hw. apply Forall_forall, wf_parts_split.
Qed.

Lemma wf_parts_joinpath p s :
  wf_parts (parts p) -> wf_parts (parts (joinpath p s)).
Proof.
  intros Hp. unfold joinpath. destruct (absolute (parse s)).
  - apply wf_parts_parse.
  - cbn [parts]. apply Forall_app. split; [done | apply wf_parts_parse].
Qed.

End PathFacts.

(** ** The Encoding Normalizer *)

Module ConvertFacts.
Import PurePath FS FSFacts Unzip.

Section WithCodecs.
Variable codec : encoding -> bytes -> option str.
Variable cwd : list str.

Local Abbreviation decode_family := (decode_shift_jis_family codec).
Local Abbreviation convert := (convert_text_file_in_place codec cwd).
Local Abbreviation first_candidate := (Unzip.first_candidate codec).
Local Abbreviation outcome := (Unzip.outcome codec cwd).

Lemma try_candidates_Some cands data text enc :
  try_candidates codec cands data = (Some text, Some enc) ->
  exists pre post,
    cands = pre ++ enc :: post /\
    Forall (fun e => codec e data = None) pre /\
    codec enc data = Some text.
Proof.
  induction cands as [|e cands IH]; cbn; [discriminate|].
  destruct (codec e data) as [t|] eqn:He.
  - intros [= <- <-]. exists [], cands. auto.
  - intros (pre & post & -> & Hpre & Hdec)%IH.
    exists (e :: pre), post. auto.
Qed.

Lemma try_candidates_shape cands data :
  try_candidates codec cands data = (None, None) \/
  exists text enc, try_candidates codec cands data = (Some text, Some enc).
Proof.
  induction cands as [|e cands IH]; cbn; [by left|].
  destruct (codec e data); eauto.
Qed.

Lemma try_candidates_None cands data :
  try_candidates codec cands data = (None, None) <->
  Forall (fun e => codec e data = None) cands.
Proof.
  induction cands as [|e cands IH]; cbn.
  - split; [constructor | done].
  - destruct (codec e data) eqn:He.
    + split; [discriminate|]. intros H. inversion H; congruence.
    + rewrite IH. split; [by constructor | by inversion 1].
Qed.

Lemma decode_family_shape data :
  decode_family data = (None, None) \/
  exists text enc, decode_family data = (Some text, Some enc).
Proof.
  unfold decode_shift_jis_family. destruct (is_probably_binary data); [by left|].
  apply try_candidates_shape.
Qed.

Lemma decode_family_Some data text enc :
  decode_family data = (Some text, Some enc) <->
  is_probably_binary data = false /\ first_candidate data enc text.
Proof.
  unfold decode_shift_jis_family, first_candidate.
  destruct (is_probably_binary data).
  - split; [discriminate | intros [[=] _]].
  - split.
    + intros H. split; [done|]. by apply try_candidates_Some.
    + intros [_ (pre & post & Hc & Hpre & Hdec)].
      rewrite Hc. clear Hc. induction Hpre as [|e pre He _ IH]; cbn.
      * by rewrite Hdec.
      * by rewrite He.
Qed.

Lemma convert_outcome p s :
  outcome p s (convert p s).1 (convert p s).2.
Proof.
  unfold convert_text_file_in_place.
  case_bool_decide as Hext; cbn [negb]; [|apply Untouched; by left].
  destruct (read_bytes s cwd p) as [data|e] eqn:Hread; [|by apply Unreadable].
  destruct (Utf8.decode data) as [t|] eqn:Hu.
  { apply Untouched. right. exists data. rewrite Hu. eauto. }
  destruct (decode_family_shape data) as [Hd|(text & enc & Hd)]; rewrite Hd.
  { apply Untouched. right. eauto. }
  unfold write_text. rewrite (open_w_after_read _ _ _ _ Hread).
  destruct (Utf8.encode text) as [bs|] eqn:He; cbn.
  - unfold append. rewrite lookup_insert_eq, insert_insert_eq.
    by eapply Rewritten.
  - by eapply Truncated.
Qed.

Lemma convert_inv p s r s1 :
  convert p s = (r, s1) -> outcome p s r s1.
Proof. intros H. pose proof (convert_outcome p s) as Ho. by rewrite H in Ho. Qed.

Lemma binary_iff data : is_probably_binary data = true <-> 0 ∈ data.
Proof.
  unfold is_probably_binary. rewrite existsb_exists, list_elem_of_In.
  split.
  - intros (x & Hin & ->%Z.eqb_eq). done.
  - intros H. exists 0. done.
Qed.

Lemma decode_family_binary data :
  0 ∈ data -> decode_family data = (None, None).
Proof.
  intros H%binary_iff. unfold decode_shift_jis_family. by rewrite H.
Qed.

Lemma decode_family_none data :
  (forall enc, enc ∈ ENCODING_CANDIDATES -> codec enc data = None) ->
  decode_family data = (None, None).
Proof.
  intros H. unfold decode_shift_jis_family.
  destruct (is_probably_binary data); [done|].
  apply try_candidates_None, Forall_forall. done.
Qed.

Lemma decode_family_some data :
  0 ∉ data ->
  (exists e t, e ∈ ENCODING_CANDIDATES /\ codec e data = Some t) ->
  exists text enc, decode_family data = (Some text, Some enc).
Proof.
  intros Hz (e & t & He & Hdec).
  destruct (decode_family_shape data) as [Hn|]; [|done].
  exfalso. unfold decode_shift_jis_family in Hn.
  destruct (is_probably_binary data) eqn:Hb.
  - by apply Hz, binary_iff.
  - apply try_candidates_None in Hn.
    rewrite Forall_forall in Hn. specialize (Hn e He). congruence.
Qed.

Lemma convert_untouched p s data :
  read_bytes s cwd p = Ok data ->
  is_Some (Utf8.decode data) \/ decode_family data = (None, None) ->
  convert p s = (Ok None, s).
Proof.
  intros Hread H. unfold convert_text_file_in_place.
  case_bool_decide; cbn [negb]; [|done]. rewrite Hread.
  destruct H as [[t ->]| ->]; [done|]. by destruct (Utf8.decode data).
Qed.

Lemma convert_rewrites p s data text enc bs :
  recognized p -> read_bytes s cwd p = Ok data ->
  Utf8.decode data = None ->
  decode_family data = (Some text, Some enc) ->
  Utf8.encode text = Some bs ->
  convert p s = (Ok (Some enc), <[resolve cwd p := File bs]> s).
Proof.
  intros Hext Hread Hu Hd He. unfold convert_text_file_in_place.
  rewrite bool_decide_eq_true_2 by done. cbn [negb].
  rewrite Hread, Hu, Hd. unfold write_text.
  rewrite (open_w_after_read _ _ _ _ Hread), He. cbn.
  unfold append. by rewrite lookup_insert_eq, insert_insert_eq.
Qed.

(** C2 (as amended): a file with a recognized extension whose bytes
    are not valid UTF-8, hold no null byte and decode under one of
    the candidates is replaced, whole, by the UTF-8 encoding of the
    text of the first candidate that decodes it: nothing is put in
    front of it (no byte-order mark), no line terminator is
    translated, and reading the file back as UTF-8 gives that text
    exactly, carriage returns included. *)
Theorem legacy_file_rewritten_as_utf8 p s data :
  recognized p ->
  read_bytes s cwd p = Ok data ->
  Utf8.decode data = None ->
  0 ∉ data ->
  (exists e t, e ∈ ENCODING_CANDIDATES /\ codec e data = Some t) ->
  (forall e t, codec e data = Some t -> Forall Utf8.scalar t) ->
  exists enc text bs,
    first_candidate data enc text /\
    Utf8.encode text = Some bs /\
    convert p s = (Ok (Some enc), <[resolve cwd p := File bs]> s) /\
    read_bytes (<[resolve cwd p := File bs]> s) cwd p = Ok bs /\
    Utf8.decode bs = Some text /\
    (forall rest, bs = Utf8.BOM ++ rest -> exists t', text = 0xFEFF :: t').
Proof.
  intros Hext Hread Hu Hz Hsome Hscalar.
  destruct (decode_family_some data Hz Hsome) as (text & enc & Hd).
  pose proof (proj1 (decode_family_Some _ _ _) Hd) as [_ Hfirst].
  assert (Hsc : Forall Utf8.scalar text).
  { destruct Hfirst as (? & ? & _ & _ & Hdec). eauto. }
  apply Utf8Facts.encode_is_Some in Hsc as [bs Hbs].
  exists enc, text, bs. repeat split; try done.
  - by eapply convert_rewrites.
  - by eapply read_after_write.
  - by apply Utf8Facts.decode_encode.
  - intros rest ->. by eapply Utf8Facts.encode_no_bom.
Qed.

(** C3: a file whose bytes are valid UTF-8 is left as it is and no
    conversion is reported; a file that has been converted is left as
    it is by a second run, which reports nothing; and on any file a
    second run changes nothing more. *)
Theorem utf8_file_untouched_and_idempotent p s data :
  read_bytes s cwd p = Ok data ->
  (is_Some (Utf8.decode data) -> convert p s = (Ok None, s)) /\
  (forall enc s1, convert p s = (Ok (Some enc), s1) ->
                  convert p s1 = (Ok None, s1)) /\
  (convert p (convert p s).2).2 = (convert p s).2.
Proof.
  intros Hread. split; [|split].
  - intros Hu. eapply convert_untouched; eauto.
  - intros enc s1 Hc. apply convert_inv in Hc.
    inversion Hc as [| |d text enc' bs Hext Hr Hu Hd He|]; subst.
    eapply convert_untouched; [by eapply read_after_write|].
    left. rewrite (Utf8Facts.decode_encode _ _ He). eauto.
  - destruct (convert p s) as [r s1] eqn:Hc. cbn [snd].
    pose proof (convert_inv _ _ _ _ Hc) as Ho.
    inversion Ho as [H|e Hext Hr|d text enc bs Hext Hr Hu Hd He
                    |d text enc Hext Hr Hu Hd He]; subst.
    + by rewrite Hc.
    + by rewrite Hc.
    + erewrite convert_untouched; [done|by eapply read_after_write|].
      left. rewrite (Utf8Facts.decode_encode _ _ He). eauto.
    + erewrite convert_untouched; [done|by eapply read_after_write|].
      left. cbn. eauto.
Qed.

(** C4: a file with a recognized extension whose bytes are not valid
    UTF-8 and hold a null byte is left as it is, byte for byte, and
    no conversion is reported. *)
Theorem null_byte_file_untouched p s data :
  recognized p ->
  read_bytes s cwd p = Ok data ->
  Utf8.decode data = None ->
  0 ∈ data ->
  convert p s = (Ok None, s) /\ read_bytes s cwd p = Ok data.
Proof.
  intros _ Hread _ Hz. split; [|done].
  eapply convert_untouched; [done|]. right. by apply decode_family_binary.
Qed.

(** C5: the candidates are tried in the order cp932, shift_jis,
    shift_jisx0213, shift_jis_2004.  For bytes without a null byte the
    detection reports an encoding and a text exactly when that encoding
    is the first of the candidates, in this order, under which the
    bytes decode, with that text; so it reports one as soon as any
    candidate decodes the bytes, and never two.  The conversion of a
    file with a recognized extension that is not valid UTF-8 then
    reports that first candidate, and an encoding it reports is that
    first candidate.  When no candidate decodes the bytes nothing is
    detected, the file is left as it is and no conversion is
    reported. *)
Theorem first_decoding_candidate_is_reported p s data :
  read_bytes s cwd p = Ok data ->
  ENCODING_CANDIDATES = [cp932; shift_jis; shift_jisx0213; shift_jis_2004] /\
  (forall text enc,
     decode_family data = (Some text, Some enc) <->
     (0 ∉ data) /\ first_candidate data enc text) /\
  (0 ∉ data ->
   forall e t, e ∈ ENCODING_CANDIDATES -> codec e data = Some t ->
     exists text enc,
       decode_family data = (Some text, Some enc) /\
       first_candidate data enc text) /\
  (forall text enc text' enc',
     first_candidate data enc text -> first_candidate data enc' text' ->
     enc' = enc /\ text' = text) /\
  (recognized p -> Utf8.decode data = None -> 0 ∉ data ->
   forall text enc bs,
     first_candidate data enc text -> Utf8.encode text = Some bs ->
     convert p s = (Ok (Some enc), <[resolve cwd p := File bs]> s)) /\
  (forall enc s1, convert p s = (Ok (Some enc), s1) ->
                  exists text, first_candidate data enc text) /\
  ((forall enc, enc ∈ ENCODING_CANDIDATES -> codec enc data = None) ->
   decode_family data = (None, None) /\ convert p s = (Ok None, s)).
Proof.
  intros Hread.
  assert (Hiff : forall text enc,
            decode_family data = (Some text, Some enc) <->
            (0 ∉ data) /\ first_candidate data enc text).
  { intros text enc. rewrite decode_family_Some.
    split; intros [Hb Hf]; (split; [|done]).
    - intros Hz%binary_iff. congruence.
    - destruct (is_probably_binary data) eqn:E; [|done]. by apply binary_iff in E. }
  assert (Huniq : forall text enc text' enc',
            first_candidate data enc text -> first_candidate data enc' text' ->
            enc' = enc /\ text' = text).
  { intros text enc text' enc' (pre & post & E & Hpre & Hdec)
      (pre' & post' & E' & Hpre' & Hdec').
    assert (Ht : try_candidates codec ENCODING_CANDIDATES data = (Some text, Some enc)).
    { rewrite E. clear E. induction Hpre as [|e0 pre He _ IH]; cbn.
      - by rewrite Hdec.
      - by rewrite He. }
    assert (Ht' : try_candidates codec ENCODING_CANDIDATES data
                  = (Some text', Some enc')).
    { rewrite E'. clear E'. induction Hpre' as [|e0 pre' He _ IH]; cbn.
      - by rewrite Hdec'.
      - by rewrite He. }
    rewrite Ht in Ht'. by injection Ht' as -> ->. }
  split; [done|]. split; [exact Hiff|]. split_and!.
  - intros Hz e t He Hdec.
    destruct (decode_family_some data Hz) as (text & enc & Hd); [by eauto|].
    exists text, enc. split; [done|]. by apply Hiff in Hd as [_ ?].
  - exact Huniq.
  - intros Hext Hu Hz text enc bs Hfirst He.
    apply convert_rewrites with data text; try done. by apply Hiff.
  - intros enc s1 Hc. apply convert_inv in Hc.
    inversion Hc as [| |d text enc' bs Hext Hr Hu Hd He|]; subst.
    assert (d = data) as -> by congruence.
    exists text. by apply decode_family_Some in Hd as [_ ?].
  - intros Hnone. pose proof (decode_family_none data Hnone) as Hd.
    split; [done|]. eapply convert_untouched; [done|]. by right.
Qed.

(** C10: when the function returns, it returns an encoding exactly
    when it has rewritten the file.  If it returns none, the file
    system is the one it started from, and this is the case exactly
    for an unrecognized extension, bytes that are valid UTF-8, a null
    byte, or no candidate that decodes; if it returns an encoding,
    the file holds new bytes, different from those read. *)
Theorem returns_encoding_iff_rewritten p s r s1 :
  convert p s = (Ok r, s1) ->
  (r = None <-> s1 = s) /\
  (r = None <->
     ~ recognized p \/
     exists data, read_bytes s cwd p = Ok data /\
       (is_Some (Utf8.decode data) \/ 0 ∈ data \/
        forall enc, enc ∈ ENCODING_CANDIDATES -> codec enc data = None)) /\
  (forall enc, r = Some enc ->
     exists data bs,
       read_bytes s cwd p = Ok data /\ read_bytes s1 cwd p = Ok bs /\
       bs ≠ data /\ s1 = <[resolve cwd p := File bs]> s).
Proof.
  intros Hc. pose proof (convert_inv _ _ _ _ Hc) as Ho.
  inversion Ho as [H| |d text enc bs Hext Hr Hu Hd He|]; subst.
  - split; [done|]. split; [|done]. split; [intros _|done].
    destruct H as [?|(data & Hr & [?|Hd])]; [by left|right; eauto|].
    right. exists data. split; [done|]. right.
    unfold decode_shift_jis_family in Hd.
    destruct (is_probably_binary data) eqn:Hb.
    + left. by apply binary_iff.
    + right. intros enc Henc. apply try_candidates_None in Hd.
      rewrite Forall_forall in Hd. by apply Hd.
  - assert (Hne : bs ≠ d).
    { intros ->. rewrite (Utf8Facts.decode_encode _ _ He) in Hu. done. }
    assert (Hrb : read_bytes (<[resolve cwd p := File bs]> s) cwd p = Ok bs)
      by (by eapply read_after_write).
    split; [|split].
    + split; [done|]. intros Heq. rewrite Heq in Hrb. congruence.
    + split; [done|]. intros [Hn|(data & Hr' & Hcase)]; [done|].
      assert (data = d) as -> by congruence. exfalso.
      destruct Hcase as [[? ?]|[Hz|Hnone]]; [congruence| |].
      * rewrite decode_family_binary in Hd by done. done.
      * rewrite decode_family_none in Hd by done. done.
    + intros enc' [= <-]. eauto 10.
Qed.

End WithCodecs.

(** *** Examples on a sample file system *)

Lemma sample_recognized : recognized sample_txt.
Proof. apply (bool_decide_unpack _). vm_compute. exact I. Defined.

Lemma jisx0201_char_scalar b c : jisx0201_char b = Some c -> Utf8.scalar c.
Proof.
  unfold jisx0201_char, Utf8.scalar.
  repeat case_match; intros [= <-]; lia.
Defined.

Lemma jisx0201_scalar e data t :
  jisx0201 e data = Some t -> Forall Utf8.scalar t.
Proof.
  unfold jisx0201. intros H%mapM_Some.
  induction H; constructor; eauto using jisx0201_char_scalar.
Defined.

(** C2, as it is stated, fails: half-width katakana A followed by a
    carriage return and a line feed is converted, and the carriage
    return is still there. *)
Lemma crlf_survives_conversion :
  let data := [0xB1; 0x0D; 0x0A] in
  recognized sample_txt /\
  read_bytes (sample_fs data) [] sample_txt = Ok data /\
  Utf8.decode data = None /\
  (0 ∉ data) /\
  jisx0201 cp932 data = Some [0xFF71; 0x0D; 0x0A] /\
  exists s1 out,
    convert_text_file_in_place jisx0201 [] sample_txt (sample_fs data)
      = (Ok (Some cp932), s1) /\
    read_bytes s1 [] sample_txt = Ok out /\
    ~ lf_line_endings out.
Proof.
  cbv zeta. split; [exact sample_recognized|].
  split; [reflexivity|]. split; [reflexivity|].
  split; [by apply (bool_decide_unpack _)|]. split; [reflexivity|].
  exists (sample_fs [0xEF; 0xBD; 0xB1; 0x0D; 0x0A]), [0xEF; 0xBD; 0xB1; 0x0D; 0x0A].
  split; [vm_compute; reflexivity|]. split; [reflexivity|].
  unfold lf_line_endings. intros H. apply H. set_solver.
Qed.

Lemma legacy_file_rewritten_witness :
  let data := [0xB1; 0x0D; 0x0A] in
  exists enc text bs,
    first_candidate jisx0201 data enc text /\
    Utf8.encode text = Some bs /\
    convert_text_file_in_place jisx0201 [] sample_txt (sample_fs data)
      = (Ok (Some enc), <[resolve [] sample_txt := File bs]> (sample_fs data)) /\
    read_bytes (<[resolve [] sample_txt := File bs]> (sample_fs data)) [] sample_txt
      = Ok bs /\
    Utf8.decode bs = Some text /\
    (forall rest, bs = Utf8.BOM ++ rest -> exists t', text = 0xFEFF :: t').
Proof.
  cbv zeta.
  apply (legacy_file_rewritten_as_utf8 jisx0201 [] sample_txt
           (sample_fs [0xB1; 0x0D; 0x0A]) [0xB1; 0x0D; 0x0A]).
  - exact sample_recognized.
  - reflexivity.
  - reflexivity.
  - apply (bool_decide_unpack _). vm_compute. exact I.
  - exists cp932, [0xFF71; 0x0D; 0x0A]. split; [|reflexivity].
    apply (bool_decide_unpack _). vm_compute. exact I.
  - intros e t. apply jisx0201_scalar.
Defined.

Lemma utf8_file_untouched_witness :
  let data := [0xE3; 0x81; 0x82; 0x0A] in
  read_bytes (sample_fs data) [] sample_txt = Ok data /\
  convert_text_file_in_place jisx0201 [] sample_txt (sample_fs data)
    = (Ok None, sample_fs data).
Proof.
  cbv zeta. split; [reflexivity|].
  apply (utf8_file_untouched_and_idempotent jisx0201 [] sample_txt
           (sample_fs [0xE3; 0x81; 0x82; 0x0A]) [0xE3; 0x81; 0x82; 0x0A]).
  - reflexivity.
  - exists [0x3042; 0x0A]. reflexivity.
Defined.

Lemma null_byte_file_untouched_witness :
  let data := [0x00; 0xB1] in
  convert_text_file_in_place jisx0201 [] sample_txt (sample_fs data)
    = (Ok None, sample_fs data) /\
  read_bytes (sample_fs data) [] sample_txt = Ok data.
Proof.
  cbv zeta.
  apply (null_byte_file_untouched jisx0201 [] sample_txt
           (sample_fs [0x00; 0xB1]) [0x00; 0xB1]).
  - exact sample_recognized.
  - reflexivity.
  - reflexivity.
  - apply (bool_decide_unpack _). vm_compute. exact I.
Defined.

Lemma first_decoding_candidate_witness :
  read_bytes (sample_fs [0xB1]) [] sample_txt = Ok [0xB1] /\
  (decode_shift_jis_family jisx0201 [0xB1] = (Some [0xFF71], Some cp932) <->
   (0 ∉ [0xB1]) /\ first_candidate jisx0201 [0xB1] cp932 [0xFF71]) /\
  convert_text_file_in_place jisx0201 [] sample_txt (sample_fs [0xB1])
  = (Ok (Some cp932),
     <[resolve [] sample_txt := File [0xEF; 0xBD; 0xB1]]> (sample_fs [0xB1])).
Proof.
  split; [reflexivity|].
  destruct (first_decoding_candidate_is_reported jisx0201 []
              sample_txt (sample_fs [0xB1]) [0xB1] eq_refl)
    as (_ & Hiff & _ & _ & Hconv & _).
  split; [apply Hiff|].
  apply Hconv with [0xFF71].
  - exact sample_recognized.
  - reflexivity.
  - apply (bool_decide_unpack _). vm_compute. exact I.
  - apply Hiff. reflexivity.
  - reflexivity.
Defined.

Lemma returns_encoding_iff_rewritten_witness :
  (Some cp932 = None <-> sample_fs [0xEF; 0xBD; 0xB1] = sample_fs [0xB1]) /\
  exists data bs,
    read_bytes (sample_fs [0xB1]) [] sample_txt = Ok data /\
    read_bytes (sample_fs [0xEF; 0xBD; 0xB1]) [] sample_txt = Ok bs /\
    bs ≠ data /\
    sample_fs [0xEF; 0xBD; 0xB1]
      = <[resolve [] sample_txt := File bs]> (sample_fs [0xB1]).
Proof.
  assert (Hc : convert_text_file_in_place jisx0201 [] sample_txt (sample_fs [0xB1])
               = (Ok (Some cp932), sample_fs [0xEF; 0xBD; 0xB1]))
    by (vm_compute; reflexivity).
  destruct (returns_encoding_iff_rewritten jisx0201 [] sample_txt
              (sample_fs [0xB1]) (Some cp932) (sample_fs [0xEF; 0xBD; 0xB1]) Hc)
    as (H1 & _ & H3).
  split; [exact H1 | exact (H3 cp932 eq_refl)].
Defined.

End ConvertFacts.

(** ** The Archive Extractor *)

Module ExtractFacts.
Import PurePath FS FSFacts PathFacts Unzip ConvertFacts.

Lemma dirs_added_refl s : dirs_added s s.
Proof. intros l. by left. Qed.

Lemma dirs_added_trans s1 s2 s3 :
  dirs_added s1 s2 -> dirs_added s2 s3 -> dirs_added s1 s3.
Proof.
  intros H12 H23 l. destruct (H23 l) as [E23|[N2 D3]], (H12 l) as [E12|[N1 D2]].
  - left. congruence.
  - right. split; [done|congruence].
  - right. split; [|done]. destruct l; [done|]. cbn in *. congruence.
  - destruct l; [done|]. cbn in *. congruence.
Qed.

Lemma dirs_added_file_at s s' l : dirs_added s s' -> file_at s' l = file_at s l.
Proof.
  intros H. unfold file_at. destruct (H l) as [->|[Hn ->]]; [done|].
  destruct l; [done|]. cbn in Hn. by rewrite Hn.
Qed.

Lemma os_mkdir_added s cwd p s' :
  os_mkdir s cwd p = Ok s' -> dirs_added s s'.
Proof.
  unfold os_mkdir. destruct (locate s cwd p) as [l|]; [|done].
  destruct (node_at s l) eqn:Hn; [done|]. intros [= <-] l'.
  destruct (decide (l = l')) as [<-|Hne].
  - right. split; [done|]. apply lookup_insert_eq.
  - left. by apply lookup_insert_ne.
Qed.

Lemma mkdir_exist_ok_added s cwd p r s' :
  mkdir_exist_ok s cwd p = (r, s') -> dirs_added s s'.
Proof.
  unfold mkdir_exist_ok. destruct (os_mkdir s cwd p) as [s1|e] eqn:Hm.
  - intros [= _ <-]. by eapply os_mkdir_added.
  - destruct e as [[]| | | |]; try destruct (is_dir s cwd p);
      intros [= _ <-]; apply dirs_added_refl.
Qed.

Lemma mkdir_parents_rev_added cwd ab rparts : forall s r s',
  mkdir_parents_rev s cwd ab rparts = (r, s') -> dirs_added s s'.
Proof.
  induction rparts as [|c rp IH]; intros s r s'; cbn [mkdir_parents_rev].
  - destruct (os_mkdir s cwd _) as [s1|e] eqn:Hm.
    + intros [= _ <-]. by eapply os_mkdir_added.
    + destruct e as [[]| | | |]; try destruct (is_dir s cwd _);
        intros [= _ <-]; apply dirs_added_refl.
  - destruct (os_mkdir s cwd _) as [s1|e] eqn:Hm.
    + intros [= _ <-]. by eapply os_mkdir_added.
    + destruct e as [[]| | | |]; try destruct (is_dir s cwd _);
        try (intros [= _ <-]; apply dirs_added_refl).
      destruct (mkdir_parents_rev s cwd ab rp) as [[?|e] s1] eqn:Hp.
      * intros H. eapply dirs_added_trans; [by eapply IH|].
        by eapply mkdir_exist_ok_added.
      * intros [= _ <-]. by eapply IH.
Qed.

Lemma mkdir_parents_added s cwd p r s' :
  mkdir_parents s cwd p = (r, s') -> dirs_added s s'.
Proof. apply mkdir_parents_rev_added. Qed.

Lemma open_w_Raise s cwd p e s' :
  open_w s cwd p = (Raise e, s') -> s' = s.
Proof.
  unfold open_w. destruct (locate s cwd p) as [l|]; [|by intros [= _ <-]].
  destruct (node_at s l) as [[|?]|]; by intros [= <-].
Qed.

Lemma files_outside_kept_refl base s : files_outside_kept base s s.
Proof. by intros q. Qed.

Lemma files_outside_kept_trans base s1 s2 s3 :
  files_outside_kept base s1 s2 -> files_outside_kept base s2 s3 ->
  files_outside_kept base s1 s3.
Proof. intros H1 H2 q Hq. by rewrite H2, H1. Qed.

Lemma dirs_added_outside base s s' :
  dirs_added s s' -> files_outside_kept base s s'.
Proof. intros H q _. by apply dirs_added_file_at. Qed.

Lemma insert_inside_outside base l n s :
  within base l -> files_outside_kept base s (<[l := n]> s).
Proof.
  intros Hl q Hq. unfold file_at. rewrite lookup_insert_ne; [done|].
  by intros ->.
Qed.

Section WithCodecs.
Variable codec : encoding -> bytes -> option str.
Variable cwd : list str.
Hypothesis cwd_wf : wf_parts cwd.

Local Abbreviation extract := (extract_member cwd).
Local Abbreviation convert := (convert_text_file_in_place codec cwd).
Local Abbreviation members_loop := (process_members codec cwd).

Lemma ensure_within_dir_Ok base target p :
  wf_parts (parts base) -> wf_parts (parts target) ->
  ensure_within_dir cwd base target = Ok p ->
  p = target /\ within (resolve cwd base) (resolve cwd target).
Proof.
  intros Hb Ht. unfold ensure_within_dir.
  destruct (startswith _ _) eqn:Hs; cbn [negb andb].
  - intros [= <-]. split; [done|].
    apply startswith_prefix in Hs. unfold str_of_loc in Hs.
    cbn [app] in Hs. apply prefix_cons_inv_2 in Hs.
    destruct (resolve cwd base) as [|b0 bs] eqn:Hbase; [apply prefix_nil|].
    rewrite <- Hbase in *. apply join_prefix_parts; try done.
    + by rewrite Hbase.
    + by apply wf_parts_resolve.
    + by apply wf_parts_resolve.
  - case_bool_decide as Heq; cbn [negb]; [|done].
    intros [= <-]. split; [done|]. unfold within. by rewrite Heq.
Qed.

Lemma ensure_within_dir_outside base target :
  wf_parts (parts base) -> wf_parts (parts target) ->
  ~ within (resolve cwd base) (resolve cwd target) ->
  ensure_within_dir cwd base target
    = Raise (ValueError "Unsafe path detected (Zip Slip)").
Proof.
  intros Hb Ht Hout.
  destruct (ensure_within_dir cwd base target) as [p|e] eqn:He.
  - by apply ensure_within_dir_Ok in He as [_ ?].
  - unfold ensure_within_dir in He. by destruct (_ && _).
Qed.

(** What one call of [extract_member] can do. *)
Lemma extract_member_frame m dest_dir s r s' :
  wf_parts (parts dest_dir) ->
  extract m dest_dir s = (r, s') ->
  let target := joinpath dest_dir (filename m) in
  (r = Raise (ValueError "Unsafe path detected (Zip Slip)") /\ s' = s /\
   ~ within (resolve cwd dest_dir) (resolve cwd target)) \/
  (within (resolve cwd dest_dir) (resolve cwd target) /\
   files_outside_kept (resolve cwd dest_dir) s s' /\
   forall p, r = Ok p -> p = target).
Proof.
  intros Hd He target.
  assert (Ht : wf_parts (parts target)) by (by apply wf_parts_joinpath).
  destruct (decide (within (resolve cwd dest_dir) (resolve cwd target)))
    as [Hin|Hout]; [right|left].
  2:{ unfold extract_member in He. fold target in He.
      rewrite (ensure_within_dir_outside _ _ Hd Ht Hout) in He.
      destruct (member_is_dir m); by injection He as <- <-. }
  split; [done|].
  unfold extract_member in He. fold target in He.
  destruct (ensure_within_dir cwd dest_dir target) as [p|e] eqn:Hens.
  2:{ destruct (member_is_dir m); injection He as <- <-;
        (split; [apply files_outside_kept_refl | done]). }
  apply ensure_within_dir_Ok in Hens as [-> _]; [|done..].
  destruct (member_is_dir m).
  - destruct (mkdir_parents s cwd target) as [[?|e] s1] eqn:Hm;
      injection He as <- <-;
      (split; [eapply dirs_added_outside, mkdir_parents_added; eauto
              | congruence]).
  - destruct (mkdir_parents s cwd (parent target)) as [[?|e] s1] eqn:Hm.
    2:{ injection He as <- <-.
        split; [eapply dirs_added_outside, mkdir_parents_added; eauto | done]. }
    apply mkdir_parents_added in Hm.
    destruct (opens m); cbn [negb] in He.
    2:{ injection He as <- <-. split; [by apply dirs_added_outside | done]. }
    destruct (open_w s1 cwd target) as [[l|e] s2] eqn:Ho.
    2:{ injection He as <- <-. apply open_w_Raise in Ho as ->.
        split; [by apply dirs_added_outside | done]. }
    destruct (open_w_append _ _ _ _ _ (payload m) Ho) as (-> & _ & Happ).
    assert (Hs' : s' = <[resolve cwd target := File (payload m)]> s1).
    { destruct (read_fails m); injection He as _ <-; done. }
    split.
    + eapply files_outside_kept_trans; [by apply dirs_added_outside|].
      rewrite Hs'. by apply insert_inside_outside.
    + destruct (read_fails m); [by injection He as <-|].
      injection He as <- _. congruence.
Qed.

Lemma convert_frame base p s r s' :
  within base (resolve cwd p) ->
  convert p s = (r, s') -> files_outside_kept base s s'.
Proof.
  intros Hin Hc. apply convert_inv in Hc.
  inversion Hc; subst;
    first [apply files_outside_kept_refl | by apply insert_inside_outside].
Qed.

Lemma process_members_frame dest_dir members : forall s,
  wf_parts (parts dest_dir) ->
  files_outside_kept (resolve cwd dest_dir) s (members_loop members dest_dir s).2.
Proof.
  induction members as [|m rest IH]; intros s Hd; cbn [process_members].
  - apply files_outside_kept_refl.
  - destruct (extract_member cwd m dest_dir s) as [r s1] eqn:He.
    pose proof (extract_member_frame _ _ _ _ _ Hd He) as Hf. cbv zeta in Hf.
    assert (H1 : files_outside_kept (resolve cwd dest_dir) s s1).
    { destruct Hf as [(_ & -> & _)|(_ & ? & _)];
        [apply files_outside_kept_refl | done]. }
    destruct r as [p|e].
    2:{ destruct (members_loop rest dest_dir s1) as [[log r] s2] eqn:Hr. cbn.
        eapply files_outside_kept_trans; [exact H1|].
        specialize (IH s1 Hd). by rewrite Hr in IH. }
    assert (Hp : within (resolve cwd dest_dir) (resolve cwd p)).
    { destruct Hf as [([=] & _)|(Hin & _ & Hp)]. by rewrite (Hp p eq_refl). }
    destruct (is_file s1 cwd p).
    2:{ eapply files_outside_kept_trans; [exact H1 | by apply IH]. }
    destruct (convert p s1) as [rc s2] eqn:Hc.
    pose proof (convert_frame _ _ _ _ _ Hp Hc) as H2.
    assert (H3 : files_outside_kept (resolve cwd dest_dir) s2
                   (members_loop rest dest_dir s2).2) by (by apply IH).
    assert (H12 : files_outside_kept (resolve cwd dest_dir) s s2)
      by (by eapply files_outside_kept_trans).
    assert (H : files_outside_kept (resolve cwd dest_dir) s
                  (members_loop rest dest_dir s2).2)
      by (by eapply files_outside_kept_trans).
    destruct rc as [[used|]|e]; [| done |];
      (destruct (relative_to p dest_dir) as [rel|e']; [|done]);
      by destruct (members_loop rest dest_dir s2) as [[log r] s3].
Qed.

(** C1: the destination of every member is checked before anything
    is written for it: a call of [extract_member] that changes the
    file system has passed the check.  A member whose destination
    resolves outside the destination directory is rejected with the
    path-safety error, nothing is written for it, and the loop goes
    on with the members after it.  Whatever the archive holds, no
    regular file outside the destination directory is created or
    changed. *)
Theorem unsafe_members_rejected_and_files_stay_inside
    zip_path archive out_root s :
  wf_parts (parts out_root) ->
  let dest_dir := joinpath out_root (safe_folder_name (stem zip_path)) in
  let base := resolve cwd dest_dir in
  let inside m := within base (resolve cwd (joinpath dest_dir (filename m))) in
  let unsafe := ValueError "Unsafe path detected (Zip Slip)" in
  (forall m s0 r s1, extract m dest_dir s0 = (r, s1) ->
     inside m \/ (s1 = s0 /\ r = Raise unsafe)) /\
  (forall m rest s0, ~ inside m ->
     extract m dest_dir s0 = (Raise unsafe, s0) /\
     members_loop (m :: rest) dest_dir s0
       = ((ExtractError (filename m) unsafe :: (members_loop rest dest_dir s0).1.1,
           (members_loop rest dest_dir s0).1.2),
          (members_loop rest dest_dir s0).2)) /\
  files_outside_kept base s
    (process_zip codec cwd zip_path archive out_root s).2.
Proof.
  intros Hroot dest_dir base inside unsafe.
  assert (Hd : wf_parts (parts dest_dir)) by (by apply wf_parts_joinpath).
  split_and!.
  - intros m s0 r s1 He.
    destruct (extract_member_frame _ _ _ _ _ Hd He) as [(-> & -> & _)|(? & _)];
      [by right | by left].
  - intros m rest s0 Hout.
    assert (He : extract m dest_dir s0 = (Raise unsafe, s0)).
    { destruct (extract m dest_dir s0) as [r s1] eqn:He.
      destruct (extract_member_frame _ _ _ _ _ Hd He) as [(-> & -> & _)|(? & _)];
        done. }
    split; [done|]. cbn [process_members]. rewrite He.
    by destruct (members_loop rest dest_dir s0) as [[log r] s1].
  - unfold process_zip. fold dest_dir.
    destruct (mkdir_parents s cwd dest_dir) as [[?|e] s1] eqn:Hm; cbn [snd];
      pose proof (mkdir_parents_added _ _ _ _ _ Hm) as Ha;
      [|by apply dirs_added_outside].
    destruct archive as [members|e]; [|by apply dirs_added_outside].
    pose proof (process_members_frame dest_dir members s1 Hd) as Hf.
    destruct (members_loop members dest_dir s1) as [[log r] s2]. cbn [snd] in *.
    eapply files_outside_kept_trans; [|exact Hf]. by apply dirs_added_outside.
Qed.

End WithCodecs.

(** *** A sample archive *)

Lemma wf_parts_home : wf_parts home.
Proof.
  repeat constructor. apply (bool_decide_unpack _). vm_compute. exact I.
Defined.

Lemma wf_parts_out : wf_parts (parts (parse (py "out"))).
Proof. apply wf_parts_parse. Defined.

Lemma unsafe_members_rejected_witness :
  files_outside_kept
    (resolve home (joinpath (parse (py "out"))
                     (safe_folder_name (stem (parse (py "000001.zip"))))))
    home_fs
    (process_zip jisx0201 home (parse (py "000001.zip")) (Ok sample_archive)
       (parse (py "out")) home_fs).2.
Proof.
  apply (unsafe_members_rejected_and_files_stay_inside jisx0201 home
           wf_parts_home (parse (py "000001.zip")) (Ok sample_archive)
           (parse (py "out")) home_fs wf_parts_out).
Defined.

(** The run on the sample archive: the first member is refused, the
    second is extracted and converted. *)
Example sample_archive_run :
  let run := process_zip jisx0201 home (parse (py "000001.zip"))
               (Ok sample_archive) (parse (py "out")) home_fs in
  run.1 = ([Banner (py "000001.zip") (parse (py "out/000001"));
          ExtractError (py "../../evil.txt")
            (ValueError "Unsafe path detected (Zip Slip)");
          Converted (parse (py "sub/ok.txt")) cp932], Ok tt) /\
  run.2 !! (home ++ [py "out"; py "000001"; py "sub"; py "ok.txt"])
    = Some (File [0xEF; 0xBD; 0xB1; 0x0D; 0x0A]) /\
  run.2 !! [py "evil.txt"] = None.
Proof. cbv zeta. split_and!; vm_compute; reflexivity. Qed.

(** The guarantee is about regular files.  A member name that leaves
    the destination directory and comes back resolves inside it and is
    accepted; making its parent directories makes the directory it
    passed through, outside the destination. *)
Example directory_made_outside_destination :
  let m := Member (py "../other/../000001/f.txt") true [0x41] false in
  (process_zip jisx0201 home (parse (py "000001.zip")) (Ok [m])
     (parse (py "out")) home_fs).2 !! (home ++ [py "out"; py "other"])
  = Some Dir.
Proof. vm_compute. reflexivity. Qed.

End ExtractFacts.

(** ** The sanitized archive stem *)

Module StemFacts.
Import PurePath Unzip.

Lemma rev_reverse {A} (l : list A) : rev l = reverse l.
Proof. unfold reverse. by rewrite rev_alt. Qed.

Lemma lstrip_spec p s :
  exists l, s = l ++ lstrip p s /\ Forall (fun c => p c = true) l /\
            forall c, head (lstrip p s) = Some c -> p c = false.
Proof.
  induction s as [|c s (l & Hs & Hl & Hh)]; cbn.
  - exists []. by repeat split.
  - destruct (p c) eqn:Hp.
    + exists (c :: l). cbn. rewrite <- Hs. by repeat split; [constructor|].
    + exists []. repeat split; [constructor|]. cbn. by intros ? [= <-].
Qed.

Lemma rstrip_spec p s :
  exists r, s = rstrip p s ++ r /\ Forall (fun c => p c = true) r /\
            forall c, last (rstrip p s) = Some c -> p c = false.
Proof.
  unfold rstrip. destruct (lstrip_spec p (rev s)) as (l & Hs & Hl & Hh).
  exists (rev l). repeat split.
  - rewrite <- rev_app_distr, <- Hs. by rewrite rev_involutive.
  - rewrite rev_reverse. by apply Forall_reverse.
  - intros c. rewrite rev_reverse, last_reverse. apply Hh.
Qed.

Lemma strip_spec p s :
  exists l r, s = l ++ strip p s ++ r /\
              Forall (fun c => p c = true) l /\ Forall (fun c => p c = true) r /\
              trimmed p (strip p s).
Proof.
  unfold strip. destruct (lstrip_spec p s) as (l & Hs & Hl & Hh).
  destruct (rstrip_spec p (lstrip p s)) as (r & Hr & Hrr & Hlast).
  exists l, r. repeat split; try done.
  - by rewrite <- Hr.
  - intros c Hc. apply Hh. rewrite Hr.
    destruct (rstrip p (lstrip p s)); [done|]. done.
Qed.

Lemma sub_reserved_in_run s :
  sub_reserved true s = sub_reserved false (lstrip is_reserved s).
Proof.
  induction s as [|c s IH]; cbn; [done|].
  destruct (is_reserved c) eqn:Hc; [done|]. cbn. by rewrite Hc.
Qed.

Lemma sub_reserved_collapsed s : collapsed s (sub_reserved false s).
Proof.
  induction s as [s IH] using (induction_ltof1 _ (@length Z)).
  unfold ltof in IH. destruct s as [|c s]; cbn; [constructor|].
  destruct (is_reserved c) eqn:Hc.
  - rewrite sub_reserved_in_run.
    destruct (lstrip_spec is_reserved s) as (l & Hs & Hl & Hh).
    rewrite Hs at 1. change (c :: l ++ lstrip is_reserved s)
      with ((c :: l) ++ lstrip is_reserved s).
    apply collapsed_run; [done|by constructor|done|].
    apply IH. rewrite Hs at 2. cbn. rewrite length_app. lia.
  - apply collapsed_keep; [done|]. apply IH. cbn. lia.
Qed.

(** C9 (as amended): every maximal run of the characters backslash,
    slash, colon, asterisk, question mark, double quote, angle
    brackets and bar becomes one underscore; white space is then
    stripped from both ends, and after it dots are stripped from both
    ends (white space the dots were hiding stays); an empty result
    gives the placeholder zip. *)
Theorem safe_folder_name_runs_then_space_then_dots name :
  exists replaced ws1 ws2 inner d1 d2 core,
    collapsed name replaced /\
    replaced = ws1 ++ inner ++ ws2 /\
    Forall (fun c => isspace c = true) ws1 /\
    Forall (fun c => isspace c = true) ws2 /\
    trimmed isspace inner /\
    inner = d1 ++ core ++ d2 /\
    Forall (fun c => c = DOT) d1 /\
    Forall (fun c => c = DOT) d2 /\
    trimmed is_dot core /\
    safe_folder_name name = match core with [] => FALLBACK_NAME | _ => core end.
Proof.
  destruct (strip_spec isspace (sub_reserved false name))
    as (ws1 & ws2 & Hw & Hw1 & Hw2 & Htw).
  destruct (strip_spec is_dot (strip isspace (sub_reserved false name)))
    as (d1 & d2 & Hd & Hd1 & Hd2 & Htd).
  exists (sub_reserved false name), ws1, ws2,
    (strip isspace (sub_reserved false name)), d1, d2,
    (strip is_dot (strip isspace (sub_reserved false name))).
  split_and!; try done.
  - apply sub_reserved_collapsed.
  - eapply Forall_impl; [exact Hd1|]. intros c. unfold is_dot. lia.
  - eapply Forall_impl; [exact Hd2|]. intros c. unfold is_dot. lia.
Qed.

(** C9, as it is stated, fails on two counts: a run of two colons
    gives one underscore, not two; and a dot in front of a space is
    stripped without the space. *)
Lemma safe_folder_name_not_as_stated :
  safe_folder_name (py "a::b") = py "a_b" /\
  safe_folder_name_as_stated (py "a::b") = py "a__b" /\
  safe_folder_name (py ". a") = py " a" /\
  safe_folder_name_as_stated (py ". a") = py "a" /\
  safe_folder_name (py "a::b") <> safe_folder_name_as_stated (py "a::b") /\
  safe_folder_name (py ". a") <> safe_folder_name_as_stated (py ". a").
Proof. split_and!; try reflexivity; vm_compute; discriminate. Qed.

End StemFacts.

(** ** The Archive Fetcher: deduplication and file names *)

Module NamingFacts.
Import PurePath FS Download.

Lemma digits_fuel_length_ge fuel n acc :
  (length acc <= length (digits_fuel fuel n acc))%nat.
Proof.
  revert n acc. induction fuel as [|f IH]; intros n acc; cbn; [lia|].
  destruct (n <? 10); [cbn; lia|].
  etransitivity; [|apply IH]. cbn. lia.
Qed.

Lemma digits_fuel_length_gt f n acc :
  (S (length acc) <= length (digits_fuel (S f) n acc))%nat.
Proof.
  cbn. destruct (n <? 10); [cbn; lia|].
  etransitivity; [|apply digits_fuel_length_ge]. cbn. lia.
Qed.

Lemma digits_fuel_length_mono fuel : forall fuel' n m acc acc',
  0 <= n <= m -> n < Z.of_nat fuel -> m < Z.of_nat fuel' ->
  length acc = length acc' ->
  (length (digits_fuel fuel n acc) <= length (digits_fuel fuel' m acc'))%nat.
Proof.
  induction fuel as [|f IH]; intros fuel' n m acc acc' Hnm Hn Hm Hacc; [lia|].
  destruct fuel' as [|f']; [lia|].
  cbn [digits_fuel]. cbv zeta.
  destruct (n <? 10) eqn:Hn10.
  - cbn [length]. rewrite Hacc.
    apply (digits_fuel_length_gt f' m acc').
  - destruct (m <? 10) eqn:Hm10; [lia|].
    apply IH; cbn [length]; try lia.
    + split; [apply Z.div_pos; lia|]. apply Z.div_le_mono; lia.
    + apply Z.div_lt_upper_bound; lia.
    + apply Z.div_lt_upper_bound; lia.
Qed.

Lemma str_of_nat_length_mono k n :
  (k <= n)%nat -> (length (str_of_nat k) <= length (str_of_nat n))%nat.
Proof.
  intros H. unfold str_of_nat. apply digits_fuel_length_mono; lia.
Qed.

Lemma decimal_value_digits fuel : forall n acc,
  0 <= n < Z.of_nat fuel ->
  fold_left (fun v c => 10 * v + (c - 0x30)) (digits_fuel fuel n acc) 0
  = fold_left (fun v c => 10 * v + (c - 0x30)) acc n.
Proof.
  induction fuel as [|f IH]; intros n acc Hn; [lia|].
  cbn [digits_fuel]. cbv zeta. destruct (n <? 10) eqn:Hn10.
  - cbn [fold_left]. f_equal. rewrite Z.mod_small by lia. lia.
  - rewrite IH.
    + cbn [fold_left]. f_equal.
      pose proof (Z.div_mod n 10 ltac:(lia)). lia.
    + split; [apply Z.div_pos; lia|]. apply Z.div_lt_upper_bound; lia.
Qed.

Lemma digits_fuel_canonical fuel : forall n acc,
  0 <= n < Z.of_nat fuel ->
  exists ds, digits_fuel fuel n acc = ds ++ acc /\
    Forall (fun c => 0x30 <= c <= 0x39) ds /\
    ((n = 0 /\ ds = [0x30]) \/
     (0 < n /\ exists c ds', ds = c :: ds' /\ c <> 0x30)).
Proof.
  induction fuel as [|f IH]; intros n acc Hn; [lia|].
  cbn [digits_fuel]. cbv zeta. destruct (n <? 10) eqn:Hn10.
  - exists [0x30 + n mod 10]. rewrite Z.mod_small by lia. split; [done|].
    split; [repeat constructor; lia|].
    destruct (decide (n = 0)) as [->|Hne]; [by left|].
    right. split; [lia|]. exists (48 + n), []. split; [done|lia].
  - destruct (IH (n / 10) ((0x30 + n mod 10) :: acc)) as (ds & -> & Hds & Hhead).
    { split; [apply Z.div_pos; lia|]. apply Z.div_lt_upper_bound; lia. }
    exists (ds ++ [0x30 + n mod 10]). split; [by rewrite <- app_assoc|].
    split.
    + apply Forall_app. split; [done|].
      pose proof (Z.mod_pos_bound n 10 ltac:(lia)). repeat constructor; lia.
    + right. split; [lia|]. destruct Hhead as [[H0 _]|[_ (c & ds' & -> & Hc)]].
      * assert (10 <= n) by lia.
        pose proof (Z.div_le_lower_bound n 10 1 ltac:(lia) ltac:(lia)). lia.
      * exists c, (ds' ++ [0x30 + n mod 10]). by split.
Qed.

Lemma str_of_nat_canonical n : canonical_decimal (str_of_nat n).
Proof.
  unfold str_of_nat.
  destruct (digits_fuel_canonical (S n) (Z.of_nat n) []) as (ds & -> & Hds & Hh);
    [lia|].
  rewrite app_nil_r. split; [done|].
  destruct Hh as [[_ ->]|[_ H]]; [by left | by right].
Qed.

Lemma decimal_value_str_of_nat n : decimal_value (str_of_nat n) = Z.of_nat n.
Proof.
  unfold decimal_value, str_of_nat. rewrite decimal_value_digits by lia. done.
Qed.

(** *** The deduplication loop *)

Lemma dedup_from_elem seen l u :
  u ∈ (dedup_from seen l).*2 <-> u ∈ l.*2 /\ u ∉ seen.
Proof.
  revert seen. induction l as [|[t z] l IH]; intros seen; cbn.
  - split; [by intros ?%elem_of_nil | by intros [?%elem_of_nil _]].
  - case_bool_decide as Hz.
    + rewrite IH, elem_of_cons. cbn. split; [tauto|].
      intros [[->|?] ?]; tauto.
    + cbn. rewrite !elem_of_cons, IH, elem_of_union, elem_of_singleton.
      destruct (decide (u = z)) as [->|Hne]; tauto.
Qed.

Lemma dedup_from_NoDup seen l : NoDup (dedup_from seen l).*2.
Proof.
  revert seen. induction l as [|[t z] l IH]; intros seen; cbn.
  - constructor.
  - case_bool_decide as Hz; [apply IH|].
    cbn. constructor; [|apply IH].
    rewrite dedup_from_elem, elem_of_union, elem_of_singleton. tauto.
Qed.

Lemma dedup_from_sublist seen l : dedup_from seen l `sublist_of` l.
Proof.
  revert seen. induction l as [|[t z] l IH]; intros seen; cbn.
  - constructor.
  - case_bool_decide; [by apply sublist_cons | by apply sublist_skip].
Qed.

Lemma dedup_from_first seen l t u :
  (t, u) ∈ dedup_from seen l ->
  exists l1 l2, l = l1 ++ (t, u) :: l2 /\ u ∉ l1.*2.
Proof.
  revert seen. induction l as [|[t' z] l IH]; intros seen; cbn.
  - by intros ?%elem_of_nil.
  - case_bool_decide as Hz.
    + intros Hin. assert (Hu : u ∉ seen).
      { assert (u ∈ (dedup_from seen l).*2) as [_ ?]%dedup_from_elem; [|done].
        apply list_elem_of_fmap. by exists (t, u). }
      destruct (IH _ Hin) as (l1 & l2 & -> & Hl1).
      exists ((t', z) :: l1), l2. split; [done|]. cbn.
      rewrite not_elem_of_cons. split; [congruence|done].
    + intros [[= -> ->]|Hin]%elem_of_cons.
      * exists [], l. split; [done|]. cbn. apply not_elem_of_nil.
      * assert (Hu : u ∉ ({[z]} ∪ seen : gset (list Z))).
        { assert (u ∈ (dedup_from ({[z]} ∪ seen) l).*2) as [_ ?]%dedup_from_elem;
            [|done].
          apply list_elem_of_fmap. by exists (t, u). }
        destruct (IH _ Hin) as (l1 & l2 & -> & Hl1).
        exists ((t', z) :: l1), l2. split; [done|]. cbn.
        rewrite not_elem_of_cons. split; [|done]. cbn. intros ->.
        apply Hu, elem_of_union. left. by apply elem_of_singleton.
Qed.

(** *** The names *)

Lemma name_from_lookup i w zips k :
  name_from i w zips !! k
  = (fun e => (out_name (i + k) w, e.2)) <$> zips !! k.
Proof.
  revert i k. induction zips as [|[t u] zips IH]; intros i k; cbn; [done|].
  destruct k as [|k]; cbn.
  - by rewrite Nat.add_0_r.
  - rewrite IH. by rewrite Nat.add_succ_r.
Qed.

Lemma name_from_urls i w zips : (name_from i w zips).*2 = zips.*2.
Proof.
  revert i. induction zips as [|[t u] zips IH]; intros i; cbn; [done|].
  by rewrite IH.
Qed.

Lemma download_plan_urls all_zips :
  (download_plan all_zips).*2 = (unique_zips all_zips).*2.
Proof. apply name_from_urls. Qed.

(** C6: the file of the URL at position [file_id] (from 1) of the
    deduplicated list is named by the decimal numeral of [file_id],
    padded with zeros on the left to exactly max(6, digits of the
    length of the list) characters, followed by .zip; the list keeps
    the first occurrence of every URL, in the order of collection; and
    every URL that was collected, however often, has exactly one file. *)
Theorem files_named_by_position all_zips k title url :
  unique_zips all_zips !! k = Some (title, url) ->
  let total := length (unique_zips all_zips) in
  let file_id := S k in
  (exists zeros,
      download_plan all_zips !! k
        = Some (zeros ++ str_of_nat file_id ++ ZIP_EXT, url) /\
      Forall (eq 0x30) zeros /\
      length (zeros ++ str_of_nat file_id)
        = Nat.max 6 (length (str_of_nat total))) /\
  canonical_decimal (str_of_nat file_id) /\
  decimal_value (str_of_nat file_id) = Z.of_nat file_id /\
  (exists l1 l2, all_zips = l1 ++ (title, url) :: l2 /\ url ∉ l1.*2) /\
  unique_zips all_zips `sublist_of` all_zips /\
  (forall u, u ∈ all_zips.*2 ->
     exists i n, download_plan all_zips !! i = Some (n, u) /\
       forall j n', download_plan all_zips !! j = Some (n', u) -> j = i).
Proof.
  intros Hk total file_id. split_and!.
  - exists (repeat 0x30 (width total - length (str_of_nat file_id))).
    split_and!.
    + unfold download_plan. rewrite name_from_lookup, Hk. cbn.
      unfold out_name, format_0d. by rewrite <- app_assoc.
    + apply Forall_forall. intros c Hc%list_elem_of_In.
      symmetry. by eapply repeat_spec.
    + rewrite length_app, repeat_length. unfold width.
      assert (length (str_of_nat file_id) <= length (str_of_nat total))%nat.
      { apply str_of_nat_length_mono. apply lookup_lt_Some in Hk.
        unfold file_id, total. lia. }
      lia.
  - apply str_of_nat_canonical.
  - apply decimal_value_str_of_nat.
  - eapply dedup_from_first. eapply list_elem_of_lookup_2. exact Hk.
  - apply dedup_from_sublist.
  - intros u Hu.
    assert (Hin : u ∈ (download_plan all_zips).*2).
    { rewrite download_plan_urls. apply dedup_from_elem.
      split; [done|]. apply not_elem_of_empty. }
    apply list_elem_of_lookup in Hin as [i Hi].
    rewrite list_lookup_fmap in Hi.
    destruct (download_plan all_zips !! i) as [[n u']|] eqn:Hp; [|done].
    cbn in Hi. injection Hi as ->. exists i, n. split; [done|].
    intros j n' Hj.
    pose proof (dedup_from_NoDup ∅ all_zips) as Hnd.
    fold (unique_zips all_zips) in Hnd. rewrite <- download_plan_urls in Hnd.
    eapply NoDup_lookup; [exact Hnd| |].
    + rewrite list_lookup_fmap, Hj. done.
    + rewrite list_lookup_fmap, Hp. done.
Qed.

Lemma files_named_by_position_witness :
  let all_zips := [(py "A", py "u1"); (py "B", py "u2"); (py "C", py "u1")] in
  download_plan all_zips
    = [(py "000001.zip", py "u1"); (py "000002.zip", py "u2")] /\
  exists zeros,
    download_plan all_zips !! 1%nat
      = Some (zeros ++ str_of_nat 2 ++ ZIP_EXT, py "u2") /\
    Forall (eq 0x30) zeros /\
    length (zeros ++ str_of_nat 2)
      = Nat.max 6 (length (str_of_nat (length (unique_zips all_zips)))).
Proof.
  cbv zeta. split; [reflexivity|].
  apply (files_named_by_position
           [(py "A", py "u1"); (py "B", py "u2"); (py "C", py "u1")]
           1 (py "B") (py "u2")).
  reflexivity.
Defined.

End NamingFacts.

(** ** The Archive Fetcher: downloads *)

Module DownloadFacts.
Import PurePath FS FSFacts ExtractFacts Download.

Lemma walk_app s cur a b :
  walk s cur (a ++ b)
  = match walk s cur a with
    | Ok c => walk s c b
    | Raise e => Raise e
    end.
Proof.
  revert cur. induction a as [|x a IH]; intros cur; cbn; [done|].
  destruct (node_at s cur) as [[|d]|]; [apply IH|done|done].
Qed.

Lemma parts_snoc p :
  parts p <> [] -> parts p = parts (parent p) ++ [name p].
Proof. intros H. cbn. by apply app_removelast_last. Qed.

(** Whatever can be looked up lies in a directory. *)
Lemma stat_parent_is_dir s cwd p n :
  stat s cwd p = Ok n -> is_dir s cwd (parent p) = true.
Proof.
  unfold is_dir, stat, locate. change (start cwd (parent p)) with (start cwd p).
  destruct (node_at s (start cwd p)) as [[|d]|] eqn:Hs; try done.
  destruct (decide (parts p = [])) as [Hnil|Hne].
  - intros _. cbn. rewrite Hnil. cbn. by rewrite Hs.
  - rewrite (parts_snoc p Hne) at 1. rewrite walk_app.
    destruct (walk s (start cwd p) (parts (parent p))) as [c|]; [|done].
    cbn. destruct (node_at s c) as [[|d]|]; done.
Qed.

Lemma mkdir_parents_rev_unfold s cwd ab rparts :
  mkdir_parents_rev s cwd ab rparts
  = match os_mkdir s cwd (Path ab (rev rparts)) with
    | Ok s' => (Ok tt, s')
    | Raise (OSError ENOENT) =>
        match rparts with
        | [] => (Raise (OSError ENOENT), s)
        | _ :: rp =>
            match mkdir_parents_rev s cwd ab rp with
            | (Ok _, s1) => mkdir_exist_ok s1 cwd (Path ab (rev rparts))
            | (Raise e, s1) => (Raise e, s1)
            end
        end
    | Raise e =>
        if is_dir s cwd (Path ab (rev rparts)) then (Ok tt, s) else (Raise e, s)
    end.
Proof. by destruct rparts. Qed.

(** Making a directory that is there changes nothing. *)
Lemma mkdir_parents_existing s cwd p :
  is_dir s cwd p = true -> mkdir_parents s cwd p = (Ok tt, s).
Proof.
  intros Hd. unfold mkdir_parents. rewrite mkdir_parents_rev_unfold.
  rewrite rev_involutive. replace (Path (absolute p) (parts p)) with p by (by destruct p).
  rewrite Hd. unfold is_dir, stat in Hd. unfold os_mkdir.
  destruct (locate s cwd p) as [l|]; [|done].
  destruct (node_at s l) as [[|d]|]; done.
Qed.

(** The temporary path is the destination with [.part] added to its
    name. *)
Lemma suffix_of_name_drop n :
  take (length n - length (suffix_of_name n)) n ++ suffix_of_name n = n.
Proof.
  unfold suffix_of_name. case_match eqn:Hc.
  - rewrite length_drop.
    replace (length n - (length n - Z.to_nat (rfind DOT n)))%nat
      with (Z.to_nat (rfind DOT n)) by lia.
    apply take_drop.
  - cbn. rewrite Nat.sub_0_r, firstn_all. apply app_nil_r.
Qed.

Lemma with_suffix_part p tmp :
  with_suffix p (suffix p ++ PART_EXT) = Ok tmp ->
  name p <> [] /\ tmp = Path (absolute p) (parts (parent p) ++ [name p ++ PART_EXT]).
Proof.
  unfold with_suffix. repeat (case_match; try discriminate).
  all: intros [= <-].
  all: match goal with H : str_eqb (name _) [] = false |- _ =>
         apply bool_decide_eq_false in H end.
  all: split; [done|]; f_equal; cbn [parent parts]; do 2 f_equal.
  - match goal with H : str_eqb (suffix _) [] = true |- _ =>
      apply bool_decide_eq_true in H; by rewrite H end.
  - unfold suffix. rewrite app_assoc. f_equal. apply suffix_of_name_drop.
Qed.

Lemma step_part c n : step c (n ++ PART_EXT) = c ++ [n ++ PART_EXT].
Proof.
  unfold step, str_eqb. rewrite bool_decide_eq_false_2; [done|].
  intros H. apply (f_equal length) in H. rewrite length_app in H. cbn in H. lia.
Qed.

Lemma resolve_snoc cwd ab init x :
  resolve cwd (Path ab (init ++ [x])) = step (resolve cwd (Path ab init)) x.
Proof. unfold resolve, normalize. cbn. by rewrite fold_left_app. Qed.

Lemma length_removelast {A} (l : list A) : (length (removelast l) <= length l)%nat.
Proof. induction l as [|a [|b l] IH]; cbn in *; lia. Qed.

Lemma resolve_parent_name cwd p :
  parts p <> [] -> resolve cwd p = step (resolve cwd (parent p)) (name p).
Proof.
  intros Hp. unfold resolve, normalize.
  change (start cwd (parent p)) with (start cwd p).
  rewrite (parts_snoc p Hp) at 1. by rewrite fold_left_app.
Qed.

Lemma tmp_is_not_destination cwd p tmp :
  with_suffix p (suffix p ++ PART_EXT) = Ok tmp ->
  resolve cwd tmp <> resolve cwd p.
Proof.
  intros [Hn ->]%with_suffix_part.
  assert (Hp : parts p <> []) by (intros H; apply Hn; unfold name; by rewrite H).
  rewrite (resolve_parent_name cwd p Hp), resolve_snoc, step_part.
  change (Path (absolute p) (parts (parent p))) with (parent p).
  set (c := resolve cwd (parent p)). unfold step. case_match.
  - intros E. apply (f_equal length) in E. rewrite length_app in E.
    cbn [length] in E. pose proof (length_removelast c). lia.
  - intros E%app_inv_head. injection E as E.
    apply (f_equal length) in E. rewrite length_app in E. cbn in E. lia.
Qed.

Lemma final_cons w0 w tr : final w0 (w :: tr) = final w tr.
Proof.
  unfold final. revert w0 w. induction tr as [|w' tr IH]; intros w0 w; [done|].
  change (List.last (w :: w' :: tr) w0) with (List.last (w' :: tr) w0).
  by rewrite (IH w0 w'), (IH w w').
Qed.

Lemma final_snoc w0 tr w : final w0 (tr ++ [w]) = w.
Proof. apply last_last. Qed.

(** The loop over the chunks writes to the open file and nowhere
    else, and leaves all the chunks in it. *)
Lemma write_chunks_spec l cs : forall w d0,
  files w !! l = Some (File d0) ->
  files (final w (write_chunks l cs w)) !! l = Some (File (d0 ++ concat cs)) /\
  Forall (fun w' => forall q, q <> l -> files w' !! q = files w !! q)
    (write_chunks l cs w).
Proof.
  induction cs as [|chunk cs IH]; intros w d0 Hl.
  - cbn. rewrite app_nil_r. by split.
  - destruct chunk as [|b chunk]; [by apply IH|].
    change (write_chunks l ((b :: chunk) :: cs) w)
      with (World (append (files w) l (b :: chunk)) (requests w)
              :: write_chunks l cs
                   (World (append (files w) l (b :: chunk)) (requests w))).
    change (concat ((b :: chunk) :: cs)) with ((b :: chunk) ++ concat cs).
    rewrite final_cons.
    remember (World (append (files w) l (b :: chunk)) (requests w)) as w' eqn:Ew'.
    assert (Hw' : files w' = <[l := File (d0 ++ b :: chunk)]> (files w)).
    { rewrite Ew'. unfold append. cbn. by rewrite Hl. }
    destruct (IH w' (d0 ++ b :: chunk)) as [Hfin Hall].
    { rewrite Hw'. apply lookup_insert_eq. }
    split; [by rewrite Hfin, <- app_assoc|].
    constructor.
    + intros q Hq. rewrite Hw'. by apply lookup_insert_ne.
    + eapply Forall_impl; [exact Hall|]. cbn. intros w'' H q Hq.
      rewrite H by done. rewrite Hw'. by apply lookup_insert_ne.
Qed.

Lemma open_w_Ok s cwd p l s1 :
  open_w s cwd p = (Ok l, s1) ->
  l = resolve cwd p /\ s1 = <[resolve cwd p := File []]> s.
Proof.
  unfold open_w. destruct (locate s cwd p) as [l0|] eqn:Hl; [|done].
  apply locate_resolve in Hl as ->.
  destruct (node_at s (resolve cwd p)) as [[|?]|]; [done| |]; by intros [= <- <-].
Qed.

Lemma replace_file_Ok s cwd src dst s' :
  replace_file s cwd src dst = (Ok tt, s') ->
  exists d, node_at s (resolve cwd src) = Some (File d) /\
            s' = <[resolve cwd dst := File d]> (delete (resolve cwd src) s).
Proof.
  unfold replace_file.
  destruct (locate s cwd src) as [ls|] eqn:Hs; [|done].
  destruct (locate s cwd dst) as [ld|] eqn:Hd; [|done].
  apply locate_resolve in Hs as ->. apply locate_resolve in Hd as ->.
  destruct (node_at s (resolve cwd src)) as [[|d]|]; [| |done].
  - by destruct (node_at s (resolve cwd dst)) as [[|?]|].
  - destruct (node_at s (resolve cwd dst)) as [[|?]|]; [done| |];
      intros [= <-]; eauto.
Qed.

Section WithNetwork.
Variable net : list str -> str -> result response.
Variable cwd : list str.
Variable dir_size : Z.

Local Abbreviation download := (download_file net cwd dir_size).

(** C7: the body goes to the destination path with [.part] added
    to its name, a path that is not the destination; in every world
    the download goes through, the destination holds the file it
    held before (or none, as before) or the whole body of a response
    whose stream ended well; and when the download is reported the
    destination holds the whole body and the temporary file is gone. *)
Theorem destination_never_partial url out_path w :
  let out := resolve cwd out_path in
  let run := download url out_path w in
  let complete w' :=
    exists r, net (requests w) url = Ok r /\ status_ok r = true /\
              stream_fails r = false /\
              file_at (files w') out = Some (concat (chunks r)) in
  (forall tmp_path, with_suffix out_path (suffix out_path ++ PART_EXT) = Ok tmp_path ->
     tmp_path = Path (absolute out_path)
                  (parts (parent out_path) ++ [name out_path ++ PART_EXT]) /\
     resolve cwd tmp_path <> out) /\
  (forall w', w' ∈ run.2 ->
     file_at (files w') out = file_at (files w) out \/ complete w') /\
  (forall nm, run.1 = Ok (Downloaded nm) ->
     complete (final w run.2) /\
     forall tmp_path,
       with_suffix out_path (suffix out_path ++ PART_EXT) = Ok tmp_path ->
       files (final w run.2) !! resolve cwd tmp_path = None).
Proof.
  intros out run complete.
  split; [intros tmp Ht; split;
          [by apply with_suffix_part in Ht as [_ ?]
          | by apply tmp_is_not_destination]|].
  unfold run, download_file.
  destruct (mkdir_parents (files w) cwd (parent out_path)) as [[u|e] s1] eqn:Hm;
    pose proof (dirs_added_file_at _ _ out (mkdir_parents_added _ _ _ _ _ Hm))
      as H1; cbn [fst snd].
  2:{ split; [|done]. intros w' ->%list_elem_of_singleton. by left. }
  set (w1 := World s1 (requests w)). set (w2 := World s1 (requests w ++ [url])).
  assert (Hw1 : forall w', w' ∈ [w1] ->
            file_at (files w') out = file_at (files w) out \/ complete w').
  { intros w' ->%list_elem_of_singleton. by left. }
  assert (Hw12 : forall w', w' ∈ [w1; w2] ->
            file_at (files w') out = file_at (files w) out \/ complete w').
  { intros w' [-> | ->%list_elem_of_singleton]%elem_of_cons; by left. }
  destruct (exists_ s1 cwd out_path && _); [by split|].
  destruct (net (requests w) url) as [r|e] eqn:Hnet; [|by split].
  destruct (status_ok r) eqn:Hstatus; cbn [negb]; [|by split].
  destruct (with_suffix out_path (suffix out_path ++ PART_EXT))
    as [tmp_path|e] eqn:Htmp; [|by split].
  pose proof (tmp_is_not_destination cwd _ _ Htmp) as Hne. fold out in Hne.
  destruct (open_w s1 cwd tmp_path) as [[l|e] s3] eqn:Ho; [|by split].
  apply open_w_Ok in Ho as [-> Hs3].
  set (l := resolve cwd tmp_path) in *.
  set (w3 := World s3 (requests w2)).
  assert (Hl3 : files w3 !! l = Some (File [])).
  { cbn. rewrite Hs3. apply lookup_insert_eq. }
  assert (H3 : file_at (files w3) out = file_at (files w) out).
  { cbn. rewrite <- H1, Hs3. unfold file_at. by rewrite lookup_insert_ne. }
  destruct (write_chunks_spec l (chunks r) w3 [] Hl3) as [Hfin Hall].
  cbn [app] in Hfin.
  assert (Htr : forall w', w' ∈ [w1; w2; w3] ++ write_chunks l (chunks r) w3 ->
            file_at (files w') out = file_at (files w) out \/ complete w').
  { intros w' [Hin|Hin]%elem_of_app.
    - apply elem_of_cons in Hin as [->|Hin]; [by left|].
      apply elem_of_cons in Hin as [-> | ->%list_elem_of_singleton]; by left.
    - left. rewrite Forall_forall in Hall. specialize (Hall w' Hin out).
      unfold file_at. rewrite Hall by done. exact H3. }
  destruct (stream_fails r) eqn:Hstream; [by split|].
  destruct (replace_file _ cwd tmp_path out_path) as [[u5|e] s5] eqn:Hr;
    [destruct u5|by split].
  apply replace_file_Ok in Hr as (d & Hd & ->). fold l out in Hd |- *.
  assert (d = concat (chunks r)) as ->.
  { apply node_at_file_nonroot in Hd as [_ Hd]. congruence. }
  assert (Hdone : complete (World (<[out := File (concat (chunks r))]>
                     (delete l (files (final w3 (write_chunks l (chunks r) w3)))))
                     (requests (final w3 (write_chunks l (chunks r) w3))))).
  { exists r. split_and!; try done. cbn. unfold file_at.
    by rewrite lookup_insert_eq. }
  split.
  - intros w'. rewrite app_assoc. intros [Hin | ->%list_elem_of_singleton]%elem_of_app;
      [by apply Htr | by right].
  - intros nm _. cbn [snd]. rewrite app_assoc, final_snoc. split; [done|].
    intros tmp' [= <-]. cbn [files]. fold l.
    rewrite lookup_insert_ne by done. apply lookup_delete_eq.
Qed.

Lemma download_present url out_path w n :
  stat (files w) cwd out_path = Ok n ->
  0 < st_size dir_size n ->
  download url out_path w = (Ok (Skip (name out_path)), [w]).
Proof.
  intros Hstat Hsize. unfold download_file.
  rewrite (mkdir_parents_existing _ _ _ (stat_parent_is_dir _ _ _ _ Hstat)).
  unfold exists_. rewrite Hstat. cbn [andb].
  replace (0 <? st_size dir_size n) with true by lia.
  by destruct w.
Qed.

(** C8: a download whose destination exists with a size that is
    not zero sends no request and leaves the world as it is, files
    and requests; hence when every file of the plan is there and not
    empty, the download loop of [main] sends no request, changes no
    file, and prints one skip for every file. *)
Theorem existing_downloads_are_skipped :
  (forall url out_path w n,
     stat (files w) cwd out_path = Ok n ->
     0 < st_size dir_size n ->
     download url out_path w = (Ok (Skip (name out_path)), [w]) /\
     final w (download url out_path w).2 = w) /\
  (forall all_zips w,
     (forall e, e ∈ download_plan all_zips ->
        exists n, stat (files w) cwd (joinpath (parse OUTPUT_DIR) e.1) = Ok n /\
                  0 < st_size dir_size n) ->
     main_downloads net cwd dir_size all_zips w
     = ((fun e => Skip (name (joinpath (parse OUTPUT_DIR) e.1)))
          <$> download_plan all_zips, w)).
Proof.
  split.
  - intros url out_path w n Hstat Hsize.
    rewrite (download_present _ _ _ _ Hstat Hsize). by split.
  - intros all_zips w. unfold main_downloads.
    generalize (download_plan all_zips) as plan. generalize (parse OUTPUT_DIR) as out_dir.
    intros out_dir plan. induction plan as [|[nm u] plan IH]; intros Hall; [done|].
    cbn [download_each].
    destruct (Hall (nm, u)) as (n & Hstat & Hsize); [apply elem_of_cons; by left|].
    cbn [fst] in Hstat. rewrite (download_present _ _ _ _ Hstat Hsize).
    cbn [final List.last]. rewrite IH; [done|].
    intros e He. apply Hall, elem_of_cons. by right.
Qed.

End WithNetwork.

(** *** A sample download *)

Lemma destination_never_partial_witness :
  exists r, sample_net (requests empty_world) (py "u") = Ok r /\
    status_ok r = true /\ stream_fails r = false /\
    file_at (files (final empty_world
               (download_file sample_net [py "home"] 4096 (py "u")
                  sample_out empty_world).2))
      (resolve [py "home"] sample_out)
    = Some (concat (chunks r)).
Proof.
  apply (proj2 (proj2 (destination_never_partial sample_net [py "home"] 4096
                         (py "u") sample_out empty_world))
           (py "000001.zip")).
  vm_compute. reflexivity.
Defined.

Lemma existing_downloads_are_skipped_witness :
  main_downloads sample_net [py "home"] 4096 [(py "A", py "u")] full_world
  = ([Skip (py "000001.zip")], full_world).
Proof.
  apply (proj2 (existing_downloads_are_skipped sample_net [py "home"] 4096)
           [(py "A", py "u")] full_world).
  intros e He. apply (list_elem_of_singleton e) in He. subst e.
  exists (File [0x50; 0x4B]). split; [vm_compute; reflexivity | reflexivity].
Defined.

End DownloadFacts.

(** ** More on the sanitized stem and the destination directory *)

Module StemMore.
Import PurePath FS FSFacts PathFacts Unzip StemFacts DownloadFacts.

Lemma sub_reserved_clean b s :
  Forall (fun c => is_reserved c = false) (sub_reserved b s).
Proof.
  revert b. induction s as [|c s IH]; intros b; cbn; [constructor|].
  destruct (is_reserved c) eqn:Hc; [destruct b|]; try constructor; auto.
Qed.

Lemma strip_Forall (P : Z -> Prop) p s : Forall P s -> Forall P (strip p s).
Proof.
  intros H. destruct (strip_spec p s) as (l & r & Hs & _).
  rewrite Hs in H. apply Forall_app in H as [_ H]. by apply Forall_app in H as [H _].
Qed.

Lemma split_slash_clean s : SLASH ∉ s -> split_slash s = [s].
Proof.
  induction s as [|c s IH]; intros Hs; cbn; [done|].
  assert (c <> SLASH) by (intros ->; apply Hs, elem_of_cons; by left).
  replace (c =? SLASH) with false by lia.
  rewrite IH; [done|]. intros ?. apply Hs, elem_of_cons. by right.
Qed.

(** A name without a slash that is neither empty nor a dot is one
    relative component. *)
Lemma parse_single n :
  SLASH ∉ n -> n <> [] -> n <> [DOT] -> parse n = Path false [n].
Proof.
  intros Hs Hne Hd. unfold parse. rewrite (split_slash_clean n Hs). f_equal.
  - destruct n as [|c n]; [done|]. cbn [startswith].
    destruct (Z.eqb_spec SLASH c) as [<-|]; [|done].
    exfalso. apply Hs, elem_of_cons. by left.
  - cbn. unfold keep_part, str_eqb.
    rewrite !bool_decide_eq_false_2 by done. cbn.
    rewrite decide_True; done.
Qed.

Lemma safe_folder_name_shape name :
  safe_folder_name name <> [] /\
  Forall (fun c => is_reserved c = false) (safe_folder_name name) /\
  head (safe_folder_name name) <> Some DOT /\
  last (safe_folder_name name) <> Some DOT.
Proof.
  unfold safe_folder_name.
  destruct (strip_spec is_dot (strip isspace (sub_reserved false name)))
    as (_ & _ & _ & _ & _ & Hh & Hl).
  pose proof (strip_Forall _ is_dot _
                (strip_Forall _ isspace _ (sub_reserved_clean false name))) as Hc.
  destruct (strip is_dot (strip isspace (sub_reserved false name)))
    as [|c core] eqn:Hcore.
  - split_and!; try done. repeat constructor.
  - split_and!; try done.
    + intros E. specialize (Hh DOT E). unfold is_dot in Hh. lia.
    + intros E. specialize (Hl DOT E). unfold is_dot in Hl. lia.
Qed.

Lemma safe_folder_name_parse name :
  parse (safe_folder_name name) = Path false [safe_folder_name name].
Proof.
  destruct (safe_folder_name_shape name) as (Hne & Hc & Hh & Hl).
  apply parse_single; try done.
  - intros Hs. rewrite Forall_forall in Hc. by specialize (Hc SLASH Hs).
  - intros E. rewrite E in Hh. done.
Qed.

(** The destination directory of an archive is the folder of the
    sanitized stem, directly below the output root. *)
Lemma destination_below_root cwd out_root name :
  joinpath out_root (safe_folder_name name)
    = Path (absolute out_root) (parts out_root ++ [safe_folder_name name]) /\
  resolve cwd (joinpath out_root (safe_folder_name name))
    = resolve cwd out_root ++ [safe_folder_name name].
Proof.
  assert (Hj : joinpath out_root (safe_folder_name name)
               = Path (absolute out_root) (parts out_root ++ [safe_folder_name name])).
  { unfold joinpath. by rewrite safe_folder_name_parse. }
  split; [done|]. rewrite Hj, resolve_snoc.
  replace (Path (absolute out_root) (parts out_root)) with out_root
    by (by destruct out_root).
  unfold step, str_eqb. rewrite bool_decide_eq_false_2; [done|].
  destruct (safe_folder_name_shape name) as (_ & _ & Hh & _).
  intros E. rewrite E in Hh. done.
Qed.

(** X7 (safe_folder_name): the sanitized stem is a usable name of one
    folder: it is not empty, holds none of the nine characters of the
    pattern (no slash in particular), neither starts nor ends with a
    dot (so it is neither [.] nor [..]), and as a path it is one
    relative component. *)
Theorem safe_folder_name_is_one_component name :
  let r := safe_folder_name name in
  r <> [] /\
  Forall (fun c => is_reserved c = false) r /\
  head r <> Some DOT /\ last r <> Some DOT /\
  parse r = Path false [r].
Proof.
  intros r. destruct (safe_folder_name_shape name) as (? & ? & ? & ?).
  split_and!; try done. apply safe_folder_name_parse.
Qed.

End StemMore.

(** ** More on extraction: what is written, and what is kept *)

Module ExtractMore.
Import PurePath FS FSMore FSFacts PathFacts Unzip UnzipMore ConvertFacts
       ExtractFacts StemFacts DownloadFacts StemMore.

Lemma kinds_kept_refl s : kinds_kept s s.
Proof. intros l. destruct (s !! l) as [[|d]|]; eauto. Qed.

Lemma kinds_kept_trans s1 s2 s3 :
  kinds_kept s1 s2 -> kinds_kept s2 s3 -> kinds_kept s1 s3.
Proof.
  intros H12 H23 l. specialize (H12 l). specialize (H23 l).
  destruct (s1 !! l) as [[|d]|]; [| |done].
  - by rewrite H12 in H23.
  - destruct H12 as [d' H12]. by rewrite H12 in H23.
Qed.

Lemma dirs_added_kinds s s' : dirs_added s s' -> kinds_kept s s'.
Proof.
  intros H l. destruct (H l) as [->|[Hn ->]].
  - destruct (s !! l) as [[|d]|]; eauto.
  - destruct l as [|c l]; [done|]. cbn in Hn. by rewrite Hn.
Qed.

Lemma insert_file_kinds s l d :
  node_at s l <> Some Dir -> kinds_kept s (<[l := File d]> s).
Proof.
  intros Hl l'. destruct (decide (l = l')) as [<-|Hne].
  - rewrite lookup_insert_eq. destruct l as [|c l]; [done|]. cbn in Hl.
    destruct (s !! (c :: l)) as [[|d']|]; eauto. done.
  - rewrite lookup_insert_ne by done. destruct (s !! l') as [[|d']|]; eauto.
Qed.

Lemma kinds_kept_dirs s s' : kinds_kept s s' -> dirs_kept s s'.
Proof.
  intros H l Hl. destruct l as [|c l]; [done|]. cbn in *.
  specialize (H (c :: l)). by rewrite Hl in H.
Qed.

Lemma kinds_kept_stat s s' cwd p n :
  kinds_kept s s' -> stat s cwd p = Ok n ->
  exists n', stat s' cwd p = Ok n' /\
    match n with Dir => n' = Dir | File _ => exists d, n' = File d end.
Proof.
  intros Hk. unfold stat.
  destruct (locate s cwd p) as [l|] eqn:Hl; [|done].
  rewrite (locate_dirs_kept _ _ _ _ _ (kinds_kept_dirs _ _ Hk) Hl).
  destruct l as [|c l]; cbn.
  - intros [= <-]. eauto.
  - specialize (Hk (c :: l)). destruct (s !! (c :: l)) as [[|d]|]; [| |done];
      intros [= <-].
    + rewrite Hk. eauto.
    + destruct Hk as [d' ->]. eauto.
Qed.

(** [mkdir] that succeeds leaves a directory. *)
Lemma os_mkdir_is_dir s cwd p s' :
  os_mkdir s cwd p = Ok s' -> is_dir s' cwd p = true.
Proof.
  unfold os_mkdir, is_dir, stat.
  destruct (locate s cwd p) as [l|] eqn:Hl; [|done].
  destruct (node_at s l) eqn:Hn; [done|]. intros [= <-].
  assert (l <> []) by (intros ->; done).
  rewrite (locate_dirs_kept s _ cwd p l); [|apply dirs_kept_insert; congruence|done].
  by rewrite node_at_insert_eq.
Qed.

Lemma mkdir_exist_ok_is_dir s cwd p u s' :
  mkdir_exist_ok s cwd p = (Ok u, s') -> is_dir s' cwd p = true.
Proof.
  unfold mkdir_exist_ok. destruct (os_mkdir s cwd p) as [s1|e] eqn:Hm.
  - intros [= _ <-]. by eapply os_mkdir_is_dir.
  - destruct e as [[]| | | |]; try done;
      destruct (is_dir s cwd p) eqn:Hd; try done; by intros [= _ <-].
Qed.

Lemma mkdir_parents_is_dir s cwd p u s' :
  mkdir_parents s cwd p = (Ok u, s') -> is_dir s' cwd p = true.
Proof.
  unfold mkdir_parents. rewrite mkdir_parents_rev_unfold, rev_involutive.
  replace (Path (absolute p) (parts p)) with p by (by destruct p).
  destruct (os_mkdir s cwd p) as [s1|e] eqn:Hm.
  - intros [= _ <-]. by eapply os_mkdir_is_dir.
  - destruct e as [[]| | | |];
      try (destruct (is_dir s cwd p) eqn:Hd; try done; by intros [= _ <-]).
    destruct (rev (parts p)) as [|c rp]; [done|].
    destruct (mkdir_parents_rev s cwd (absolute p) rp) as [[?|?] s1]; [|done].
    apply mkdir_exist_ok_is_dir.
Qed.

Lemma join_app sep (a b : list str) :
  a <> [] -> b <> [] -> join sep (a ++ b) = join sep a ++ sep ++ join sep b.
Proof.
  intros Ha Hb. induction a as [|x a IH]; [done|].
  destruct a as [|y a].
  - destruct b; [done|]. done.
  - change ((x :: y :: a) ++ b) with (x :: y :: (a ++ b)).
    rewrite !join_cons_cons.
    change (y :: a ++ b) with ((y :: a) ++ b). rewrite IH by done.
    by rewrite <- !app_assoc.
Qed.

Lemma ensure_within_dir_returns cwd base target p :
  ensure_within_dir cwd base target = Ok p -> p = target.
Proof. unfold ensure_within_dir. destruct (_ && _); [done|]. by intros [= <-]. Qed.

Lemma open_w_locate s cwd p l s1 :
  open_w s cwd p = (Ok l, s1) ->
  locate s cwd p = Ok l /\ node_at s l <> Some Dir.
Proof.
  unfold open_w. destruct (locate s cwd p) as [l0|] eqn:Hl; [|done].
  destruct (node_at s l0) as [[|?]|] eqn:Hn; [done| |];
    intros [= <- _]; split; congruence.
Qed.

Section WithCodecs.
Variable codec : encoding -> bytes -> option str.
Variable cwd : list str.

Local Abbreviation extract := (extract_member cwd).
Local Abbreviation convert := (convert_text_file_in_place codec cwd).
Local Abbreviation members_loop := (process_members codec cwd).
Local Abbreviation destinations := (UnzipMore.destinations cwd).

(** Everything one call of [extract_member] can do to the file system:
    add directories, and then write the payload at the destination. *)
Lemma extract_member_effect m dest_dir s r s' :
  extract m dest_dir s = (r, s') ->
  let target := joinpath dest_dir (filename m) in
  let l := resolve cwd target in
  exists s1, dirs_added s s1 /\
    ((s' = s1 /\
      forall p, r = Ok p ->
        p = target /\ member_is_dir m = true /\ is_dir s' cwd p = true) \/
     (member_is_dir m = false /\ node_at s1 l <> Some Dir /\
      locate s1 cwd target = Ok l /\ s' = <[l := File (payload m)]> s1 /\
      forall p, r = Ok p -> p = target /\ read_fails m = false)).
Proof.
  intros He target l. unfold extract_member in He. fold target in He.
  destruct (ensure_within_dir cwd dest_dir target) as [p0|e] eqn:Hens.
  2:{ exists s. split; [apply dirs_added_refl|]. left.
      destruct (member_is_dir m); injection He as <- <-; by split. }
  apply ensure_within_dir_returns in Hens as ->.
  destruct (member_is_dir m) eqn:Hdir.
  - destruct (mkdir_parents s cwd target) as [[u|e] s1] eqn:Hm;
      injection He as <- <-; exists s1;
      (split; [by eapply mkdir_parents_added|]); left; (split; [done|]).
    + intros p [= <-]. split_and!; try done. by eapply mkdir_parents_is_dir.
    + done.
  - destruct (mkdir_parents s cwd (parent target)) as [[u|e] s1] eqn:Hm.
    2:{ injection He as <- <-. exists s1.
        split; [by eapply mkdir_parents_added|]. left. by split. }
    apply mkdir_parents_added in Hm. exists s1. split; [done|].
    destruct (opens m); cbn [negb] in He.
    2:{ injection He as <- <-. left. by split. }
    destruct (open_w s1 cwd target) as [[l0|e] s2] eqn:Ho.
    2:{ injection He as <- <-. apply open_w_Raise in Ho as ->. left. by split. }
    destruct (open_w_locate _ _ _ _ _ Ho) as [Hloc Hnd].
    destruct (open_w_append _ _ _ _ _ (payload m) Ho) as (-> & _ & Happ).
    fold l in Hloc, Hnd, Happ. right. split_and!; try done.
    + destruct (read_fails m); injection He as _ <-; done.
    + intros p ->. destruct (read_fails m); [done|]. by injection He as <-.
Qed.

Lemma convert_effect p s r s' :
  convert p s = (r, s') ->
  s' = s \/ exists d bs, node_at s (resolve cwd p) = Some (File d) /\
                         s' = <[resolve cwd p := File bs]> s.
Proof.
  intros Hc. apply convert_inv in Hc.
  inversion Hc as [|e Hext Hr|d text enc bs Hext Hr Hu Hd He
                  |d text enc Hext Hr Hu Hd He]; subst; [by left|by left| |];
    right; apply read_bytes_inv in Hr as [_ Hn]; eauto.
Qed.

Lemma extract_member_kinds m dest_dir s r s' :
  extract m dest_dir s = (r, s') ->
  kinds_kept s s' /\
  files_kept_but [resolve cwd (joinpath dest_dir (filename m))] s s'.
Proof.
  intros He. destruct (extract_member_effect _ _ _ _ _ He)
    as (s1 & Ha & [[-> _]|(_ & Hnd & _ & -> & _)]).
  - split; [by apply dirs_added_kinds|]. intros q _. by apply dirs_added_file_at.
  - split.
    + eapply kinds_kept_trans; [by apply dirs_added_kinds|].
      by apply insert_file_kinds.
    + intros q Hq. unfold file_at. rewrite lookup_insert_ne.
      * by apply dirs_added_file_at.
      * intros <-. apply Hq, elem_of_cons. by left.
Qed.

Lemma convert_kinds p s r s' :
  convert p s = (r, s') ->
  kinds_kept s s' /\ files_kept_but [resolve cwd p] s s'.
Proof.
  intros [->|(d & bs & Hn & ->)]%convert_effect.
  - split; [apply kinds_kept_refl | by intros q _].
  - split; [apply insert_file_kinds; congruence|].
    intros q Hq. unfold file_at. rewrite lookup_insert_ne; [done|].
    intros <-. apply Hq, elem_of_cons. by left.
Qed.

Lemma files_kept_but_trans k1 k2 s1 s2 s3 :
  files_kept_but k1 s1 s2 -> files_kept_but k2 s2 s3 ->
  files_kept_but (k1 ++ k2) s1 s3.
Proof.
  intros H1 H2 q Hq. rewrite H2, H1; [done| |];
    intros ?; apply Hq, elem_of_app; auto.
Qed.

Lemma files_kept_but_mono k k' s s' :
  (forall q, q ∈ k -> q ∈ k') -> files_kept_but k s s' -> files_kept_but k' s s'.
Proof. intros Hk H q Hq. apply H. intros ?. by apply Hq, Hk. Qed.

Lemma process_members_kinds dest_dir members : forall s,
  kinds_kept s (members_loop members dest_dir s).2 /\
  files_kept_but (destinations dest_dir members) s
    (members_loop members dest_dir s).2.
Proof.
  induction members as [|m rest IH]; intros s; cbn [process_members].
  - split; [apply kinds_kept_refl | by intros q _].
  - destruct (extract_member cwd m dest_dir s) as [r s1] eqn:He.
    destruct (extract_member_kinds _ _ _ _ _ He) as [K1 F1].
    set (t := resolve cwd (joinpath dest_dir (filename m))) in *.
    assert (Hgo : forall s2, kinds_kept s1 s2 -> files_kept_but [t] s1 s2 ->
              kinds_kept s (members_loop rest dest_dir s2).2 /\
              files_kept_but (destinations dest_dir (m :: rest)) s
                (members_loop rest dest_dir s2).2).
    { intros s2 K2 F2. destruct (IH s2) as [K3 F3]. split.
      - eapply kinds_kept_trans; [exact K1|]. by eapply kinds_kept_trans.
      - eapply files_kept_but_mono;
          [|exact (files_kept_but_trans _ _ _ _ _ F1
                     (files_kept_but_trans _ _ _ _ _ F2 F3))].
        intros q.
        change (destinations dest_dir (m :: rest))
          with (t :: destinations dest_dir rest).
        rewrite !elem_of_app, !elem_of_cons.
        intros [[-> | []%elem_of_nil]|[[-> | []%elem_of_nil]|?]]; auto. }
    assert (Hstop : forall s2, kinds_kept s1 s2 -> files_kept_but [t] s1 s2 ->
              kinds_kept s s2 /\
              files_kept_but (destinations dest_dir (m :: rest)) s s2).
    { intros s2 K2 F2. split; [by eapply kinds_kept_trans|].
      eapply files_kept_but_mono; [|exact (files_kept_but_trans _ _ _ _ _ F1 F2)].
      intros q.
      change (destinations dest_dir (m :: rest))
        with (t :: destinations dest_dir rest).
      rewrite !elem_of_app, !elem_of_cons.
      intros [[-> | []%elem_of_nil]|[-> | []%elem_of_nil]]; auto. }
    destruct r as [p|e].
    2:{ specialize (Hgo s1 (kinds_kept_refl _) (fun q _ => eq_refl)).
        by destruct (members_loop rest dest_dir s1) as [[? ?] ?]. }
    assert (Hp : p = joinpath dest_dir (filename m)).
    { destruct (extract_member_effect _ _ _ _ _ He)
        as (? & _ & [[_ H]|(_ & _ & _ & _ & H)]); by destruct (H p eq_refl). }
    destruct (is_file s1 cwd p).
    2:{ exact (Hgo s1 (kinds_kept_refl _) (fun q _ => eq_refl)). }
    destruct (convert p s1) as [rc s2] eqn:Hc.
    destruct (convert_kinds _ _ _ _ Hc) as [K2 F2]. rewrite Hp in F2. fold t in F2.
    specialize (Hgo s2 K2 F2). specialize (Hstop s2 K2 F2).
    destruct rc as [[used|]|e]; [| done |];
      (destruct (relative_to p dest_dir) as [rel|e']; [|done]);
      by destruct (members_loop rest dest_dir s2) as [[? ?] ?].
Qed.

(** X1 (process_zip): whatever the archive holds, nothing that was in
    the file system is removed and nothing changes its kind: a
    directory stays a directory, a regular file stays a regular file. *)
Theorem process_zip_removes_nothing zip_path archive out_root s :
  kinds_kept s (process_zip codec cwd zip_path archive out_root s).2.
Proof.
  unfold process_zip.
  destruct (mkdir_parents s cwd _) as [[u|e] s1] eqn:Hm; cbn [snd];
    pose proof (dirs_added_kinds _ _ (mkdir_parents_added _ _ _ _ _ Hm)) as K1;
    [|done].
  destruct archive as [members|e]; [|done].
  destruct (process_members_kinds (joinpath out_root
              (safe_folder_name (stem zip_path))) members s1) as [K2 _].
  destruct (members_loop _ _ s1) as [[log r] s2]. cbn [snd] in *.
  by eapply kinds_kept_trans.
Qed.

(** X2 (process_zip): the only regular files that are created or
    changed are at the destinations of the members of the archive;
    every other regular file, inside the destination directory or
    outside, keeps its bytes. *)
Theorem process_zip_writes_only_destinations zip_path members out_root s :
  let dest_dir := joinpath out_root (safe_folder_name (stem zip_path)) in
  files_kept_but (destinations dest_dir members) s
    (process_zip codec cwd zip_path (Ok members) out_root s).2.
Proof.
  intros dest_dir. unfold process_zip. fold dest_dir.
  destruct (mkdir_parents s cwd dest_dir) as [[u|e] s1] eqn:Hm; cbn [snd];
    pose proof (mkdir_parents_added _ _ _ _ _ Hm) as Ha.
  2:{ intros q _. by apply dirs_added_file_at. }
  destruct (process_members_kinds dest_dir members s1) as [_ F].
  destruct (members_loop members dest_dir s1) as [[log r] s2]. cbn [snd] in *.
  intros q Hq. rewrite F by done. by apply dirs_added_file_at.
Qed.

(** X3 (extract_member): a member that is not a directory and is
    extracted without error is a regular file holding the bytes of the
    member, all of them and nothing else. *)
Theorem extracted_file_reads_back m dest_dir s p s' :
  extract m dest_dir s = (Ok p, s') ->
  member_is_dir m = false ->
  p = joinpath dest_dir (filename m) /\
  read_bytes s' cwd p = Ok (payload m) /\
  is_file s' cwd p = true.
Proof.
  intros He Hdir.
  destruct (extract_member_effect _ _ _ _ _ He)
    as (s1 & _ & [[_ H]|(_ & Hnd & Hloc & -> & H)]).
  { destruct (H p eq_refl) as (_ & ? & _). congruence. }
  destruct (H p eq_refl) as [-> _]. split; [done|].
  set (l := resolve cwd _) in *.
  assert (l <> []) by (intros E; rewrite E in Hnd; done).
  assert (Hloc' : locate (<[l := File (payload m)]> s1) cwd
                    (joinpath dest_dir (filename m)) = Ok l).
  { eapply locate_dirs_kept; [|exact Hloc]. by apply dirs_kept_insert. }
  unfold read_bytes, is_file, stat. rewrite Hloc', node_at_insert_eq by done.
  done.
Qed.

(** X4 (extract_member): a directory member that is extracted without
    error is a directory afterwards, and no regular file has been
    created or changed for it. *)
Theorem extracted_directory_exists m dest_dir s p s' :
  extract m dest_dir s = (Ok p, s') ->
  member_is_dir m = true ->
  p = joinpath dest_dir (filename m) /\
  is_dir s' cwd p = true /\
  forall q, file_at s' q = file_at s q.
Proof.
  intros He Hdir.
  destruct (extract_member_effect _ _ _ _ _ He)
    as (s1 & Ha & [[-> H]|(? & _)]); [|congruence].
  destruct (H p eq_refl) as (-> & _ & Hd). split_and!; try done.
  intros q. by apply dirs_added_file_at.
Qed.

Lemma process_members_no_convert_error dest_dir members : forall s,
  (forall e d t, codec e d = Some t -> Forall Utf8.scalar t) ->
  forall p e, ConvertError p e ∉ (members_loop members dest_dir s).1.1.
Proof.
  induction members as [|m rest IH]; intros s Hsc p e; cbn [process_members].
  - apply not_elem_of_nil.
  - destruct (extract_member cwd m dest_dir s) as [r s1].
    destruct r as [p1|e1].
    2:{ specialize (IH s1 Hsc p e).
        destruct (members_loop rest dest_dir s1) as [[log r] s2]. cbn in *.
        rewrite not_elem_of_cons. by split. }
    destruct (is_file s1 cwd p1) eqn:Hf; [|by apply IH].
    destruct (convert p1 s1) as [rc s2] eqn:Hc.
    specialize (IH s2 Hsc p e).
    destruct rc as [[used|]|e2]; [| done |].
    + destruct (relative_to p1 dest_dir) as [rel|e']; [|apply not_elem_of_nil].
      destruct (members_loop rest dest_dir s2) as [[log r] s3]. cbn in *.
      rewrite not_elem_of_cons. by split.
    + exfalso. apply convert_inv in Hc.
      inversion Hc as [|e' Hext Hr| |d text enc Hext Hr Hu Hd He]; subst.
      * unfold is_file in Hf. unfold read_bytes in Hr.
        destruct (stat _ cwd p1) as [[|d]|]; done.
      * apply decode_family_Some in Hd as [_ (? & ? & _ & _ & Hdec)].
        apply Hsc, Utf8Facts.encode_is_Some in Hdec as [bs Hbs]. congruence.
Qed.

(** X5 (process_zip): with codecs that yield Unicode scalar values, as
    those of Python do, the conversion of an extracted file never
    fails: no conversion error is ever printed. *)
Theorem process_zip_prints_no_convert_error zip_path archive out_root s :
  (forall e d t, codec e d = Some t -> Forall Utf8.scalar t) ->
  forall p e,
    ConvertError p e ∉ (process_zip codec cwd zip_path archive out_root s).1.1.
Proof.
  intros Hsc p e. unfold process_zip.
  destruct (mkdir_parents s cwd _) as [[u|e1] s1]; cbn; [|apply not_elem_of_nil].
  destruct archive as [members|e1]; cbn.
  2:{ rewrite not_elem_of_cons. split; [done | apply not_elem_of_nil]. }
  pose proof (process_members_no_convert_error
                (joinpath out_root (safe_folder_name (stem zip_path)))
                members s1 Hsc p e) as H.
  destruct (members_loop members _ s1) as [[log r] s2]. cbn in *.
  rewrite not_elem_of_cons. by split.
Qed.

(** X6 (ensure_within_dir): below a base that is not the root, the
    check accepts exactly the targets that resolve to the base or into
    it, and hands back the target as it was given. *)
Theorem ensure_within_dir_accepts_exactly_inside base target :
  wf_parts cwd -> wf_parts (parts base) -> wf_parts (parts target) ->
  resolve cwd base <> [] ->
  (forall p, ensure_within_dir cwd base target = Ok p -> p = target) /\
  (ensure_within_dir cwd base target = Ok target <->
   within (resolve cwd base) (resolve cwd target)).
Proof.
  intros Hc Hb Ht Hroot. split; [by intros p ?%ensure_within_dir_returns|].
  split; [intros H; by apply (ensure_within_dir_Ok cwd Hc) in H as [_ ?]|].
  intros [k Hk]. unfold ensure_within_dir. rewrite Hk.
  destruct k as [|c k].
  - rewrite app_nil_r. rewrite (bool_decide_eq_true_2 _ eq_refl).
    by rewrite andb_false_r.
  - replace (startswith _ _) with true; [done|]. symmetry.
    apply startswith_prefix. unfold str_of_loc. cbn [app].
    apply prefix_cons. rewrite join_app by done.
    exists (join [SLASH] (c :: k)). by rewrite <- app_assoc.
Qed.

(** X8 (process_zip): the destination directory is the folder named
    by the sanitized stem of the archive, directly below the output
    root; once the banner has been printed it exists as a directory,
    also when the archive then fails to open or members fail. *)
Theorem process_zip_makes_destination zip_path archive out_root s log r s' :
  process_zip codec cwd zip_path archive out_root s = ((log, r), s') ->
  log <> [] ->
  let dest_dir := joinpath out_root (safe_folder_name (stem zip_path)) in
  resolve cwd dest_dir = resolve cwd out_root ++ [safe_folder_name (stem zip_path)] /\
  head log = Some (Banner (name zip_path) dest_dir) /\
  is_dir s' cwd dest_dir = true.
Proof.
  intros Hp Hlog dest_dir.
  split; [apply destination_below_root|].
  unfold process_zip in Hp. fold dest_dir in Hp.
  destruct (mkdir_parents s cwd dest_dir) as [[u|e] s1] eqn:Hm;
    [|injection Hp as <- _ _; done].
  apply mkdir_parents_is_dir in Hm.
  destruct archive as [members|e]; [|injection Hp as <- _ <-; by split].
  destruct (process_members_kinds dest_dir members s1) as [K _].
  destruct (members_loop members dest_dir s1) as [[log' r'] s2]. cbn [snd] in K.
  injection Hp as <- _ <-. split; [done|].
  unfold is_dir in *. destruct (stat s1 cwd dest_dir) as [[|d]|] eqn:Hs; try done.
  destruct (kinds_kept_stat _ _ _ _ _ K Hs) as (n' & -> & ->). done.
Qed.

End WithCodecs.

(** *** Sample runs *)

Lemma pair_eq {A B} (x : A * B) (a : A) : x.1 = a -> x = (a, x.2).
Proof. destruct x as [a' b]. cbn. by intros ->. Qed.

Lemma extracted_file_reads_back_witness :
  let m := Member (py "sub/ok.txt") true [0xB1; 0x0D; 0x0A] false in
  let dest_dir := parse (py "out") in
  let p := joinpath dest_dir (filename m) in
  let s' := (extract_member home m dest_dir home_fs).2 in
  p = joinpath dest_dir (filename m) /\
  read_bytes s' home p = Ok (payload m) /\
  is_file s' home p = true.
Proof.
  cbv zeta.
  apply (extracted_file_reads_back home
           (Member (py "sub/ok.txt") true [0xB1; 0x0D; 0x0A] false)
           (parse (py "out")) home_fs).
  - apply pair_eq. vm_compute. reflexivity.
  - vm_compute. reflexivity.
Defined.

Lemma extracted_directory_exists_witness :
  let m := Member (py "sub/") true [] false in
  let dest_dir := parse (py "out") in
  let p := joinpath dest_dir (filename m) in
  let s' := (extract_member home m dest_dir home_fs).2 in
  p = joinpath dest_dir (filename m) /\
  is_dir s' home p = true /\
  file_at s' (home ++ [py "out"; py "sub"]) = file_at home_fs (home ++ [py "out"; py "sub"]).
Proof.
  cbv zeta.
  destruct (extracted_directory_exists home
              (Member (py "sub/") true [] false) (parse (py "out")) home_fs
              (joinpath (parse (py "out")) (py "sub/"))
              (extract_member home (Member (py "sub/") true [] false)
                 (parse (py "out")) home_fs).2) as (H1 & H2 & H3).
  - apply pair_eq. vm_compute. reflexivity.
  - vm_compute. reflexivity.
  - split_and!; [exact H1 | exact H2 | apply H3].
Defined.

Lemma process_zip_prints_no_convert_error_witness :
  ConvertError (parse (py "sub/ok.txt")) UnicodeEncodeError
  ∉ (process_zip jisx0201 home (parse (py "000001.zip")) (Ok sample_archive)
       (parse (py "out")) home_fs).1.1.
Proof.
  apply (process_zip_prints_no_convert_error jisx0201 home (parse (py "000001.zip"))
           (Ok sample_archive) (parse (py "out")) home_fs jisx0201_scalar).
Defined.

Lemma ensure_within_dir_accepts_exactly_inside_witness :
  let base := parse (py "out/000001") in
  let target := parse (py "out/000001/../000001/a.txt") in
  ensure_within_dir home base target = Ok target <->
  within (resolve home base) (resolve home target).
Proof.
  cbv zeta.
  apply (ensure_within_dir_accepts_exactly_inside home
           (parse (py "out/000001")) (parse (py "out/000001/../000001/a.txt"))
           wf_parts_home (wf_parts_parse _) (wf_parts_parse _)).
  vm_compute. discriminate.
Defined.

Lemma process_zip_makes_destination_witness :
  let zip_path := parse (py "in/a:b.zip") in
  let out_root := parse (py "out") in
  let run := process_zip jisx0201 home zip_path (Raise BadZipFile) out_root home_fs in
  let dest_dir := joinpath out_root (safe_folder_name (stem zip_path)) in
  resolve home dest_dir = resolve home out_root ++ [safe_folder_name (stem zip_path)] /\
  head run.1.1 = Some (Banner (name zip_path) dest_dir) /\
  is_dir run.2 home dest_dir = true.
Proof.
  cbv zeta.
  apply (process_zip_makes_destination jisx0201 home (parse (py "in/a:b.zip"))
           (Raise BadZipFile) (parse (py "out")) home_fs _
           (process_zip jisx0201 home (parse (py "in/a:b.zip")) (Raise BadZipFile)
              (parse (py "out")) home_fs).1.2).
  - rewrite <- surjective_pairing. apply pair_eq. reflexivity.
  - vm_compute. discriminate.
Defined.

End ExtractMore.

(** ** The end of the loop over the members *)

Module LoopFacts.
Import PurePath FS FSMore FSFacts PathFacts Unzip UnzipMore ConvertFacts
       ExtractFacts StemMore ExtractMore.

Lemma relative_to_joinpath dest_dir name :
  absolute (parse name) = false ->
  relative_to (joinpath dest_dir name) dest_dir = Ok (Path false (parts (parse name))).
Proof.
  intros Hrel. unfold relative_to, joinpath. rewrite Hrel. cbn [absolute parts].
  rewrite bool_decide_eq_true_2 by done.
  rewrite take_app_length, drop_app_length.
  by rewrite bool_decide_eq_true_2.
Qed.

Lemma relative_to_Raise p base e :
  relative_to p base = Raise e -> e = ValueError "is not in the subpath".
Proof. unfold relative_to. destruct (_ && _); [done|]. by intros [= <-]. Qed.

Section WithCodecs.
Variable codec : encoding -> bytes -> option str.
Variable cwd : list str.

Local Abbreviation members_loop := (process_members codec cwd).

Lemma extract_member_path m dest_dir s p s' :
  extract_member cwd m dest_dir s = (Ok p, s') -> p = joinpath dest_dir (filename m).
Proof.
  intros He. destruct (extract_member_effect cwd _ _ _ _ _ He)
    as (? & _ & [[_ H]|(_ & _ & _ & _ & H)]); by destruct (H p eq_refl).
Qed.

(** X27 (process_zip): the loop over the members is left by an
    exception in one case only.  The errors of the extraction and of
    the conversion are caught; the path printed for a conversion is the
    extracted path relative to the destination directory, and there is
    none for a member whose name is an absolute path: its [ValueError]
    leaves the loop and [process_zip].  With no member of an absolute
    name the loop comes to its end. *)
Theorem member_loop_left_only_by_absolute_names dest_dir members : forall s,
  let run := members_loop members dest_dir s in
  (forall e, run.1.2 = Raise e ->
     e = ValueError "is not in the subpath" /\
     exists m, m ∈ members /\ absolute (parse (filename m)) = true) /\
  ((forall m, m ∈ members -> absolute (parse (filename m)) = false) ->
   run.1.2 = Ok tt).
Proof.
  intros s run. unfold run. clear run.
  assert (H : forall e, (members_loop members dest_dir s).1.2 = Raise e ->
            e = ValueError "is not in the subpath" /\
            exists m, m ∈ members /\ absolute (parse (filename m)) = true).
  { revert s. induction members as [|m rest IH]; intros s e; cbn [process_members].
    - done.
    - assert (Hrest : forall s2, (members_loop rest dest_dir s2).1.2 = Raise e ->
                e = ValueError "is not in the subpath" /\
                exists m0, m0 ∈ m :: rest /\ absolute (parse (filename m0)) = true).
      { intros s2 (-> & m0 & Hin & Habs)%IH. split; [done|].
        exists m0. split; [by right | done]. }
      destruct (extract_member cwd m dest_dir s) as [[p|e1] s1] eqn:He.
      2:{ specialize (Hrest s1).
          by destruct (members_loop rest dest_dir s1) as [[log r] s2]. }
      apply extract_member_path in He as ->.
      destruct (is_file s1 cwd _); [|by apply Hrest].
      destruct (convert_text_file_in_place codec cwd _ s1) as [[[used|]|e2] s2];
        [| by apply Hrest |];
        (destruct (absolute (parse (filename m))) eqn:Habs;
         [|rewrite (relative_to_joinpath _ _ Habs); specialize (Hrest s2);
           by destruct (members_loop rest dest_dir s2) as [[log r] s3]]);
        (destruct (relative_to _ dest_dir) as [rel|e'] eqn:Hrel;
         [specialize (Hrest s2);
          destruct (members_loop rest dest_dir s2) as [[log r] s3]; cbn [fst snd];
          intros Hr; destruct (Hrest Hr) as [-> ?]; by split
         |cbn [fst snd]; intros [= <-]; split;
          [by eapply relative_to_Raise | exists m; split; [by left | done]]]). }
  split; [exact H|]. intros Hrel.
  destruct (members_loop members dest_dir s).1.2 as [[]|e] eqn:Hr; [done|].
  destruct (H e eq_refl) as (_ & m & Hin & Habs). by rewrite (Hrel m Hin) in Habs.
Qed.

End WithCodecs.

(** A member with an absolute name that resolves inside the
    destination is extracted and converted; then the line about it
    cannot be printed, and the member after it is not extracted. *)
Example absolute_member_ends_the_loop :
  let m := Member (py "/home/out/000001/a.txt") true [0xB1] false in
  let m' := Member (py "b.txt") true [0x41] false in
  let run := process_zip jisx0201 home (parse (py "000001.zip")) (Ok [m; m'])
               (parse (py "out")) home_fs in
  run.1 = ([Banner (py "000001.zip") (parse (py "out/000001"))],
           Raise (ValueError "is not in the subpath")) /\
  run.2 !! (home ++ [py "out"; py "000001"; py "a.txt"])
    = Some (File [0xEF; 0xBD; 0xB1]) /\
  run.2 !! (home ++ [py "out"; py "000001"; py "b.txt"]) = None.
Proof. cbv zeta. split_and!; vm_compute; reflexivity. Qed.

End LoopFacts.


(** ** More on downloads: requests, failures and leftovers *)

Module DownloadMore.
Import PurePath FS FSMore FSFacts PathFacts ExtractFacts Download
       DownloadEndings NamingFacts DownloadFacts StemMore ExtractMore Samples.

(** A path whose parent is a directory can be looked up. *)
Lemma locate_in_dir s cwd p :
  is_dir s cwd (parent p) = true -> parts p <> [] ->
  locate s cwd p = Ok (resolve cwd p).
Proof.
  intros Hd Hp. unfold is_dir, stat, locate in Hd.
  change (start cwd (parent p)) with (start cwd p) in Hd.
  unfold locate. destruct (node_at s (start cwd p)) as [[|d]|]; try done.
  rewrite (parts_snoc p Hp), walk_app.
  destruct (walk s (start cwd p) (parts (parent p))) as [c|] eqn:Hw; [|done].
  pose proof (walk_normalize _ _ _ _ Hw) as Hc. cbn [walk].
  destruct (node_at s c) as [[|d]|]; try done.
  f_equal. rewrite (resolve_parent_name cwd p Hp), Hc. reflexivity.
Qed.

Lemma locate_fails_no_parent s cwd p e :
  locate s cwd p = Raise e -> parts p <> [] -> is_dir s cwd (parent p) = false.
Proof.
  intros Hl Hp. destruct (is_dir s cwd (parent p)) eqn:Hd; [|done].
  rewrite (locate_in_dir _ _ _ Hd Hp) in Hl. done.
Qed.

Lemma rfind_from_spec c s : forall i f,
  rfind_from c s i f = f \/
  (i <= rfind_from c s i f < i + Z.of_nat (length s) /\
   s !! Z.to_nat (rfind_from c s i f - i) = Some c).
Proof.
  induction s as [|d s IH]; intros i f; cbn [rfind_from]; [by left|].
  destruct (IH (i + 1) (if d =? c then i else f)) as [E|[Hr Hl]].
  - rewrite E. destruct (Z.eqb_spec d c) as [->|]; [|by left].
    right. cbn [length]. split; [lia|]. by rewrite Z.sub_diag.
  - right. cbn [length]. split; [lia|].
    replace (Z.to_nat (rfind_from c s (i + 1) (if d =? c then i else f) - i))
      with (S (Z.to_nat (rfind_from c s (i + 1) (if d =? c then i else f) - (i + 1))))
      by lia.
    done.
Qed.

(** A suffix is empty or starts with its dot, and is part of the name. *)
Lemma suffix_of_name_shape n :
  (suffix_of_name n = [] \/ exists t, suffix_of_name n = DOT :: t) /\
  forall c, c ∈ suffix_of_name n -> c ∈ n.
Proof.
  unfold suffix_of_name. case_match eqn:Hc; [|split; [by left | by intros ? ?%elem_of_nil]].
  split.
  - right. destruct (rfind_from_spec DOT n 0 (-1)) as [E|[_ Hl]];
      [unfold rfind in Hc; lia|].
    fold (rfind DOT n) in Hl. rewrite Z.sub_0_r in Hl.
    destruct (drop (Z.to_nat (rfind DOT n)) n) as [|c t] eqn:Hd.
    + apply (f_equal (fun l => l !! 0%nat)) in Hd.
      rewrite lookup_drop, Nat.add_0_r, Hl in Hd. done.
    + apply (f_equal (fun l => l !! 0%nat)) in Hd.
      rewrite lookup_drop, Nat.add_0_r, Hl in Hd. cbn in Hd.
      injection Hd as <-. eauto.
  - intros c Hin. rewrite <- (take_drop (Z.to_nat (rfind DOT n)) n).
    apply elem_of_app. by right.
Qed.

Lemma with_suffix_part_Ok p :
  name p <> [] -> SLASH ∉ name p ->
  with_suffix p (suffix p ++ PART_EXT)
  = Ok (Path (absolute p) (parts (parent p) ++ [name p ++ PART_EXT])).
Proof.
  intros Hn Hs.
  destruct (with_suffix p (suffix p ++ PART_EXT)) as [tmp|e] eqn:Hw.
  { by apply with_suffix_part in Hw as [_ ->]. }
  exfalso. unfold with_suffix in Hw.
  destruct (suffix_of_name_shape (name p)) as [Hshape Hsub]. fold (suffix p) in *.
  case_match eqn:H1.
  { apply existsb_exists in H1 as (c & Hin & <-%Z.eqb_eq).
    apply list_elem_of_In, elem_of_app in Hin as [Hin|Hin]; [by apply Hs, Hsub|].
    revert Hin. unfold PART_EXT. rewrite !elem_of_cons, elem_of_nil. unfold SLASH. lia. }
  case_match eqn:H2.
  { destruct Hshape as [E|[t E]]; rewrite E in H2; [vm_compute in H2; done|].
    apply orb_true_iff in H2 as [H2|H2].
    - apply andb_true_iff in H2 as [_ H2]. cbn [app startswith] in H2.
      by rewrite Z.eqb_refl in H2.
    - apply bool_decide_eq_true in H2. injection H2 as H2. by destruct t. }
  case_match eqn:H3; [|done].
  by apply bool_decide_eq_true in H3.
Qed.

Lemma open_w_intro s cwd p :
  locate s cwd p = Ok (resolve cwd p) -> node_at s (resolve cwd p) <> Some Dir ->
  open_w s cwd p = (Ok (resolve cwd p), <[resolve cwd p := File []]> s).
Proof.
  intros Hl Hn. unfold open_w. rewrite Hl.
  destruct (node_at s (resolve cwd p)) as [[|d]|]; done.
Qed.

Lemma write_chunks_final l cs : forall w d0,
  files w !! l = Some (File d0) ->
  files (final w (write_chunks l cs w)) = <[l := File (d0 ++ concat cs)]> (files w) /\
  requests (final w (write_chunks l cs w)) = requests w.
Proof.
  induction cs as [|chunk cs IH]; intros w d0 Hl.
  - cbn. rewrite app_nil_r. split; [|done]. symmetry. by apply insert_id.
  - destruct chunk as [|b chunk]; [by apply IH|].
    change (write_chunks l ((b :: chunk) :: cs) w)
      with (World (append (files w) l (b :: chunk)) (requests w)
              :: write_chunks l cs
                   (World (append (files w) l (b :: chunk)) (requests w))).
    change (concat ((b :: chunk) :: cs)) with ((b :: chunk) ++ concat cs).
    rewrite final_cons.
    remember (World (append (files w) l (b :: chunk)) (requests w)) as w' eqn:Ew'.
    assert (Hw' : files w' = <[l := File (d0 ++ b :: chunk)]> (files w)).
    { rewrite Ew'. unfold append. cbn. by rewrite Hl. }
    destruct (IH w' (d0 ++ b :: chunk)) as [Hf Hr].
    { rewrite Hw'. apply lookup_insert_eq. }
    rewrite Hf, Hr, Hw', insert_insert_eq, <- app_assoc. split; [done|].
    by rewrite Ew'.
Qed.

Section WithNetwork.
Variable net : list str -> str -> result response.
Variable cwd : list str.
Variable dir_size : Z.

Local Abbreviation download := (download_file net cwd dir_size).

Local Abbreviation ending := (DownloadEndings.ending net cwd).

Lemma download_file_ending url out_path w :
  ending url out_path w (download url out_path w).1
    (final w (download url out_path w).2).
Proof.
  unfold download_file.
  destruct (mkdir_parents (files w) cwd (parent out_path)) as [[u|e] s1] eqn:Hm;
    pose proof (mkdir_parents_added _ _ _ _ _ Hm) as Ha; cbn [fst snd].
  2:{ apply NoRequest; eauto. }
  destruct (exists_ s1 cwd out_path && _); cbn [fst snd].
  { apply NoRequest; eauto. }
  destruct (net (requests w) url) as [r|e] eqn:Hnet; cbn [fst snd];
    [|rewrite final_cons; apply NothingWritten; eauto].
  destruct (status_ok r) eqn:Hstatus; cbn [negb fst snd];
    [|rewrite final_cons; apply NothingWritten; eauto 6].
  destruct (with_suffix out_path (suffix out_path ++ PART_EXT))
    as [tmp_path|e] eqn:Htmp; cbn [fst snd];
    [|rewrite final_cons; apply NothingWritten; eauto 6].
  destruct (open_w s1 cwd tmp_path) as [[l|e] s3] eqn:Ho; cbn [fst snd].
  2:{ rewrite final_cons. apply NothingWritten; [done|].
      do 3 right. exists tmp_path. split; [done|].
      unfold open_w in Ho.
      destruct (locate s1 cwd tmp_path) as [l|e'] eqn:Hl.
      - apply locate_resolve in Hl as ->.
        destruct (node_at s1 (resolve cwd tmp_path)) as [[|?]|]; done.
      - exfalso. apply with_suffix_part in Htmp as [_ ->].
        apply locate_fails_no_parent in Hl.
        + unfold parent in Hl. cbn [parts absolute] in Hl.
          rewrite removelast_last in Hl.
          apply mkdir_parents_is_dir in Hm. unfold parent in Hm. congruence.
        + cbn. by destruct (removelast _). }
  destruct (open_w_locate _ _ _ _ _ Ho) as [_ Hnd].
  apply open_w_Ok in Ho as [-> ->]. cbn [requests].
  set (l := resolve cwd tmp_path) in *.
  set (w3 := World (<[l := File []]> s1) (requests w ++ [url])).
  destruct (write_chunks_final l (chunks r) w3 []) as [Hf Hr].
  { cbn. apply lookup_insert_eq. }
  cbn [app files requests w3] in Hf, Hr. rewrite insert_insert_eq in Hf.
  assert (Hfin : final w ([World s1 (requests w); World s1 (requests w ++ [url]); w3]
                          ++ write_chunks l (chunks r) w3)
                 = World (<[l := File (concat (chunks r))]> s1) (requests w ++ [url])).
  { cbn [app]. rewrite !final_cons.
    destruct (final w3 (write_chunks l (chunks r) w3)) as [f q]. cbn in *.
    by subst. }
  destruct (stream_fails r) eqn:Hstream; cbn [fst snd].
  { rewrite Hfin. by eapply PartLeft. }
  destruct (replace_file _ cwd tmp_path out_path) as [[u5|e] s5] eqn:Hrep;
    cbn [fst snd].
  2:{ rewrite Hfin. by eapply PartLeft. }
  destruct u5. apply replace_file_Ok in Hrep as (d & Hd & ->). fold l in Hd |- *.
  assert (l <> []) by (intros E; rewrite E in Hnd; done).
  rewrite Hf, node_at_insert_eq in Hd by done. injection Hd as <-.
  rewrite app_assoc, final_snoc, Hf, Hr.
  rewrite delete_insert_eq. by eapply Renamed.
Qed.

Lemma resolve_tmp_nonroot p tmp :
  with_suffix p (suffix p ++ PART_EXT) = Ok tmp -> resolve cwd tmp <> [].
Proof.
  intros [_ ->]%with_suffix_part. rewrite resolve_snoc, step_part.
  by destruct (resolve cwd _).
Qed.

(** X9 (download_file): a download that raises, at whatever point,
    leaves at the destination the regular file that was there, or none
    if there was none. *)
Theorem failed_download_keeps_destination url out_path w e :
  (download url out_path w).1 = Raise e ->
  file_at (files (final w (download url out_path w).2)) (resolve cwd out_path)
  = file_at (files w) (resolve cwd out_path).
Proof.
  intros Hr. pose proof (download_file_ending url out_path w) as He.
  rewrite Hr in He.
  inversion He as [s1 r Ha _ E1 E2|s1 e' Ha _ E1 E2
                  |s1 tmp resp e' Ha Ht Hn Hs Hnd E1 E2|]; subst; cbn [files];
    try by apply dirs_added_file_at.
  unfold file_at at 1. rewrite lookup_insert_ne.
  - by apply dirs_added_file_at.
  - by apply tmp_is_not_destination.
Qed.

Lemma download_requests url out_path w :
  requests (final w (download url out_path w).2) = requests w \/
  requests (final w (download url out_path w).2) = requests w ++ [url].
Proof.
  pose proof (download_file_ending url out_path w) as He.
  inversion He; cbn; auto.
Qed.

(** X10 (download_file): one call sends at most one request, for its
    own URL; a call that skips sends none and changes no regular file,
    and a call that reports a download has sent exactly one. *)
Theorem download_sends_at_most_one_request url out_path w :
  let run := download url out_path w in
  (requests (final w run.2) = requests w \/
   requests (final w run.2) = requests w ++ [url]) /\
  (forall nm, run.1 = Ok (Skip nm) ->
     requests (final w run.2) = requests w /\
     forall q, file_at (files (final w run.2)) q = file_at (files w) q) /\
  (forall nm, run.1 = Ok (Downloaded nm) ->
     requests (final w run.2) = requests w ++ [url]).
Proof.
  intros run. split; [apply download_requests|].
  pose proof (download_file_ending url out_path w) as He.
  fold run in He. split; intros nm Hr; rewrite Hr in He;
    inversion He as [s1 r Ha Hc E1 E2| | |]; subst; cbn [files requests]; try done.
  - split; [done|]. intros q. by apply dirs_added_file_at.
  - by destruct Hc as [|[? ?]].
Qed.

(** X11 (download_file): the temporary file is not cleaned up.  When
    the request got a good status and the call raises all the same (the
    stream broke off, or the rename failed), the temporary path holds
    the chunks that were received, unless a directory is in its place. *)
Theorem failed_download_leaves_part_file url out_path w e resp tmp_path :
  (download url out_path w).1 = Raise e ->
  net (requests w) url = Ok resp -> status_ok resp = true ->
  with_suffix out_path (suffix out_path ++ PART_EXT) = Ok tmp_path ->
  requests (final w (download url out_path w).2) = requests w ++ [url] ->
  files (final w (download url out_path w).2) !! resolve cwd tmp_path
    = Some (File (concat (chunks resp))) \/
  files (final w (download url out_path w).2) !! resolve cwd tmp_path
    = Some Dir.
Proof.
  intros Hr Hnet Hstatus Htmp Hreq.
  pose proof (resolve_tmp_nonroot _ _ Htmp) as Hnr.
  pose proof (download_file_ending url out_path w) as He.
  rewrite Hr in He.
  remember (final w (download url out_path w).2) as wf eqn:Ewf. clear Ewf.
  inversion He as [s1 r Ha _ E1 E2|s1 e' Ha Hwhy E1 E2
                  |s1 tmp resp' e' Ha Ht Hn Hs Hnd E1 E2|]; subst;
    cbn [files requests] in *.
  - apply (f_equal length) in Hreq. rewrite length_app in Hreq. cbn in Hreq. lia.
  - right. destruct Hwhy as [[? ?]|[(? & ? & ?)|[[? ?]|(tmp & Ht & Hd)]]];
      try congruence.
    assert (tmp = tmp_path) as -> by congruence.
    destruct (resolve cwd tmp_path); done.
  - left. assert (tmp = tmp_path) as -> by congruence.
    assert (resp' = resp) as -> by congruence. apply lookup_insert_eq.
Qed.

(** X12 (download_file): whatever happens, a call changes no regular
    file but the destination and the temporary file. *)
Theorem download_touches_two_paths url out_path w q :
  q <> resolve cwd out_path ->
  (forall tmp_path,
     with_suffix out_path (suffix out_path ++ PART_EXT) = Ok tmp_path ->
     q <> resolve cwd tmp_path) ->
  file_at (files (final w (download url out_path w).2)) q = file_at (files w) q.
Proof.
  intros Hout Htmp.
  pose proof (download_file_ending url out_path w) as He.
  inversion He as [s1 r Ha _ E1 E2|s1 e' Ha _ E1 E2
                  |s1 tmp resp e' Ha Ht Hn Hs Hnd E1 E2
                  |s1 tmp resp Ha Ht Hn Hs Hst E1 E2]; cbn [files];
    try by apply dirs_added_file_at.
  - unfold file_at at 1. rewrite lookup_insert_ne by (intros <-; by eapply Htmp).
    by apply dirs_added_file_at.
  - unfold file_at at 1. rewrite lookup_insert_ne by done.
    rewrite lookup_delete_ne by (intros <-; by eapply Htmp).
    by apply dirs_added_file_at.
Qed.

Lemma download_each_requests out_dir plan : forall w,
  exists rs,
    requests (download_each net cwd dir_size out_dir plan w).2 = requests w ++ rs /\
    rs `sublist_of` plan.*2 /\
    length (download_each net cwd dir_size out_dir plan w).1 = length plan.
Proof.
  induction plan as [|[nm u] plan IH]; intros w; cbn [download_each].
  - exists []. rewrite app_nil_r. by split.
  - destruct (download u (joinpath out_dir nm) w) as [r tr] eqn:Hd.
    pose proof (download_requests u (joinpath out_dir nm) w) as Hreq.
    rewrite Hd in Hreq. cbn [snd] in Hreq.
    destruct (IH (final w tr)) as (rs & Hrs & Hsub & Hlen).
    destruct (download_each net cwd dir_size out_dir plan (final w tr))
      as [log w'] eqn:Hrest. cbn [fst snd] in *.
    destruct Hreq as [Hq|Hq]; rewrite Hq in Hrs.
    + exists rs. split_and!; [done|by apply sublist_cons|cbn; by rewrite Hlen].
    + exists (u :: rs). split_and!;
        [by rewrite Hrs, <- app_assoc|by apply sublist_skip|cbn; by rewrite Hlen].
Qed.

(** X13 (main): the download loop prints one line for every file of
    the plan, whatever fails, and requests every distinct archive URL
    at most once, in the order of collection. *)
Theorem main_requests_each_url_at_most_once all_zips w :
  let run := main_downloads net cwd dir_size all_zips w in
  length run.1 = length (unique_zips all_zips) /\
  exists rs,
    requests run.2 = requests w ++ rs /\
    rs `sublist_of` (unique_zips all_zips).*2 /\
    NoDup rs /\
    forall u, u ∈ rs -> u ∈ all_zips.*2.
Proof.
  intros run. unfold run, main_downloads.
  destruct (download_each_requests (parse OUTPUT_DIR) (download_plan all_zips) w)
    as (rs & Hrs & Hsub & Hlen).
  rewrite download_plan_urls in Hsub.
  split.
  - rewrite Hlen. rewrite <- (length_fmap snd), download_plan_urls.
    by rewrite length_fmap.
  - exists rs. split_and!; try done.
    + eapply sublist_NoDup; [|exact Hsub]. apply dedup_from_NoDup.
    + intros u Hu. pose proof (elem_of_sublist _ _ _ Hu Hsub) as Hin.
      by apply dedup_from_elem in Hin as [? _].
Qed.

(** X14 (download_file): when the parent directory is there, the
    destination is missing or an empty file, the temporary path is not a
    directory, and the response has a good status and a stream that
    ends well, the call reports the download: the destination holds the
    whole body, the temporary file is gone, and one request has been
    sent.  An empty file at the destination is thus fetched again. *)
Theorem fresh_download_stores_body url out_path w resp :
  is_dir (files w) cwd (parent out_path) = true ->
  name out_path <> [] -> SLASH ∉ name out_path ->
  (node_at (files w) (resolve cwd out_path) = None \/
   node_at (files w) (resolve cwd out_path) = Some (File [])) ->
  let tmp_path := Path (absolute out_path)
                    (parts (parent out_path) ++ [name out_path ++ PART_EXT]) in
  node_at (files w) (resolve cwd tmp_path) <> Some Dir ->
  net (requests w) url = Ok resp ->
  status_ok resp = true -> stream_fails resp = false ->
  (download url out_path w).1 = Ok (Downloaded (name out_path)) /\
  final w (download url out_path w).2
  = World (<[resolve cwd out_path := File (concat (chunks resp))]>
             (delete (resolve cwd tmp_path) (files w)))
      (requests w ++ [url]).
Proof.
  intros Hpar Hname Hslash Hout tmp_path Htmpnode Hnet Hstatus Hstream.
  assert (Hparts : parts out_path <> []).
  { intros E. apply Hname. unfold name. by rewrite E. }
  pose proof (locate_in_dir _ _ _ Hpar Hparts) as Hloc_out.
  assert (Hpar_tmp : is_dir (files w) cwd (parent tmp_path) = true).
  { unfold parent, tmp_path. cbn [parts absolute]. by rewrite removelast_last. }
  assert (Hloc_tmp : locate (files w) cwd tmp_path = Ok (resolve cwd tmp_path)).
  { apply locate_in_dir; [done|]. unfold tmp_path. cbn. by destruct (removelast _). }
  pose proof (with_suffix_part_Ok out_path Hname Hslash) as Hws. fold tmp_path in Hws.
  pose proof (tmp_is_not_destination cwd _ _ Hws) as Hne.
  set (l := resolve cwd tmp_path) in *. set (out := resolve cwd out_path) in *.
  assert (Hl : l <> []) by (intros E; rewrite E in Htmpnode; done).
  unfold download_file.
  rewrite (mkdir_parents_existing _ _ _ Hpar).
  replace (exists_ (files w) cwd out_path &&
           match stat (files w) cwd out_path with
           | Ok n => 0 <? st_size dir_size n
           | Raise _ => false
           end) with false.
  2:{ unfold exists_, stat. rewrite Hloc_out. fold out.
      by destruct Hout as [-> | ->]. }
  rewrite Hnet, Hstatus, Hws. cbn [negb].
  rewrite (open_w_intro _ _ _ Hloc_tmp Htmpnode). fold l. cbn [requests].
  set (w3 := World (<[l := File []]> (files w)) (requests w ++ [url])).
  destruct (write_chunks_final l (chunks resp) w3 []) as [Hf Hr].
  { cbn. apply lookup_insert_eq. }
  cbn [app files requests w3] in Hf, Hr. rewrite insert_insert_eq in Hf.
  rewrite Hstream.
  assert (Hk : dirs_kept (files w) (<[l := File (concat (chunks resp))]> (files w)))
    by (by apply dirs_kept_insert).
  unfold replace_file. rewrite Hf.
  rewrite (locate_dirs_kept _ _ _ _ _ Hk Hloc_tmp).
  rewrite (locate_dirs_kept _ _ _ _ _ Hk Hloc_out). fold l out.
  rewrite node_at_insert_eq by done.
  rewrite (node_at_insert_ne _ l out) by done.
  assert (Hgoal : forall tr,
            final w (tr ++ write_chunks l (chunks resp) w3 ++
                     [World (<[out := File (concat (chunks resp))]>
                               (delete l (<[l := File (concat (chunks resp))]> (files w))))
                        (requests (final w3 (write_chunks l (chunks resp) w3)))])
            = World (<[out := File (concat (chunks resp))]> (delete l (files w)))
                (requests w ++ [url])).
  { intros tr. rewrite app_assoc, final_snoc, Hr. by rewrite delete_insert_eq. }
  destruct Hout as [-> | ->]; cbn [fst snd]; (split; [done|]); apply Hgoal.
Qed.

End WithNetwork.

(** *** Sample downloads *)

Lemma failed_download_keeps_destination_witness :
  let run := download_file broken_net [py "home"] 4096 (py "u") sample_out stale_world in
  file_at (files (final stale_world run.2)) (resolve [py "home"] sample_out)
  = file_at (files stale_world) (resolve [py "home"] sample_out).
Proof.
  cbv zeta.
  apply (failed_download_keeps_destination broken_net [py "home"] 4096
           (py "u") sample_out stale_world RequestException).
  vm_compute. reflexivity.
Defined.

Lemma failed_download_leaves_part_file_witness :
  let run := download_file broken_net [py "home"] 4096 (py "u") sample_out stale_world in
  files (final stale_world run.2) !! resolve [py "home"] sample_part
    = Some (File (concat (chunks (Response true [[0x50; 0x4B]] true)))) \/
  files (final stale_world run.2) !! resolve [py "home"] sample_part = Some Dir.
Proof.
  cbv zeta.
  apply (failed_download_leaves_part_file broken_net [py "home"] 4096
           (py "u") sample_out stale_world RequestException
           (Response true [[0x50; 0x4B]] true) sample_part).
  - vm_compute. reflexivity.
  - reflexivity.
  - reflexivity.
  - vm_compute. reflexivity.
  - vm_compute. reflexivity.
Defined.

Lemma download_touches_two_paths_witness :
  let q := [py "home"; OUTPUT_DIR; py "000002.zip"] in
  let run := download_file broken_net [py "home"] 4096 (py "u") sample_out stale_world in
  file_at (files (final stale_world run.2)) q = file_at (files stale_world) q.
Proof.
  cbv zeta.
  apply (download_touches_two_paths broken_net [py "home"] 4096
           (py "u") sample_out stale_world).
  - vm_compute. discriminate.
  - intros tmp_path H. vm_compute in H. injection H as <-. vm_compute. discriminate.
Defined.

Lemma fresh_download_stores_body_witness :
  let run := download_file sample_net [py "home"] 4096 (py "u") sample_out stale_world in
  run.1 = Ok (Downloaded (name sample_out)) /\
  final stale_world run.2
  = World (<[resolve [py "home"] sample_out
             := File (concat (chunks (Response true [[0x50; 0x4B]; []; [0x03; 0x04]] false)))]>
             (delete (resolve [py "home"] sample_part) (files stale_world)))
      (requests stale_world ++ [py "u"]).
Proof.
  cbv zeta.
  apply (fresh_download_stores_body sample_net [py "home"] 4096
           (py "u") sample_out stale_world
           (Response true [[0x50; 0x4B]; []; [0x03; 0x04]] false)).
  - vm_compute. reflexivity.
  - vm_compute. discriminate.
  - apply (bool_decide_unpack _). vm_compute. exact I.
  - right. vm_compute. reflexivity.
  - vm_compute. discriminate.
  - reflexivity.
  - reflexivity.
  - reflexivity.
Defined.

End DownloadMore.

(** ** More on the file names *)

Module NamingMore.
Import PurePath FS Unzip Download NamesMore NamingFacts StemFacts StemMore DownloadFacts.

Lemma format_0d_digits w i : Forall is_digit (format_0d w i) /\ format_0d w i <> [].
Proof.
  unfold format_0d. destruct (str_of_nat_canonical i) as [Hd Hne]. split.
  - apply Forall_app. split; [|done].
    apply Forall_forall. intros c Hc%list_elem_of_In%repeat_spec. unfold is_digit. lia.
  - intros [_ E]%app_eq_nil. rewrite E in Hne. by destruct Hne as [|(? & ? & ? & ?)].
Qed.

Lemma decimal_value_format w i : decimal_value (format_0d w i) = Z.of_nat i.
Proof.
  unfold format_0d, decimal_value. rewrite fold_left_app.
  replace (fold_left _ (repeat 48 _) 0) with 0; [apply decimal_value_str_of_nat|].
  induction (w - length (str_of_nat i))%nat as [|k IH]; [done|]. cbn. exact IH.
Qed.

Lemma rfind_from_app c a b : forall i f,
  rfind_from c (a ++ b) i f
  = rfind_from c b (i + Z.of_nat (length a)) (rfind_from c a i f).
Proof.
  induction a as [|d a IH]; intros i f; cbn [app rfind_from length].
  - by rewrite Z.add_0_r.
  - rewrite IH. f_equal. lia.
Qed.

Lemma rfind_from_absent c s : forall i f, c ∉ s -> rfind_from c s i f = f.
Proof.
  induction s as [|d s IH]; intros i f Hc; cbn [rfind_from]; [done|].
  rewrite IH by (intros ?; apply Hc, elem_of_cons; by right).
  destruct (Z.eqb_spec d c) as [->|]; [|done].
  exfalso. apply Hc, elem_of_cons. by left.
Qed.

Lemma digits_rfind ds : Forall is_digit ds ->
  rfind DOT (ds ++ ZIP_EXT) = Z.of_nat (length ds).
Proof.
  intros Hd. unfold rfind. rewrite rfind_from_app, (rfind_from_absent DOT ds).
  - cbn. lia.
  - intros Hin. rewrite Forall_forall in Hd. specialize (Hd _ Hin).
    unfold is_digit, DOT in Hd. lia.
Qed.

Lemma strip_digits p ds :
  Forall is_digit ds -> (forall c, is_digit c -> p c = false) -> strip p ds = ds.
Proof.
  intros Hd Hp. assert (Hl : forall s, Forall is_digit s -> lstrip p s = s).
  { intros [|c s] Hs; [done|]. cbn. inversion Hs; subst. by rewrite Hp. }
  unfold strip, rstrip. rewrite (Hl ds Hd), Hl, rev_involutive; [done|].
  rewrite StemFacts.rev_reverse. by apply Forall_reverse.
Qed.

Lemma sub_reserved_clean_id s :
  Forall (fun c => is_reserved c = false) s -> sub_reserved false s = s.
Proof.
  induction 1 as [|c s Hc Hs IH]; cbn; [done|]. by rewrite Hc, IH.
Qed.

Lemma out_name_facts i w out_dir :
  (SLASH ∉ out_name i w) /\
  joinpath out_dir (out_name i w)
    = Path (absolute out_dir) (parts out_dir ++ [out_name i w]) /\
  suffix (joinpath out_dir (out_name i w)) = ZIP_EXT /\
  stem (joinpath out_dir (out_name i w)) = format_0d w i /\
  safe_folder_name (format_0d w i) = format_0d w i.
Proof.
  destruct (format_0d_digits w i) as [Hd Hne].
  assert (Hslash : SLASH ∉ out_name i w).
  { unfold out_name. rewrite elem_of_app. intros [Hin|Hin].
    - rewrite Forall_forall in Hd. specialize (Hd _ Hin). unfold is_digit, SLASH in Hd. lia.
    - revert Hin. unfold ZIP_EXT. rewrite !elem_of_cons, elem_of_nil. unfold SLASH. lia. }
  assert (Hj : joinpath out_dir (out_name i w)
               = Path (absolute out_dir) (parts out_dir ++ [out_name i w])).
  { unfold joinpath. rewrite parse_single; [done|done| |].
    - unfold out_name. by destruct (format_0d w i).
    - unfold out_name. destruct (format_0d w i) as [|c [|c' t]]; try done. }
  assert (Hnm : name (joinpath out_dir (out_name i w)) = out_name i w).
  { rewrite Hj. unfold name. cbn [parts]. apply last_last. }
  assert (Hlen : (0 < length (format_0d w i))%nat) by (destruct (format_0d w i); [done|cbn; lia]).
  assert (Hcond : (0 <? rfind DOT (out_name i w))
                  && (rfind DOT (out_name i w) <? Z.of_nat (length (out_name i w)) - 1)
                  = true).
  { unfold out_name. rewrite digits_rfind by done. rewrite length_app.
    apply andb_true_intro. split; apply Z.ltb_lt; unfold ZIP_EXT; cbn [length]; lia. }
  split_and!; try done.
  - unfold suffix. rewrite Hnm. unfold suffix_of_name. rewrite Hcond.
    unfold out_name. rewrite digits_rfind by done. rewrite Nat2Z.id.
    by rewrite drop_app_length.
  - unfold stem. rewrite Hnm. unfold stem_of_name. rewrite Hcond.
    unfold out_name. rewrite digits_rfind by done. rewrite Nat2Z.id.
    by rewrite take_app_length.
  - unfold safe_folder_name. rewrite sub_reserved_clean_id.
    2:{ eapply Forall_impl; [exact Hd|]. intros c Hc. unfold is_digit in Hc.
        unfold is_reserved. lia. }
    rewrite (strip_digits isspace), (strip_digits is_dot); try done.
    + by destruct (format_0d w i).
    + intros c Hc. unfold is_digit in Hc. unfold is_dot, DOT. lia.
    + intros c Hc. unfold is_digit in Hc. unfold isspace. lia.
Qed.

(** X15 (main, process_zip): the files of a run have names that
    differ from one another, are plain file names (no slash), and sit
    directly in the output directory; each name ends in the suffix
    [.zip], its stem is the padded number, and the extractor unpacks
    such an archive into the folder of that same padded number. *)
Theorem numbered_names_are_distinct_and_flat i j w out_dir :
  (out_name i w = out_name j w -> i = j) /\
  (SLASH ∉ out_name i w) /\
  joinpath out_dir (out_name i w)
    = Path (absolute out_dir) (parts out_dir ++ [out_name i w]) /\
  suffix (joinpath out_dir (out_name i w)) = ZIP_EXT /\
  stem (joinpath out_dir (out_name i w)) = format_0d w i /\
  safe_folder_name (stem (joinpath out_dir (out_name i w))) = format_0d w i.
Proof.
  destruct (out_name_facts i w out_dir) as (Hs & Hj & Hx & Hst & Hsafe).
  split_and!; try done.
  - intros E. unfold out_name in E. apply app_inv_tail in E.
    apply (f_equal decimal_value) in E. rewrite !decimal_value_format in E. lia.
  - by rewrite Hst.
Qed.

End NamingMore.

(** ** The main loop of the extractor *)

Module MainFacts.
Import PurePath FS FSMore FSFacts PathFacts Unzip UnzipMore UnzipMain ConvertFacts
       ExtractFacts StemMore ExtractMore DownloadFacts NamingMore.

(** *** The order of names *)

Section Lex.
Context {A : Type} (ltb eqb : A -> A -> bool).
Hypothesis eqb_eq : forall x y, eqb x y = true <-> x = y.
Hypothesis ltb_irrefl : forall x, ltb x x = false.
Hypothesis ltb_trans : forall x y z, ltb x y = true -> ltb y z = true -> ltb x z = true.
Hypothesis ltb_total : forall x y, ltb x y = true \/ x = y \/ ltb y x = true.

Lemma eqb_refl x : eqb x x = true.
Proof. by apply eqb_eq. Qed.

Lemma lex_irrefl a : lex_ltb ltb eqb a a = false.
Proof.
  induction a as [|x a IH]; cbn; [done|].
  by rewrite ltb_irrefl, IH, andb_false_r.
Qed.

Lemma lex_trans a : forall b c,
  lex_ltb ltb eqb a b = true -> lex_ltb ltb eqb b c = true ->
  lex_ltb ltb eqb a c = true.
Proof.
  induction a as [|x a IH]; intros [|y b] [|z c]; cbn; try done.
  intros [Hxy|[Hxy Hab]%andb_prop]%orb_prop [Hyz|[Hyz Hbc]%andb_prop]%orb_prop.
  - by rewrite (ltb_trans _ _ _ Hxy Hyz).
  - apply eqb_eq in Hyz as <-. by rewrite Hxy.
  - apply eqb_eq in Hxy as <-. by rewrite Hyz.
  - apply eqb_eq in Hxy as <-. rewrite Hyz, (IH _ _ Hab Hbc).
    by rewrite orb_true_r.
Qed.

Lemma lex_total a : forall b,
  lex_ltb ltb eqb a b = true \/ a = b \/ lex_ltb ltb eqb b a = true.
Proof.
  induction a as [|x a IH]; intros [|y b]; cbn; auto.
  destruct (ltb_total x y) as [-> | [<- | ->]]; auto.
  rewrite ltb_irrefl, eqb_refl. cbn.
  destruct (IH b) as [-> | [<- | ->]]; auto.
Qed.

Lemma lex_app_same d a b :
  lex_ltb ltb eqb (d ++ a) (d ++ b) = lex_ltb ltb eqb a b.
Proof.
  induction d as [|x d IH]; cbn; [done|].
  destruct a, b; by rewrite ltb_irrefl, eqb_refl, IH.
Qed.

End Lex.

Lemma str_eqb_eq (a b : list Z) : str_eqb a b = true <-> a = b.
Proof. unfold str_eqb. apply bool_decide_eq_true. Qed.

Lemma str_ltb_irrefl a : str_ltb a a = false.
Proof. apply lex_irrefl, Z.ltb_irrefl. Qed.

Lemma str_ltb_trans a b c :
  str_ltb a b = true -> str_ltb b c = true -> str_ltb a c = true.
Proof.
  apply lex_trans; [apply Z.eqb_eq|]. intros x y z. rewrite !Z.ltb_lt. lia.
Qed.

Lemma str_ltb_total a b : str_ltb a b = true \/ a = b \/ str_ltb b a = true.
Proof.
  apply lex_total; [apply Z.eqb_eq | apply Z.ltb_irrefl |].
  intros x y. rewrite !Z.ltb_lt. lia.
Qed.

Lemma path_ltb_irrefl p : path_ltb p p = false.
Proof. apply lex_irrefl, str_ltb_irrefl. Qed.

Lemma path_ltb_trans p q r :
  path_ltb p q = true -> path_ltb q r = true -> path_ltb p r = true.
Proof. apply lex_trans; [apply str_eqb_eq | apply str_ltb_trans]. Qed.

Lemma path_ltb_total p q :
  path_ltb p q = true \/ parts p = parts q \/ path_ltb q p = true.
Proof.
  apply lex_total; [apply str_eqb_eq | apply str_ltb_irrefl | apply str_ltb_total].
Qed.

Lemma path_ltb_child a d n m :
  path_ltb (Path a (d ++ [n])) (Path a (d ++ [m])) = str_ltb n m.
Proof.
  unfold path_ltb. cbn [parts].
  rewrite lex_app_same by (apply str_eqb_eq || apply str_ltb_irrefl).
  cbn. by rewrite andb_false_r, orb_false_r.
Qed.

(** *** Sorting *)

Lemma insert_path_perm p l : insert_path p l ≡ₚ p :: l.
Proof.
  induction l as [|q l IH]; cbn; [done|].
  destruct (path_ltb q p); [|done]. rewrite IH. apply Permutation_swap.
Qed.

Lemma sorted_perm l : sorted l ≡ₚ l.
Proof.
  induction l as [|p l IH]; cbn; [done|].
  rewrite insert_path_perm. by rewrite IH.
Qed.

Local Abbreviation increasing := (StronglySorted (fun p q => path_ltb p q = true)).

Lemma insert_path_increasing p l :
  increasing l -> parts p ∉ parts <$> l -> increasing (insert_path p l).
Proof.
  induction 1 as [|q l Hl IH Hq]; intros Hp; cbn.
  - repeat constructor.
  - rewrite fmap_cons, not_elem_of_cons in Hp. destruct Hp as [Hpq Hp].
    destruct (path_ltb q p) eqn:Hlt.
    + constructor; [by apply IH|].
      rewrite insert_path_perm. by constructor.
    + assert (Hpq' : path_ltb p q = true).
      { destruct (path_ltb_total p q) as [?|[?|?]]; [done|done|congruence]. }
      constructor; [by constructor|]. constructor; [done|].
      eapply Forall_impl; [exact Hq|]. intros r Hr. by eapply path_ltb_trans.
Qed.

Lemma sorted_increasing l : NoDup (parts <$> l) -> increasing (sorted l).
Proof.
  induction l as [|p l IH]; cbn; [constructor|].
  rewrite NoDup_cons. intros [Hp Hl]. apply insert_path_increasing; [by apply IH|].
  by rewrite sorted_perm.
Qed.

#[local] Instance path_ltb_antisymm : AntiSymm eq (fun p q => path_ltb p q = true).
Proof.
  intros p q H1 H2. pose proof (path_ltb_trans _ _ _ H1 H2) as H.
  by rewrite path_ltb_irrefl in H.
Qed.

Lemma sorted_any_order l l' :
  NoDup (parts <$> l) -> l' ≡ₚ l -> sorted l' = sorted l.
Proof.
  intros Hnd Hp. apply (StronglySorted_unique (fun p q => path_ltb p q = true)).
  - apply sorted_increasing. by rewrite Hp.
  - by apply sorted_increasing.
  - by rewrite !sorted_perm.
Qed.

(** *** The entries of a directory *)

Lemma below_spec l : forall k r, below l k = Some r <-> k = l ++ r.
Proof.
  induction l as [|x l IH]; intros k r; cbn.
  - split; [by intros [= ->] | by intros ->].
  - destruct k as [|y k]; [done|].
    destruct (str_eqb x y) eqn:E.
    + apply str_eqb_eq in E as <-. rewrite IH.
      split; [by intros -> | by intros [= ->]].
    + split; [done|]. intros [= E1 _]. subst.
      by rewrite (proj2 (str_eqb_eq _ _) eq_refl) in E.
Qed.

Lemma entry_name_spec l k n : entry_name l k = Some n <-> k = l ++ [n].
Proof.
  unfold entry_name. destruct (below l k) as [r|] eqn:E.
  - apply below_spec in E as ->.
    destruct r as [|m [|m' r]]; (split; [intros [= ->]|intros [= ->]%app_inv_head]);
      done.
  - split; [done|]. intros ->.
    by rewrite (proj2 (below_spec l (l ++ [n]) [n]) eq_refl) in E.
Qed.

Lemma elem_of_listdir (s : gmap (list str) node) l n :
  n ∈ listdir s l <-> is_Some (s !! (l ++ [n])).
Proof.
  unfold listdir. rewrite list_elem_of_omap. split.
  - intros (k & Hk & ->%entry_name_spec).
    apply list_elem_of_fmap in Hk as ([k v] & -> & Hkv).
    apply elem_of_map_to_list in Hkv. by exists v.
  - intros [v Hv]. exists (l ++ [n]). split; [|by apply entry_name_spec].
    apply list_elem_of_fmap. exists (l ++ [n], v). split; [done|].
    by apply elem_of_map_to_list.
Qed.

Lemma NoDup_omap_inj {A B} (f : A -> option B) l :
  NoDup l -> (forall x y z, f x = Some z -> f y = Some z -> x = y) ->
  NoDup (omap f l).
Proof.
  induction 1 as [|x l Hx Hl IH]; intros Hinj; cbn; [constructor|].
  destruct (f x) as [z|] eqn:E; [|by apply IH].
  constructor; [|by apply IH]. rewrite list_elem_of_omap.
  intros (y & Hy & Hfy). assert (x = y) by (by eapply Hinj). by subst.
Qed.

Lemma NoDup_listdir (s : gmap (list str) node) l : NoDup (listdir s l).
Proof.
  apply NoDup_omap_inj; [apply NoDup_fst_map_to_list|].
  by intros x y z ->%entry_name_spec ->%entry_name_spec.
Qed.

Lemma is_dir_locate s cwd d :
  is_dir s cwd d = true ->
  locate s cwd d = Ok (resolve cwd d) /\ node_at s (resolve cwd d) = Some Dir.
Proof.
  unfold is_dir, stat. destruct (locate s cwd d) as [l|] eqn:Hl; [|done].
  apply locate_resolve in Hl as Hr. subst l.
  destruct (node_at s (resolve cwd d)) as [[|?]|]; done.
Qed.

Lemma elem_of_glob_zip s cwd d p :
  p ∈ glob_zip s cwd d <->
  is_dir s cwd d = true /\
  exists n, p = Path (absolute d) (parts d ++ [n]) /\
            endswith n ZIP_TAIL = true /\
            is_Some (s !! (resolve cwd d ++ [n])).
Proof.
  unfold glob_zip. destruct (is_dir s cwd d) eqn:Hd.
  2:{ split; [by intros ?%elem_of_nil | by intros [? _]]. }
  destruct (is_dir_locate _ _ _ Hd) as [-> _].
  rewrite list_elem_of_fmap. split.
  - intros (n & -> & Hn). split; [done|]. exists n. split; [done|].
    apply list_elem_of_filter in Hn as [? Hn]. split; [done|].
    by apply elem_of_listdir.
  - intros (_ & n & -> & Hz & Hn). exists n. split; [done|].
    apply list_elem_of_filter. split; [done|].
    by apply elem_of_listdir.
Qed.

Lemma NoDup_glob_zip s cwd d : NoDup (parts <$> glob_zip s cwd d).
Proof.
  unfold glob_zip. destruct (is_dir s cwd d); [|constructor].
  destruct (locate s cwd d) as [l|]; [|constructor].
  rewrite <- list_fmap_compose. apply NoDup_fmap_2.
  - intros n m. cbn. by intros [= ->]%app_inv_head.
  - apply NoDup_filter, NoDup_listdir.
Qed.

(** X16 (main): the archives [main] works through are the entries of
    the input directory whose names end in [.zip], each once, in the
    strictly increasing order of their names by code point, whatever the
    order in which the directory lists its entries; there are none when
    the input path is not a directory. *)
Theorem archives_are_taken_in_name_order s cwd d :
  let zip_files := sorted (glob_zip s cwd d) in
  StronglySorted (fun p q => path_ltb p q = true) zip_files /\
  (forall p, p ∈ zip_files <->
     is_dir s cwd d = true /\
     exists n, p = Path (absolute d) (parts d ++ [n]) /\
               endswith n ZIP_TAIL = true /\
               is_Some (s !! (resolve cwd d ++ [n]))) /\
  (forall n m, path_ltb (Path (absolute d) (parts d ++ [n]))
                 (Path (absolute d) (parts d ++ [m])) = str_ltb n m) /\
  (forall listing, listing ≡ₚ glob_zip s cwd d -> sorted listing = zip_files).
Proof.
  intros zip_files. split_and!.
  - apply sorted_increasing, NoDup_glob_zip.
  - intros p. unfold zip_files. rewrite sorted_perm. apply elem_of_glob_zip.
  - intros n m. apply path_ltb_child.
  - intros listing Hl. apply sorted_any_order; [apply NoDup_glob_zip | done].
Qed.

(** *** The loop over the archives *)

Lemma files_outside_kept_weaken base base' s s' :
  base `prefix_of` base' ->
  files_outside_kept base' s s' -> files_outside_kept base s s'.
Proof.
  intros Hb H q Hq. apply H. intros Hin. apply Hq.
  unfold within in *. by etrans.
Qed.

Lemma wf_parts_OUT_DIR : wf_parts (parts OUT_DIR).
Proof. exact (wf_parts_parse (py "./aozora_utf8_Rosanjin")). Qed.

Lemma resolve_OUT_DIR cwd : resolve cwd OUT_DIR = cwd ++ [py "aozora_utf8_Rosanjin"].
Proof. reflexivity. Qed.

Lemma resolve_IN_DIR cwd : resolve cwd IN_DIR = cwd ++ [py "aozora_zips_Rosanjin"].
Proof. reflexivity. Qed.

Section WithArchives.
Variable codec : encoding -> bytes -> option str.
Variable cwd : list str.
Variable unzip : bytes -> result (list member).

Local Abbreviation one := (process_one codec cwd unzip).
Local Abbreviation all := (process_all codec cwd unzip).
Local Abbreviation main := (UnzipMain.main codec cwd unzip).

Lemma process_one_report zp s :
  exists printed caught, (one zp s).1 = Processed (name zp) printed caught.
Proof.
  unfold process_one.
  destruct (process_zip codec cwd zp _ OUT_DIR s) as [[printed r] s'].
  by eexists _, _.
Qed.

Lemma process_one_kinds zp s : kinds_kept s (one zp s).2.
Proof.
  unfold process_one, process_zip.
  destruct (mkdir_parents s cwd _) as [[u|e] s1] eqn:Hm; cbn [fst snd];
    pose proof (dirs_added_kinds _ _ (mkdir_parents_added _ _ _ _ _ Hm)) as K1;
    [|done].
  destruct (ZipFile cwd unzip s1 zp) as [members|e]; [|done].
  destruct (process_members_kinds codec cwd (joinpath OUT_DIR
              (safe_folder_name (stem zp))) members s1) as [K2 _].
  destruct (process_members codec cwd _ _ s1) as [[log r] s2]. cbn [snd] in *.
  by eapply kinds_kept_trans.
Qed.

Lemma process_one_frame zp s :
  wf_parts cwd -> files_outside_kept (resolve cwd OUT_DIR) s (one zp s).2.
Proof.
  intros Hcwd.
  destruct (destination_below_root cwd OUT_DIR (stem zp)) as [_ Hres].
  assert (Hd : wf_parts (parts (joinpath OUT_DIR (safe_folder_name (stem zp)))))
    by apply wf_parts_joinpath, wf_parts_OUT_DIR.
  unfold process_one, process_zip.
  destruct (mkdir_parents s cwd _) as [[u|e] s1] eqn:Hm; cbn [fst snd];
    pose proof (mkdir_parents_added _ _ _ _ _ Hm) as Ha;
    [|by apply dirs_added_outside].
  destruct (ZipFile cwd unzip s1 zp) as [members|e]; [|by apply dirs_added_outside].
  pose proof (process_members_frame codec cwd Hcwd _ members s1 Hd) as Hf.
  destruct (process_members codec cwd _ _ s1) as [[log r] s2]. cbn [snd] in *.
  eapply files_outside_kept_trans; [by apply dirs_added_outside|].
  eapply files_outside_kept_weaken; [|exact Hf].
  rewrite Hres. by apply prefix_app_r.
Qed.

Lemma process_all_spec zs : forall s,
  Forall2 (fun zp rep => exists printed caught,
             rep = Processed (name zp) printed caught) zs (all zs s).1 /\
  kinds_kept s (all zs s).2 /\
  (wf_parts cwd -> files_outside_kept (resolve cwd OUT_DIR) s (all zs s).2).
Proof.
  induction zs as [|zp zs IH]; intros s; cbn [process_all].
  - split_and!; [constructor | apply kinds_kept_refl
                | intros _; apply files_outside_kept_refl].
  - pose proof (process_one_report zp s) as Hr.
    pose proof (process_one_kinds zp s) as Hk.
    pose proof (process_one_frame zp s) as Hf.
    destruct (one zp s) as [rep s1]. cbn [fst snd] in *.
    destruct (IH s1) as (Hreps & Hks & Hfs).
    destruct (all zs s1) as [reps s2]. cbn [fst snd] in *.
    split_and!.
    + by constructor.
    + by eapply kinds_kept_trans.
    + intros Hcwd. eapply files_outside_kept_trans; [by apply Hf | by apply Hfs].
Qed.

(** X17 (main): the exit code tells how far [main] came, and nothing
    about the archives.  It is 2 exactly when the input path does not
    exist, and then nothing has been touched; [main] raises exactly
    when the input path exists and the output directory cannot be made;
    it is 1 exactly when no archive name was found, and then only
    directories have been made; in every other case it is 0, whatever
    went wrong with the archives. *)
Theorem main_exit_code_tells_how_far_it_came s :
  let run := main s in
  let made := mkdir_parents s cwd OUT_DIR in
  let zip_files := sorted (glob_zip made.2 cwd IN_DIR) in
  (run.1.2 = Ok 2 <-> exists_ s cwd IN_DIR = false) /\
  (run.1.2 = Ok 2 ->
     run.2 = s /\ run.1.1 = [InputNotFound (resolve cwd IN_DIR)]) /\
  (forall e, run.1.2 = Raise e <->
     exists_ s cwd IN_DIR = true /\ made.1 = Raise e) /\
  (run.1.2 = Ok 1 <->
     exists_ s cwd IN_DIR = true /\ (exists u, made.1 = Ok u) /\ zip_files = []) /\
  (run.1.2 = Ok 1 ->
     dirs_added s run.2 /\ run.1.1 = [NoZipFiles (resolve cwd IN_DIR)]) /\
  (run.1.2 = Ok 0 <->
     exists_ s cwd IN_DIR = true /\ (exists u, made.1 = Ok u) /\ zip_files <> []).
Proof.
  intros run made zip_files. unfold run, zip_files, made, UnzipMain.main.
  destruct (exists_ s cwd IN_DIR); cbn [negb fst snd].
  2:{ split_and!; try done.
      - intros e. split; [done | by intros [? _]].
      - split; [done | by intros [? _]].
      - split; [done | by intros [? _]]. }
  destruct (mkdir_parents s cwd OUT_DIR) as [[u|e] s1] eqn:Hm; cbn [fst snd].
  2:{ split_and!; try done.
      - intros e'. split; [by intros [= ->] | by intros [_ [= ->]]].
      - split; [done | by intros (_ & [? ?] & _)].
      - split; [done | by intros (_ & [? ?] & _)]. }
  apply mkdir_parents_added in Hm.
  destruct (sorted (glob_zip s1 cwd IN_DIR)) as [|zp zs] eqn:Hz; cbn [fst snd].
  { split_and!; try done.
    - intros e. split; [done | by intros [_ ?]].
    - split; [by eauto | done].
    - split; [done | by intros (_ & _ & ?)]. }
  destruct (all (zp :: zs) s1) as [reps s2]. cbn [fst snd].
  split_and!; try done.
  - intros e. split; [done | by intros [_ ?]].
  - split; [done | by intros (_ & _ & ?)].
  - split; [by eauto | done].
Qed.

Lemma process_all_app a : forall b s,
  all (a ++ b) s
  = ((all a s).1 ++ (all b (all a s).2).1, (all b (all a s).2).2).
Proof.
  induction a as [|zp a IH]; intros b s; cbn [app process_all fst snd].
  - by destruct (all b s).
  - destruct (one zp s) as [rep s1]. rewrite IH.
    destruct (all a s1) as [reps s2]. cbn [fst snd].
    by destruct (all b s2).
Qed.

Lemma process_all_length zs : forall s, length (all zs s).1 = length zs.
Proof.
  induction zs as [|zp zs IH]; intros s; cbn [process_all]; [done|].
  destruct (one zp s) as [rep s1]. specialize (IH s1).
  destruct (all zs s1) as [reps s2]. cbn in *. by rewrite IH.
Qed.

Lemma process_all_turn before zp after s :
  (all (before ++ zp :: after) s).1 !! length before
    = Some (one zp (all before s).2).1 /\
  (all (before ++ [zp]) s).2 = (one zp (all before s).2).2.
Proof.
  rewrite !process_all_app. cbn [fst snd]. split.
  - rewrite lookup_app_r by (by rewrite process_all_length).
    rewrite process_all_length, Nat.sub_diag. cbn [process_all].
    destruct (one zp _) as [rep s1]. by destruct (all after s1).
  - cbn [process_all]. by destruct (one zp _) as [rep s1].
Qed.

(** X18 (main): when [main] returns 0 it has printed the header, then
    a report for every archive found, in the order of their names, then
    the closing line.  The report of an archive holds the lines of
    [process_zip] on the file system the archives before it have left,
    and the exception that left [process_zip], if one did: an archive
    whose destination cannot be made is reported with that exception
    and no other line, one that cannot be opened with its banner and
    that exception, one that was opened with its banner, the lines of
    its members and the exception of the loop over them, if any.  No
    failure is passed over in silence, and none keeps the archives
    after it from being handled. *)
Theorem main_handles_every_archive s :
  let run := main s in
  let s1 := (mkdir_parents s cwd OUT_DIR).2 in
  let zip_files := sorted (glob_zip s1 cwd IN_DIR) in
  run.1.2 = Ok 0 ->
  exists reps,
    run.1.1 = [Header (resolve cwd IN_DIR) (resolve cwd OUT_DIR) (length zip_files)]
                ++ reps ++ [Finished] /\
    length reps = length zip_files /\
    run.2 = (all zip_files s1).2 /\
    forall before zp after, zip_files = before ++ zp :: after ->
      let s_k := (all before s1).2 in
      let dest_dir := joinpath OUT_DIR (safe_folder_name (stem zp)) in
      let made := mkdir_parents s_k cwd dest_dir in
      let opened := ZipFile cwd unzip made.2 zp in
      let out := process_zip codec cwd zp opened OUT_DIR s_k in
      let loop members := process_members codec cwd members dest_dir made.2 in
      let caught (r : result unit) :=
        match r with Ok _ => None | Raise e => Some e end in
      reps !! length before
        = Some (Processed (name zp) out.1.1 (caught out.1.2)) /\
      (all (before ++ [zp]) s1).2 = out.2 /\
      (forall e, made.1 = Raise e ->
         reps !! length before = Some (Processed (name zp) [] (Some e))) /\
      (forall u e, made.1 = Ok u -> opened = Raise e ->
         reps !! length before
           = Some (Processed (name zp) [Banner (name zp) dest_dir] (Some e))) /\
      (forall u members, made.1 = Ok u -> opened = Ok members ->
         reps !! length before
           = Some (Processed (name zp)
                     (Banner (name zp) dest_dir :: (loop members).1.1)
                     (caught (loop members).1.2))).
Proof.
  intros run s1 zip_files. unfold run, zip_files, s1, UnzipMain.main.
  destruct (exists_ s cwd IN_DIR); cbn [negb fst snd]; [|done].
  destruct (mkdir_parents s cwd OUT_DIR) as [[u|e] s0]; cbn [fst snd]; [|done].
  destruct (sorted (glob_zip s0 cwd IN_DIR)) as [|zp0 zs] eqn:Hz; [done|].
  pose proof (process_all_length (zp0 :: zs) s0) as Hlen.
  assert (Hturn : forall before zp after, zp0 :: zs = before ++ zp :: after ->
            (all (zp0 :: zs) s0).1 !! length before
              = Some (one zp (all before s0).2).1 /\
            (all (before ++ [zp]) s0).2 = (one zp (all before s0).2).2).
  { intros before zp after ->. apply process_all_turn. }
  destruct (all (zp0 :: zs) s0) as [reps s2]. cbn [fst snd] in *.
  intros _. exists reps. split_and!; try done.
  intros before zp after E. cbv zeta.
  destruct (Hturn _ _ _ E) as [Hrep Hst]. rewrite Hrep, Hst. clear Hrep Hst Hturn.
  set (sk := (all before s0).2).
  unfold process_one, process_zip.
  destruct (mkdir_parents sk cwd _) as [[u'|e'] sm]; cbn [fst snd].
  2:{ split_and!; try done. by intros e0 [= ->]. }
  destruct (ZipFile cwd unzip sm zp) as [members|e']; cbn [fst snd].
  2:{ split_and!; try done. by intros ? e0 _ [= ->]. }
  destruct (process_members codec cwd members _ sm) as [[log r] sn] eqn:Hl.
  cbn [fst snd]. split_and!; try done.
  intros ? members' _ [= <-]. by rewrite Hl.
Qed.

(** X19 (main): a run never removes anything and never turns a file
    into a directory or a directory into a file; and unless it returns
    0, all it has done to the file system is to make directories. *)
Theorem main_removes_nothing s :
  kinds_kept s (main s).2 /\
  ((main s).1.2 <> Ok 0 -> dirs_added s (main s).2).
Proof.
  unfold UnzipMain.main.
  destruct (exists_ s cwd IN_DIR); cbn [negb fst snd].
  2:{ split; [apply kinds_kept_refl | intros _; apply dirs_added_refl]. }
  destruct (mkdir_parents s cwd OUT_DIR) as [[u|e] s1] eqn:Hm; cbn [fst snd];
    apply mkdir_parents_added in Hm; [|by split; [apply dirs_added_kinds|]].
  destruct (sorted (glob_zip s1 cwd IN_DIR)) as [|zp zs]; cbn [fst snd];
    [by split; [apply dirs_added_kinds|]|].
  destruct (process_all_spec (zp :: zs) s1) as (_ & Hk & _).
  destruct (all (zp :: zs) s1) as [reps s2]. cbn [fst snd] in *.
  split; [|done]. eapply kinds_kept_trans; [by apply dirs_added_kinds | done].
Qed.

(** X20 (main): whatever the archives of the input directory hold, a
    run creates or changes no regular file outside the output
    directory; the archives themselves, in particular, are left as they
    are. *)
Theorem main_writes_only_below_output s :
  wf_parts cwd ->
  files_outside_kept (resolve cwd OUT_DIR) s (main s).2 /\
  forall n, file_at (main s).2 (resolve cwd IN_DIR ++ [n])
            = file_at s (resolve cwd IN_DIR ++ [n]).
Proof.
  intros Hcwd.
  assert (H : files_outside_kept (resolve cwd OUT_DIR) s (main s).2).
  { unfold UnzipMain.main.
    destruct (exists_ s cwd IN_DIR); cbn [negb fst snd];
      [|apply files_outside_kept_refl].
    destruct (mkdir_parents s cwd OUT_DIR) as [[u|e] s1] eqn:Hm; cbn [fst snd];
      apply mkdir_parents_added in Hm; [|by apply dirs_added_outside].
    destruct (sorted (glob_zip s1 cwd IN_DIR)) as [|zp zs]; cbn [fst snd];
      [by apply dirs_added_outside|].
    destruct (process_all_spec (zp :: zs) s1) as (_ & _ & Hf).
    destruct (all (zp :: zs) s1) as [reps s2]. cbn [fst snd] in *.
    eapply files_outside_kept_trans; [by apply dirs_added_outside | by apply Hf]. }
  split; [done|]. intros n. apply H.
  rewrite resolve_OUT_DIR, resolve_IN_DIR. unfold within.
  rewrite <- app_assoc. intros Hp%prefix_app_inv. cbn [app] in Hp.
  apply prefix_cons_inv_1 in Hp. by vm_compute in Hp.
Qed.

End WithArchives.

(** *** From the downloader to the extractor *)

Lemma endswith_app a b : endswith (a ++ b) b = true.
Proof.
  unfold endswith. apply startswith_prefix. rewrite rev_app_distr.
  by apply prefix_app_r.
Qed.

(** X21 (main of both programs): run from the same working directory,
    the extractor finds what the downloader stored.  A numbered archive
    of the downloader that is in the input directory is among the
    archives the extractor works through, and it is unpacked into the
    folder of the output directory that has its padded number for a
    name. *)
Theorem downloads_are_found_by_the_extractor s cwd i w :
  is_dir s cwd IN_DIR = true ->
  is_Some (s !! resolve cwd (joinpath (parse Download.OUTPUT_DIR)
                               (Download.out_name i w))) ->
  let zip_path := joinpath (parse Download.OUTPUT_DIR) (Download.out_name i w) in
  zip_path ∈ sorted (glob_zip s cwd IN_DIR) /\
  name zip_path = Download.out_name i w /\
  joinpath OUT_DIR (safe_folder_name (stem zip_path))
    = Path false (parts OUT_DIR ++ [format_0d w i]).
Proof.
  intros Hd Hf zip_path. unfold zip_path in *.
  destruct (out_name_facts i w (parse Download.OUTPUT_DIR))
    as (Hs & Hj & _ & Hst & Hsafe).
  rewrite Hst. split_and!.
  - rewrite sorted_perm. apply elem_of_glob_zip. split; [done|].
    exists (Download.out_name i w). split_and!.
    + by rewrite Hj.
    + apply endswith_app.
    + rewrite Hj, resolve_snoc in Hf. unfold step in Hf.
      destruct (str_eqb (Download.out_name i w) DOTDOT) eqn:E; [|exact Hf].
      apply str_eqb_eq, (f_equal length) in E. unfold Download.out_name in E.
      rewrite length_app in E. cbn in E. lia.
  - rewrite Hj. unfold name. cbn [parts]. apply last_last.
  - destruct (destination_below_root cwd OUT_DIR (format_0d w i)) as [H _].
    rewrite Hsafe in H |- *. exact H.
Qed.

(** *** A sample run *)

Example sample_main_run :
  let run := UnzipMain.main jisx0201 [py "home"] sample_unzip sample_input in
  run.1 = ([Header [py "home"; py "aozora_zips_Rosanjin"]
              [py "home"; py "aozora_utf8_Rosanjin"] 3;
            Processed (py "000001.zip")
              [Banner (py "000001.zip") (parse (py "aozora_utf8_Rosanjin/000001"));
               Converted (parse (py "a.txt")) cp932]
              None;
            Processed (py "000002.zip")
              [Banner (py "000002.zip") (parse (py "aozora_utf8_Rosanjin/000002"))]
              (Some BadZipFile);
            Processed (py "000010.zip")
              [Banner (py "000010.zip") (parse (py "aozora_utf8_Rosanjin/000010"))]
              (Some (OSError EISDIR));
            Finished], Ok 0) /\
  run.2 !! [py "home"; py "aozora_utf8_Rosanjin"; py "000001"; py "a.txt"]
    = Some (File [0xEF; 0xBD; 0xB1]).
Proof. cbv zeta. split; vm_compute; reflexivity. Qed.

Lemma main_handles_every_archive_witness :
  let run := UnzipMain.main jisx0201 [py "home"] sample_unzip sample_input in
  exists reps,
    run.1.1 = [Header [py "home"; py "aozora_zips_Rosanjin"]
                 [py "home"; py "aozora_utf8_Rosanjin"] 3] ++ reps ++ [Finished] /\
    reps !! 1%nat
      = Some (Processed (py "000002.zip")
                [Banner (py "000002.zip") (parse (py "aozora_utf8_Rosanjin/000002"))]
                (Some BadZipFile)).
Proof.
  cbv zeta.
  destruct (main_handles_every_archive jisx0201 [py "home"] sample_unzip sample_input)
    as (reps & Hlog & _ & _ & Hturn); [vm_compute; reflexivity|].
  exists reps. split; [exact Hlog|].
  destruct (Hturn [parse (py "aozora_zips_Rosanjin/000001.zip")]
              (parse (py "aozora_zips_Rosanjin/000002.zip"))
              [parse (py "aozora_zips_Rosanjin/000010.zip")])
    as (_ & _ & _ & Hbad & _); [vm_compute; reflexivity|].
  apply (Hbad tt BadZipFile); vm_compute; reflexivity.
Defined.

Lemma main_writes_only_below_output_witness :
  files_outside_kept (resolve home OUT_DIR) sample_input
    (UnzipMain.main jisx0201 home sample_unzip sample_input).2 /\
  forall n, file_at (UnzipMain.main jisx0201 home sample_unzip sample_input).2
              (resolve home IN_DIR ++ [n])
            = file_at sample_input (resolve home IN_DIR ++ [n]).
Proof.
  apply (main_writes_only_below_output jisx0201 home sample_unzip sample_input
           wf_parts_home).
Defined.

Lemma downloads_are_found_by_the_extractor_witness :
  let zip_path := joinpath (parse Download.OUTPUT_DIR) (Download.out_name 2 6) in
  zip_path ∈ sorted (glob_zip sample_input home IN_DIR) /\
  name zip_path = Download.out_name 2 6 /\
  joinpath OUT_DIR (safe_folder_name (stem zip_path))
    = Path false (parts OUT_DIR ++ [format_0d 6 2]).
Proof.
  cbv zeta.
  apply (downloads_are_found_by_the_extractor sample_input home 2 6).
  - vm_compute. reflexivity.
  - exists (File [0x02]). vm_compute. reflexivity.
Defined.

End MainFacts.

(** ** The collection of the links *)

Module LinkFacts.
Import PurePath FS FSMore FSFacts PathFacts ExtractFacts Download Links NamingFacts
       DownloadFacts ExtractMore DownloadMore.

(** *** The pattern of the card pages *)

Lemma literal_spec p s r : literal p s = Some r <-> s = p ++ r.
Proof.
  unfold literal. destruct (startswith s p) eqn:E.
  - apply startswith_prefix in E as [k ->]. rewrite drop_app_length.
    split; [by intros [= ->] | by intros ->%app_inv_head].
  - split; [done|]. intros ->.
    assert (startswith (p ++ r) p = true)
      by (apply startswith_prefix; by apply prefix_app_r).
    congruence.
Qed.

Lemma literal_app p r : literal p (p ++ r) = Some r.
Proof. by apply literal_spec. Qed.

Lemma at_end_spec s : at_end s = true <-> s = [] \/ s = [0x0A].
Proof. unfold at_end, str_eqb. by rewrite orb_true_iff, !bool_decide_eq_true. Qed.

Section WithDigits.
Variable is_decimal : Z -> bool.

Local Abbreviation digits := (Forall (fun c => is_decimal c = true)).

Lemma digits_then_spec k s :
  digits_then is_decimal k s = true <->
  exists d rest, s = d ++ rest /\ d <> [] /\ digits d /\ k rest = true.
Proof.
  induction s as [|c s IH]; cbn.
  - split; [done|]. intros (d & rest & E & Hd & _). by destruct d.
  - rewrite andb_true_iff, orb_true_iff, IH. split.
    + intros [Hc [(d & rest & -> & Hd & HF & Hk)|Hk]].
      * exists (c :: d), rest. split_and!; try done. by constructor.
      * exists [c], s. split_and!; try done. by repeat constructor.
    + intros (d & rest & E & Hd & HF & Hk). destruct d as [|c' d]; [done|].
      injection E as <- ->. inversion HF; subst. split; [done|].
      destruct d as [|c2 d]; [by right|]. left. by exists (c2 :: d), rest.
Qed.

Lemma after_scheme_spec s :
  after_scheme is_decimal s = true <->
  exists d1 d2 tail,
    s = CARD_HOST ++ d1 ++ CARD_FILE ++ d2 ++ CARD_EXT ++ tail /\
    d1 <> [] /\ digits d1 /\ d2 <> [] /\ digits d2 /\
    (tail = [] \/ tail = [0x0A]).
Proof.
  unfold after_scheme. split.
  - destruct (literal CARD_HOST s) as [s1|] eqn:E1; [|done].
    apply literal_spec in E1 as ->.
    intros (d1 & s2 & -> & Hd1 & HF1 & H)%digits_then_spec.
    destruct (literal CARD_FILE s2) as [s3|] eqn:E2; [|done].
    apply literal_spec in E2 as ->.
    apply digits_then_spec in H as (d2 & s4 & -> & Hd2 & HF2 & H).
    destruct (literal CARD_EXT s4) as [s5|] eqn:E3; [|done].
    apply literal_spec in E3 as ->. apply at_end_spec in H.
    by exists d1, d2, s5.
  - intros (d1 & d2 & tail & -> & Hd1 & HF1 & Hd2 & HF2 & Ht).
    rewrite literal_app. apply digits_then_spec.
    exists d1, (CARD_FILE ++ d2 ++ CARD_EXT ++ tail). split_and!; try done.
    rewrite literal_app. apply digits_then_spec.
    exists d2, (CARD_EXT ++ tail). split_and!; try done.
    rewrite literal_app. by apply at_end_spec.
Qed.

(** X22 (iter_card_links): the pattern accepts exactly the addresses
    of card pages: [http] or [https], the host and [/cards/], one or more
    decimal digits, [/card], one or more decimal digits, [.html], and
    then the end of the string; a line feed after [.html] is accepted
    too, and [www.] and the dots are taken literally. *)
Theorem card_re_matches_card_pages href :
  card_re_match is_decimal href = true <->
  exists s d1 d2 tail,
    href = HTTP ++ s ++ CARD_HOST ++ d1 ++ CARD_FILE ++ d2 ++ CARD_EXT ++ tail /\
    (s = [] \/ s = [0x73]) /\
    d1 <> [] /\ digits d1 /\ d2 <> [] /\ digits d2 /\
    (tail = [] \/ tail = [0x0A]).
Proof.
  unfold card_re_match. split.
  - destruct (literal HTTP href) as [s1|] eqn:E1; [|done].
    apply literal_spec in E1 as ->.
    destruct (literal [0x73] s1) as [s2|] eqn:E2.
    + apply literal_spec in E2 as ->.
      intros [H|H]%orb_true_iff;
        apply after_scheme_spec in H as (d1 & d2 & tail & E & H).
      * exists [0x73], d1, d2, tail. rewrite E. split; [done|]. split; [by right|done].
      * exists [], d1, d2, tail. cbn [app] in *. rewrite <- E.
        split; [done|]. split; [by left|done].
    + intros H. apply after_scheme_spec in H as (d1 & d2 & tail & -> & H).
      exists [], d1, d2, tail. split; [done|]. split; [by left|done].
  - intros (s & d1 & d2 & tail & -> & Hs & H).
    rewrite literal_app.
    assert (Ha : after_scheme is_decimal
                   (CARD_HOST ++ d1 ++ CARD_FILE ++ d2 ++ CARD_EXT ++ tail) = true).
    { apply after_scheme_spec. by exists d1, d2, tail. }
    destruct Hs as [-> | ->].
    + cbn [app]. destruct (literal [0x73] _) as [s2|]; [|done].
      by rewrite Ha, orb_true_r.
    + rewrite literal_app. by rewrite Ha.
Qed.

End WithDigits.

(** *** The loops over the anchors *)

Lemma filter_fmap_split {A B} (P : B -> Prop) `{!forall x, Decision (P x)}
    (f : A -> B) (tags : list A) : forall l1 x l2,
  filter P (f <$> tags) = l1 ++ x :: l2 ->
  exists before tag after,
    tags = before ++ tag :: after /\ f tag = x /\
    filter P (f <$> before) = l1.
Proof.
  induction tags as [|t tags IH]; intros l1 x l2.
  - intros E. by destruct l1.
  - rewrite fmap_cons, filter_cons. destruct (decide (P (f t))) as [Hp|Hp].
    + destruct l1 as [|y l1]; cbn [app].
      * intros [= <- E]. by exists [], t, tags.
      * intros [= <- E]. destruct (IH _ _ _ E) as (b & tag & a & -> & <- & <-).
        exists (t :: b), tag, a. split_and!; try done.
        rewrite fmap_cons, filter_cons. by rewrite decide_True.
    + intros E. destruct (IH _ _ _ E) as (b & tag & a & -> & <- & <-).
      exists (t :: b), tag, a. split_and!; try done.
      rewrite fmap_cons, filter_cons. by rewrite decide_False.
Qed.

Lemma dedup_urls_order urls : forall (seen : gset (list Z)) o1 u o2,
  dedup_urls seen urls = o1 ++ u :: o2 ->
  exists l1 l2, urls = l1 ++ u :: l2 /\ (u ∉ l1) /\ (u ∉ seen) /\
    forall v, v ∈ o1 <-> v ∈ l1 /\ (v ∉ seen).
Proof.
  induction urls as [|x urls IH]; intros seen o1 u o2; cbn [dedup_urls].
  - intros E. by destruct o1.
  - case_bool_decide as Hx.
    + intros (l1 & l2 & -> & Hu & Hs & Hv)%IH.
      exists (x :: l1), l2. split_and!; try done.
      * rewrite not_elem_of_cons. split; [|done]. by intros ->.
      * intros v. rewrite Hv, elem_of_cons. split; [tauto|].
        intros [[->|?] ?]; [done|tauto].
    + destruct o1 as [|y o1]; cbn [app].
      * intros [= E1 E2]. subst x. exists [], urls. split_and!; try done.
        -- apply not_elem_of_nil.
        -- intros v. split; [by intros ?%elem_of_nil|]. by intros [?%elem_of_nil _].
      * intros [= E1 E2]. subst y.
        apply IH in E2 as (l1 & l2 & -> & Hu & Hs & Hv).
        rewrite elem_of_union, elem_of_singleton in Hs.
        exists (x :: l1), l2. split_and!; try done.
        -- rewrite not_elem_of_cons. split; [|done]. intros ->. tauto.
        -- tauto.
        -- intros v. rewrite !elem_of_cons, Hv, elem_of_union, elem_of_singleton.
           destruct (decide (v = x)) as [->|Hne]; tauto.
Qed.

Section WithParsers.
Variable is_decimal : Z -> bool.
Variable anchors : str -> list (str * str).
Variable urljoin : str -> str -> str.

Local Abbreviation card_re_match := (Links.card_re_match is_decimal).
Local Abbreviation card_links_from := (Links.card_links_from is_decimal urljoin).
Local Abbreviation iter_card_links := (Links.iter_card_links is_decimal anchors urljoin).
Local Abbreviation zip_links := (Links.zip_links urljoin).
Local Abbreviation extract_zip_links := (Links.extract_zip_links anchors urljoin).

Local Abbreviation joined :=
  (fun tag : list Z * list Z => (tag.2, urljoin BASE_URL tag.1)).
Local Abbreviation is_card :=
  (fun tu : list Z * list Z => card_re_match tu.2 = true).

Lemma card_links_from_dedup tags : forall seen,
  card_links_from seen tags = dedup_from seen (filter is_card (joined <$> tags)).
Proof.
  induction tags as [|[raw text] tags IH]; intros seen; [done|].
  rewrite fmap_cons, filter_cons. cbn [Links.card_links_from fst snd].
  unfold absolute_url.
  destruct (Links.card_re_match is_decimal (urljoin BASE_URL raw)) eqn:Hm;
    cbn [andb].
  - rewrite decide_True by done. cbn [dedup_from].
    destruct (bool_decide (urljoin BASE_URL raw ∈ seen)); cbn [negb];
      by rewrite IH.
  - rewrite decide_False by (cbn; congruence). apply IH.
Qed.

(** X23 (iter_card_links): the cards collected from the author page
    have addresses that are distinct and match the pattern; they are
    the absolute addresses, against the base of the site, of the anchors
    that match, no one left out; and the title kept for a card is the
    text of the first anchor of the page that leads to it. *)
Theorem card_links_are_the_distinct_cards author_html :
  let links := iter_card_links author_html in
  NoDup links.*2 /\
  (forall u, u ∈ links.*2 <->
     card_re_match u = true /\
     exists raw text, (raw, text) ∈ anchors author_html /\ u = urljoin BASE_URL raw) /\
  (forall title u, (title, u) ∈ links ->
     exists before raw after,
       anchors author_html = before ++ (raw, title) :: after /\
       u = urljoin BASE_URL raw /\
       forall tag, tag ∈ before -> urljoin BASE_URL tag.1 <> u).
Proof.
  intros links. unfold links, Links.iter_card_links.
  rewrite card_links_from_dedup. split_and!.
  - apply dedup_from_NoDup.
  - intros u. rewrite dedup_from_elem. split.
    + intros [Hu _]. apply list_elem_of_fmap in Hu as ([t u'] & -> & Hu).
      apply list_elem_of_filter in Hu as [Hc Hu].
      apply list_elem_of_fmap in Hu as ([raw text] & [= -> ->] & Hu).
      split; [done|]. by exists raw, text.
    + intros (Hc & raw & text & Hin & ->). split; [|apply not_elem_of_empty].
      apply list_elem_of_fmap. exists (text, urljoin BASE_URL raw). split; [done|].
      apply list_elem_of_filter. split; [done|].
      apply list_elem_of_fmap. by exists (raw, text).
  - intros title u Hin.
    assert (Hc : card_re_match u = true).
    { pose proof (elem_of_sublist _ _ _ Hin (dedup_from_sublist _ _)) as Hin'.
      by apply list_elem_of_filter in Hin' as [? _]. }
    apply dedup_from_first in Hin as (l1 & l2 & E & Hl1).
    apply filter_fmap_split in E as (before & [raw text] & after & E & [= -> Hu0] & <-).
    subst u. exists before, raw, after. split_and!; try done.
    intros [raw' text'] Hb Hu. cbn in Hu. apply Hl1.
    apply list_elem_of_fmap. exists (text', urljoin BASE_URL raw'). split; [done|].
    apply list_elem_of_filter. split; [cbn; by rewrite Hu|].
    apply list_elem_of_fmap. by exists (raw', text').
Qed.

Lemma zip_links_elem card_url tags u :
  u ∈ zip_links card_url tags <->
  exists href text, (href, text) ∈ tags /\
    endswith (lower href) ZIP_EXT = true /\ u = urljoin card_url href.
Proof.
  induction tags as [|[href text] tags IH]; cbn [Links.zip_links].
  - split; [by intros ?%elem_of_nil|]. by intros (? & ? & ?%elem_of_nil & _).
  - destruct (endswith (lower href) ZIP_EXT) eqn:Hz.
    + rewrite elem_of_cons, IH. unfold absolute_url. split.
      * intros [->|(h & t & Hin & Hh & ->)].
        -- exists href, text. split; [by left|done].
        -- exists h, t. split; [by right|done].
      * intros (h & t & [[= -> ->]|Hin]%elem_of_cons & Hh & ->); [by left|].
        right. by exists h, t.
    + rewrite IH. split.
      * intros (h & t & Hin & Hh & ->). exists h, t. split; [by right|done].
      * intros (h & t & [[= -> ->]|Hin]%elem_of_cons & Hh & ->); [congruence|].
        by exists h, t.
Qed.

Lemma dedup_urls_dedup_from urls : forall seen,
  dedup_urls seen urls = (dedup_from seen ((fun u => ([], u)) <$> urls)).*2.
Proof.
  induction urls as [|u urls IH]; intros seen; [done|].
  rewrite fmap_cons. cbn [dedup_urls dedup_from].
  destruct (bool_decide (u ∈ seen)); [|rewrite fmap_cons; cbn [snd]];
    by rewrite IH.
Qed.

Lemma dedup_urls_spec seen urls :
  NoDup (dedup_urls seen urls) /\
  (forall u, u ∈ dedup_urls seen urls <-> u ∈ urls /\ u ∉ seen) /\
  dedup_urls seen urls `sublist_of` urls.
Proof.
  rewrite dedup_urls_dedup_from.
  assert (E : ((fun u : list Z => ([] : list Z, u)) <$> urls).*2 = urls).
  { rewrite <- list_fmap_compose. apply list_fmap_id. }
  split_and!.
  - apply dedup_from_NoDup.
  - intros u. by rewrite dedup_from_elem, E.
  - rewrite <- E at 2. apply fmap_sublist, dedup_from_sublist.
Qed.

Lemma dedup_urls_NoDup_id urls : forall seen : gset (list Z),
  NoDup urls -> (forall u, u ∈ urls -> u ∉ seen) -> dedup_urls seen urls = urls.
Proof.
  induction urls as [|u urls IH]; intros seen Hnd Hseen; cbn [dedup_urls]; [done|].
  apply NoDup_cons in Hnd as [Hu Hnd].
  rewrite bool_decide_eq_false_2 by (apply Hseen; by left). f_equal.
  apply IH; [done|]. intros v Hv. rewrite elem_of_union, elem_of_singleton.
  intros [->|Hin]; [done|]. eapply Hseen; [|exact Hin]. by right.
Qed.

Lemma zip_links_filter card_url tags :
  zip_links card_url tags
  = (fun tag : list Z * list Z => urljoin card_url tag.1)
      <$> filter (fun tag : list Z * list Z => endswith (lower tag.1) ZIP_EXT = true) tags.
Proof.
  induction tags as [|[href text] tags IH]; [done|].
  cbn [Links.zip_links]. rewrite filter_cons. cbn [fst].
  destruct (endswith (lower href) ZIP_EXT) eqn:Hz.
  - rewrite decide_True by done. rewrite fmap_cons. cbn [fst]. by rewrite IH.
  - rewrite decide_False by congruence. apply IH.
Qed.

(** X24 (extract_zip_links): the links gathered from a card page are
    the absolute addresses, against the address of the card, of the
    anchors whose attribute as written ends in [.zip] in any mix of
    cases, in the order of the page.  The links returned are these
    without their repetitions, each at the place of its first
    occurrence: what comes before a link in the result is what comes
    before its first occurrence among the links gathered.  The test is
    on the attribute and not on the address that is kept, and removing
    duplicates again changes nothing. *)
Theorem zip_links_are_distinct_and_complete card_html card_url :
  let links := zip_links card_url (anchors card_html) in
  let out := extract_zip_links card_html card_url in
  links = (fun tag : list Z * list Z => urljoin card_url tag.1)
            <$> filter (fun tag : list Z * list Z =>
                          endswith (lower tag.1) ZIP_EXT = true)
                  (anchors card_html) /\
  NoDup out /\
  (forall u, u ∈ out <->
     exists href text, (href, text) ∈ anchors card_html /\
       endswith (lower href) ZIP_EXT = true /\ u = urljoin card_url href) /\
  out `sublist_of` links /\
  (forall o1 u o2, out = o1 ++ u :: o2 ->
     exists l1 l2, links = l1 ++ u :: l2 /\ (u ∉ l1) /\
       forall v, v ∈ o1 <-> v ∈ l1) /\
  dedup_urls ∅ out = out.
Proof.
  intros links out. unfold out, links, Links.extract_zip_links.
  destruct (dedup_urls_spec ∅ (zip_links card_url (anchors card_html)))
    as (Hnd & Hel & Hsub).
  split_and!; try done.
  - apply zip_links_filter.
  - intros u. rewrite Hel, zip_links_elem. split; [by intros [? _]|].
    intros H. split; [done | apply not_elem_of_empty].
  - intros o1 u o2 (l1 & l2 & E & Hu & _ & Hv)%dedup_urls_order.
    exists l1, l2. split_and!; try done.
    intros v. rewrite Hv. split; [by intros [? _]|].
    intros ?. split; [done | apply not_elem_of_empty].
  - apply dedup_urls_NoDup_id; [done|]. intros u _. apply not_elem_of_empty.
Qed.

End WithParsers.

(** *** The loop over the cards, and [main] *)

Section WithNetwork.
Variable is_decimal : Z -> bool.
Variable anchors : str -> list (str * str).
Variable urljoin : str -> str -> str.
Variable parse_error : str -> option exn.
Variable join_error : str -> str -> option exn.
Variable fetch_html : list str -> str -> result str.
Variable net : list str -> str -> result response.
Variable cwd : list str.
Variable dir_size : Z.

Local Abbreviation try_iter_card_links :=
  (Links.try_iter_card_links is_decimal anchors urljoin parse_error join_error).
Local Abbreviation try_extract_zip_links :=
  (Links.try_extract_zip_links anchors urljoin parse_error join_error).
Local Abbreviation collect :=
  (Links.collect anchors urljoin parse_error join_error fetch_html).
Local Abbreviation links_read :=
  (Links.links_read anchors urljoin parse_error join_error fetch_html).
Local Abbreviation main :=
  (Links.main is_decimal anchors urljoin parse_error join_error fetch_html
     net cwd dir_size).

Lemma snoc_requests (reqs : list str) (t cu : str) (b : list (str * str)) :
  (reqs ++ [cu]) ++ b.*2 = reqs ++ ((t, cu) :: b).*2.
Proof. by rewrite <- app_assoc. Qed.

Lemma links_read_tail reqs t cu rest :
  links_read reqs ((t, cu) :: rest) -> links_read (reqs ++ [cu]) rest.
Proof.
  intros H before title card_url after card_html -> Hf.
  apply (H ((t, cu) :: before) title card_url after card_html); [done|].
  by rewrite <- (snoc_requests reqs t cu).
Qed.

Lemma links_read_cons reqs t cu rest :
  (forall card_html, fetch_html reqs cu = Ok card_html ->
     exists zip_urls, try_extract_zip_links card_html cu = Ok zip_urls) ->
  links_read (reqs ++ [cu]) rest -> links_read reqs ((t, cu) :: rest).
Proof.
  intros Hhead Htail before title card_url after card_html E Hf.
  destruct before as [|x before].
  - injection E as E1 E2 E3. subst. cbn in Hf. rewrite app_nil_r in Hf.
    by apply Hhead.
  - injection E as E1 E2. subst.
    apply (Htail before title card_url after card_html); [done|].
    by rewrite (snoc_requests reqs t cu).
Qed.

(** The loop stops at the first card whose page is fetched and cannot
    be read. *)
Lemma collect_stops card_links : forall idx total reqs,
  forall before title card_url after card_html e,
    card_links = before ++ (title, card_url) :: after ->
    links_read reqs before ->
    fetch_html (reqs ++ before.*2) card_url = Ok card_html ->
    try_extract_zip_links card_html card_url = Raise e ->
    (collect idx total card_links reqs).1.1 = Raise e /\
    (collect idx total card_links reqs).2 = reqs ++ before.*2 ++ [card_url] /\
    length (collect idx total card_links reqs).1.2 = length before.
Proof.
  induction card_links as [|[t cu] rest IH];
    intros idx total reqs before title card_url after card_html e E Hread Hf He.
  - by destruct before.
  - cbn [Links.collect]. destruct before as [|x before].
    + injection E as E1 E2 E3. subst. cbn in Hf. rewrite app_nil_r in Hf.
      rewrite Hf, He. done.
    + injection E as E1 E2. subst x rest.
      rewrite <- (snoc_requests reqs t cu) in Hf.
      pose proof (links_read_tail _ _ _ _ Hread) as Hread'.
      destruct (IH (S idx) total (reqs ++ [cu]) before title card_url after
                  card_html e eq_refl Hread' Hf He) as (Hr & Hq & Hl).
      assert (Hreq : (reqs ++ [cu]) ++ before.*2 ++ [card_url]
                     = reqs ++ ((t, cu) :: before).*2 ++ [card_url])
        by (by rewrite <- app_assoc).
      destruct (fetch_html reqs cu) as [h|e0] eqn:Hfetch.
      * destruct (Hread [] t cu before h eq_refl) as [zs Hzs];
          [cbn; by rewrite app_nil_r|].
        rewrite Hzs.
        destruct (Links.collect _ _ _ _ _ (S idx) total _ (reqs ++ [cu]))
          as [[r log] reqs']. cbn [fst snd] in *. subst r.
        split_and!; [done | by rewrite Hq | cbn; by rewrite Hl].
      * destruct (Links.collect _ _ _ _ _ (S idx) total _ (reqs ++ [cu]))
          as [[r log] reqs']. cbn [fst snd] in *.
        split_and!; [done | by rewrite Hq | cbn; by rewrite Hl].
Qed.

(** It comes to its end when every page that is fetched can be read. *)
Lemma collect_ends card_links : forall idx total reqs,
  links_read reqs card_links ->
  exists all_zips,
    (collect idx total card_links reqs).1.1 = Ok all_zips /\
    (collect idx total card_links reqs).2 = reqs ++ card_links.*2 /\
    length (collect idx total card_links reqs).1.2 = length card_links /\
    forall title z, (title, z) ∈ all_zips <->
      exists before card_url after card_html zip_urls,
        card_links = before ++ (title, card_url) :: after /\
        fetch_html (reqs ++ before.*2) card_url = Ok card_html /\
        try_extract_zip_links card_html card_url = Ok zip_urls /\
        z ∈ zip_urls.
Proof.
  induction card_links as [|[t cu] rest IH]; intros idx total reqs Hread.
  - exists []. cbn. rewrite app_nil_r. split_and!; try done. intros title z. split.
    + by intros ?%elem_of_nil.
    + intros (b & ? & ? & ? & ? & E & _). by destruct b.
  - cbn [Links.collect].
    destruct (IH (S idx) total (reqs ++ [cu]) (links_read_tail _ _ _ _ Hread))
      as (zips & Hr & Hq & Hl & Hel).
    setoid_rewrite (snoc_requests reqs t cu) in Hel.
    destruct (fetch_html reqs cu) as [h|e0] eqn:Hfetch.
    + destruct (Hread [] t cu rest h eq_refl) as [zs Hzs];
        [cbn; by rewrite app_nil_r|].
      rewrite Hzs.
      destruct (Links.collect _ _ _ _ _ (S idx) total _ (reqs ++ [cu]))
        as [[r log] reqs']. cbn [fst snd] in *. subst r.
      exists (((fun z => (t, z)) <$> zs) ++ zips).
      split_and!; [done | by rewrite Hq, <- app_assoc | cbn; by rewrite Hl |].
      intros title z. rewrite elem_of_app, Hel, list_elem_of_fmap. split.
      * intros [(z' & [= -> ->] & Hz)|(b & u & a & h' & zs' & -> & Hf & He & Hz)].
        -- exists [], cu, rest, h, zs. cbn. by rewrite app_nil_r.
        -- by exists ((t, cu) :: b), u, a, h', zs'.
      * intros (b & u & a & h' & zs' & E & Hf & He & Hz). destruct b as [|x b].
        -- cbn in E, Hf. rewrite app_nil_r in Hf. injection E as E1 E2 E3. subst.
           left. exists z. split; [done|]. congruence.
        -- injection E as E1 E2. subst. right. by exists b, u, a, h', zs'.
    + destruct (Links.collect _ _ _ _ _ (S idx) total _ (reqs ++ [cu]))
        as [[r log] reqs']. cbn [fst snd] in *. subst r.
      exists zips.
      split_and!; [done | by rewrite Hq, <- app_assoc | cbn; by rewrite Hl |].
      intros title z. rewrite Hel. split.
      * intros (b & u & a & h' & zs' & -> & Hf & He & Hz).
        by exists ((t, cu) :: b), u, a, h', zs'.
      * intros (b & u & a & h' & zs' & E & Hf & He & Hz). destruct b as [|x b].
        -- cbn in E, Hf. rewrite app_nil_r in Hf. injection E as E1 E2 E3. subst.
           congruence.
        -- injection E as E1 E2. subst. by exists b, u, a, h', zs'.
Qed.

(** One or the other. *)
Lemma collect_cases card_links : forall reqs,
  links_read reqs card_links \/
  exists before title card_url after card_html e,
    card_links = before ++ (title, card_url) :: after /\
    links_read reqs before /\
    fetch_html (reqs ++ before.*2) card_url = Ok card_html /\
    try_extract_zip_links card_html card_url = Raise e.
Proof.
  induction card_links as [|[t cu] rest IH]; intros reqs.
  - left. intros b ? ? ? ? E. by destruct b.
  - destruct (fetch_html reqs cu) as [h|e0] eqn:Hfetch.
    + destruct (try_extract_zip_links h cu) as [zs|e] eqn:He.
      * destruct (IH (reqs ++ [cu]))
          as [Hread|(b & title & u & a & h' & e & -> & Hread & Hf & He')].
        -- left. apply links_read_cons; [|done]. intros h' Hh. rewrite Hfetch in Hh. injection Hh as <-. by exists zs.
        -- right. exists ((t, cu) :: b), title, u, a, h', e. split_and!; try done.
           ++ apply links_read_cons; [|done]. intros h'' Hh. rewrite Hfetch in Hh. injection Hh as <-. by exists zs.
           ++ by rewrite <- (snoc_requests reqs t cu).
      * right. exists [], t, cu, rest, h, e. split_and!; try done.
        -- intros b ? ? ? ? E. by destruct b.
        -- cbn. by rewrite app_nil_r.
    + destruct (IH (reqs ++ [cu]))
        as [Hread|(b & title & u & a & h' & e & -> & Hread & Hf & He')].
      * left. apply links_read_cons; [|done]. intros h'. congruence.
      * right. exists ((t, cu) :: b), title, u, a, h', e. split_and!; try done.
        -- apply links_read_cons; [|done]. intros h''. congruence.
        -- by rewrite <- (snoc_requests reqs t cu).
Qed.


Lemma collect_requests_prefix idx total card_links reqs :
  exists rs, (collect idx total card_links reqs).2 = reqs ++ rs /\
             rs `prefix_of` card_links.*2.
Proof.
  destruct (collect_cases card_links reqs)
    as [Hread|(b & title & u & a & h & e & -> & Hread & Hf & He)].
  - destruct (collect_ends card_links idx total reqs Hread) as (? & _ & Hq & _).
    by exists card_links.*2.
  - destruct (collect_stops _ idx total reqs b title u a h e eq_refl Hread Hf He)
      as (_ & Hq & _).
    exists (b.*2 ++ [u]). split; [done|].
    rewrite fmap_app, fmap_cons. cbn [snd].
    apply prefix_app, prefix_cons, prefix_nil.
Qed.


End WithNetwork.


(** *** A sample collection *)

Example sample_collection_run :
  let run := Links.main ascii_digit sample_anchors sample_urljoin no_parse_error
               sample_join_error sample_fetch sample_net [py "home"] 4096
               empty_world in
  run.1 = ([AuthorPage; FoundCards 1; CardDone 1 1 (py "Tea") 2; TotalUnique 2;
            Outcome (Downloaded (py "000001.zip"));
            Outcome (Downloaded (py "000002.zip")); Done], Ok 0) /\
  requests run.2 = [AUTHOR_PAGE_URL; sample_card_url;
                    sample_card_url ++ py "files/49960_ruby.zip";
                    sample_card_url ++ py "files/49960.ZIP"].
Proof. cbv zeta. split; vm_compute; reflexivity. Qed.

(** A card page with a link that [urljoin] refuses: the exception
    leaves [main] after the page has been requested, and nothing is
    downloaded. *)
Example sample_unreadable_card :
  let run := Links.main ascii_digit sample_anchors sample_urljoin no_parse_error
               sample_join_error broken_fetch sample_net [py "home"] 4096
               empty_world in
  run.1 = ([AuthorPage; FoundCards 1], Raise (ValueError "Invalid IPv6 URL")) /\
  requests run.2 = [AUTHOR_PAGE_URL; sample_card_url] /\
  files run.2 !! [py "home"; OUTPUT_DIR; py "000001.zip"] = None.
Proof. cbv zeta. split_and!; vm_compute; reflexivity. Qed.

(** The pattern is anchored at both ends, but for a line feed at the
    end: an address of an archive is no card, a card address followed
    by a line feed is one. *)
Example sample_card_pattern :
  card_re_match ascii_digit sample_card_url = true /\
  card_re_match ascii_digit (sample_card_url ++ [0x0A]) = true /\
  card_re_match ascii_digit (sample_card_url ++ py "files/49960.zip") = false /\
  card_re_match ascii_digit (py "https://www.aozora.gr.jp/cards//card1.html") = false.
Proof. split_and!; vm_compute; reflexivity. Qed.

End LinkFacts.
